(** * chapter-cracker: silence report ingestion, chapter inference and
      FFMETADATA encoding

    A shallow embedding of the logic layer of [src/chapter-cracker.ts] and of
    its sibling variant [src/unnamed/part_000], with the properties of the
    specification stated and settled against it.

    Layout:
    - [JS]: the fragment of the ECMAScript runtime the program relies on:
      binary64 numbers with [*], [-] and [Math.floor], [parseFloat], the
      conversion of numbers to strings, [trim], regular expressions with
      [exec] and the [g] flag, [forEach] and [for];
    - [ChapterCracker]: [main] of [src/chapter-cracker.ts];
    - [Part000]: [main] of [src/unnamed/part_000];
    - [Runtime], [ChapterCrackerScript], [Part000Script]: the statements
      of each file around that logic layer, which read the command line,
      spawn the tools and judge the conversion;
    - the vocabulary of the properties, then the lemmas and theorems.

    Modelling choices:
    - a string is a sequence of code points below 256 (the type [string]
      of the Standard Library);
    - [parseFloat] rounds the decimal it reads to the nearest number, as
      JavaScriptCore and V8 do for any number of digits;
    - an array index is a [nat]: indices are integers below [2 ^ 32], which
      [+] and the conversion to a string treat exactly
      ([index_titles_agree] checks the first indices against the
      conversion of numbers);
    - the tools spawned by [main] are given by what they answer ([World]);
      [console.log] is left out, and so is the conversion step that
      follows the write of the metadata file in [ChapterCracker.main] and
      [Part000.main];
    - the piped output of a process is a stream without the method
      [arrayBuffer] ([JS.arrayBuffer]), so that the [main] of
      [src/chapter-cracker.ts] throws where it first reads one; the
      functions it would go on to call are modelled all the same;
    - in the scripts a tool is given by what it answers to its command
      line ([Runtime.Host]); every tool can be spawned and
      [writeFileSync] succeeds. *)

From Stdlib Require Import ZArith List String Ascii Bool Lia PeanoNat.
From Stdlib Require Import Floats.SpecFloat.
From Stdlib Require Import DecimalString DecimalNat DecimalZ Decimal.
From Stdlib Require Import DecimalPos.
Import ListNotations.

Local Open Scope string_scope.
Local Open Scope Z_scope.

(* ===================================================================== *)
(** ** The ECMAScript fragment *)
(* ===================================================================== *)

Module JS.

(** *** Numbers

    A JS [number] is an IEEE 754 binary64 value.  The Standard Library's
    executable specification [spec_float] is used at precision 53 and
    maximal exponent 1024; arithmetic is its [SFmul] and [SFsub]. *)

Definition number := spec_float.

Definition prec : Z := 53.
Definition emax : Z := 1024.

Definition NaN : number := S754_nan.
Definition Infinity : number := S754_infinity false.

(** The number denoted by an integer literal. *)
Definition of_Z (z : Z) : number := binary_normalize prec emax z 0 false.

Definition mul (x y : number) : number := SFmul prec emax x y.
Definition sub (x y : number) : number := SFsub prec emax x y.

Definition isNaN (x : number) : bool :=
  match x with S754_nan => true | _ => false end.

Definition isFinite (x : number) : bool :=
  match x with S754_zero _ | S754_finite _ _ _ => true | _ => false end.

(** [x >= y]: false as soon as one side is [NaN]. *)
Definition ge (x y : number) : bool := SFleb y x.
Definition gt (x y : number) : bool := SFltb y x.

Definition number_eqb (x y : number) : bool :=
  match x, y with
  | S754_zero a, S754_zero b => Bool.eqb a b
  | S754_infinity a, S754_infinity b => Bool.eqb a b
  | S754_nan, S754_nan => true
  | S754_finite a m e, S754_finite b m' e' =>
      Bool.eqb a b && Pos.eqb m m' && Z.eqb e e'
  | _, _ => false
  end.

(** [Math.floor]: the greatest integer below or equal to [x]; [NaN], the
    infinities and both zeros are returned unchanged.  A finite number with
    a negative binary exponent has fewer than 53 integer bits, so its floor
    is exactly representable. *)
Definition floor (x : number) : number :=
  match x with
  | S754_finite s m e =>
      if 0 <=? e then x
      else of_Z (Z.shiftr (cond_Zopp s (Zpos m)) (- e))
  | _ => x
  end.

(** The binary64 number nearest to the positive rational [n / d], ties to
    even.  The quotient is computed with more than 64 significant bits and a
    sticky last bit, then rounded by [binary_normalize]. *)
Definition of_ratio (neg : bool) (n d : positive) : number :=
  let sh := 66 - (Z.log2 (Zpos n) - Z.log2 (Zpos d)) in
  let num := if 0 <=? sh then Z.shiftl (Zpos n) sh else Zpos n in
  let den := if 0 <=? sh then Zpos d else Z.shiftl (Zpos d) (- sh) in
  let q := num / den in
  let sticky := if num mod den =? 0 then 0 else 1 in
  binary_normalize prec emax (cond_Zopp neg (2 * q + sticky)) (- sh - 1) false.

(** The number nearest to [m * 10 ^ e], for a natural [m]. *)
Definition of_decimal (neg : bool) (m : Z) (e : Z) : number :=
  match m with
  | Zpos p =>
      if 0 <=? e then of_ratio neg (p * Z.to_pos (10 ^ e)) 1
      else of_ratio neg p (Z.to_pos (10 ^ (- e)))
  | _ => S754_zero neg
  end.

(** *** Characters and strings *)

Definition is_digit (c : ascii) : bool :=
  let n := nat_of_ascii c in (48 <=? n)%nat && (n <=? 57)%nat.

(** White space and line terminators, as matched by [\s] and removed by
    [trim]; strings are taken over the code points below 256, where these
    are TAB, LF, VT, FF, CR, SP and NBSP. *)
Definition is_space (c : ascii) : bool :=
  let n := nat_of_ascii c in
  ((9 <=? n)%nat && (n <=? 13)%nat) || (n =? 32)%nat || (n =? 160)%nat.

Fixpoint span (p : ascii -> bool) (s : string) : string * string :=
  match s with
  | String c r =>
      if p c then let '(a, b) := span p r in (String c a, b) else ("", s)
  | EmptyString => ("", "")
  end.

Fixpoint trimStart (s : string) : string :=
  match s with
  | String c r => if is_space c then trimStart r else s
  | EmptyString => ""
  end.

(** [trimEnd]: a white space character is dropped when nothing but white
    space follows it. *)
Fixpoint trimEnd (s : string) : string :=
  match s with
  | String c r =>
      match trimEnd r with
      | EmptyString => if is_space c then "" else String c ""
      | r' => String c r'
      end
  | EmptyString => ""
  end.

Definition trim (s : string) : string := trimEnd (trimStart s).

(** The mathematical value of a run of decimal digits. *)
Fixpoint digits_value (acc : Z) (s : string) : Z :=
  match s with
  | String c r => digits_value (10 * acc + Z.of_nat (nat_of_ascii c - 48)) r
  | EmptyString => acc
  end.

(** *** [parseFloat]

    Leading white space is skipped, then the longest prefix that is a
    [StrDecimalLiteral] is read: an optional sign, then [Infinity] or
    digits with an optional fraction and an optional exponent part.  No such
    prefix gives [NaN].  The value read is rounded to the nearest number. *)

Definition exponent_part (s : string) : Z :=
  match s with
  | String c r =>
      if Ascii.eqb c "e" || Ascii.eqb c "E" then
        let '(neg, r') :=
          match r with
          | String "-" t => (true, t)
          | String "+" t => (false, t)
          | _ => (false, r)
          end in
        match fst (span is_digit r') with
        | EmptyString => 0
        | ds => cond_Zopp neg (digits_value 0 ds)
        end
      else 0
  | EmptyString => 0
  end.

Definition parseUnsigned (neg : bool) (s : string) : number :=
  if String.prefix "Infinity" s then S754_infinity neg
  else
    let '(ip, s2) := span is_digit s in
    let '(fp, s3) :=
      match s2 with
      | String "." r => span is_digit r
      | _ => ("", s2)
      end in
    match ip ++ fp with
    | EmptyString => NaN
    | ds =>
        of_decimal neg (digits_value 0 ds)
          (exponent_part s3 - Z.of_nat (String.length fp))
    end.

Definition parseFloat (input : string) : number :=
  match trimStart input with
  | String "-" r => parseUnsigned true r
  | String "+" r => parseUnsigned false r
  | s => parseUnsigned false s
  end.

(** *** Number to string

    [Number::toString] in radix 10: the shortest digit string [s] (of [k]
    digits) and the decimal exponent [n] such that [s * 10 ^ (n - k)] rounds
    to the number, the closest one when several exist. *)

Definition string_of_Z (z : Z) : string :=
  NilZero.string_of_int (Z.to_int z).

Definition string_of_nat (n : nat) : string :=
  NilZero.string_of_uint (Nat.to_uint n).

(** The decimal exponent [n] of the positive [num / den], such that
    [10 ^ (n - 1) <= num / den < 10 ^ n]: found by stepping up from 1 when
    the fraction is at least 1, down from 0 otherwise. *)
Fixpoint decimal_exponent_up (fuel : nat) (num den n : Z) : Z :=
  match fuel with
  | O => n
  | S fuel' =>
      if num <? den * 10 ^ n then n
      else decimal_exponent_up fuel' num den (n + 1)
  end.

Fixpoint decimal_exponent_down (fuel : nat) (num den n : Z) : Z :=
  match fuel with
  | O => n
  | S fuel' =>
      if den <=? 10 * num then n
      else decimal_exponent_down fuel' (10 * num) den (n - 1)
  end.

Definition decimal_exponent (num den : Z) : Z :=
  if den <=? num then decimal_exponent_up 400 num den 1
  else decimal_exponent_down 400 num den 0.

(** [x * 10 ^ e] as a fraction. *)
Definition scale10 (num den e : Z) : Z * Z :=
  if 0 <=? e then (num * 10 ^ e, den) else (num, den * 10 ^ (- e)).

(** Whether the decimal [c * 10 ^ e] reads back as [x]. *)
Definition reads_back (x : number) (c e : Z) : bool :=
  number_eqb (of_decimal false c e) x.

(** The candidate with [k] digits for the positive [num / den] of decimal
    exponent [n], if one reads back as [x]: the integers around
    [num / den * 10 ^ (k - n)], the closer one first, the even one on a
    tie. *)
Definition candidate (x : number) (num den n k : Z) : option Z :=
  let '(a, b) := scale10 num den (k - n) in
  let lo := a / b in
  let hi := lo + 1 in
  let twice_rem := 2 * (a mod b) in
  let lo_first :=
    match twice_rem ?= b with
    | Lt => true
    | Eq => Z.even lo
    | Gt => false
    end in
  let '(c1, c2) := if lo_first then (lo, hi) else (hi, lo) in
  if reads_back x c1 (n - k) then Some c1
  else if reads_back x c2 (n - k) then Some c2
  else None.

Fixpoint shortest (fuel : nat) (x : number) (num den n k : Z) : Z * Z :=
  match fuel with
  | O => (fst (scale10 num den (k - n)) / snd (scale10 num den (k - n)), k)
  | S fuel' =>
      match candidate x num den n k with
      | Some c => (c, k)
      | None => shortest fuel' x num den n (k + 1)
      end
  end.

Fixpoint zeros (n : nat) : string :=
  match n with
  | O => ""
  | S n' => String "0" (zeros n')
  end.

Definition substring_from (i : nat) (s : string) : string :=
  String.substring i (String.length s - i) s.

(** The text of a positive finite number from its [k] digits [s] and its
    decimal exponent [n]. *)
Definition format_digits (s : string) (k n : Z) : string :=
  if (k <=? n) && (n <=? 21) then s ++ zeros (Z.to_nat (n - k))
  else if (0 <? n) && (n <=? 21) then
    String.substring 0 (Z.to_nat n) s ++ "." ++ substring_from (Z.to_nat n) s
  else if (-6 <? n) && (n <=? 0) then "0." ++ zeros (Z.to_nat (- n)) ++ s
  else
    let e := n - 1 in
    let sign := if 0 <=? e then "+" else "-" in
    let mant :=
      match s with
      | String c r => if k =? 1 then s else String c ("." ++ r)
      | EmptyString => s
      end in
    mant ++ "e" ++ sign ++ string_of_Z (Z.abs e).

Definition toString_pos (m : positive) (e : Z) : string :=
  let '(num, den) :=
    if 0 <=? e then (Zpos m * 2 ^ e, 1) else (Zpos m, 2 ^ (- e)) in
  let n := decimal_exponent num den in
  let '(c, k) := shortest 17 (S754_finite false m e) num den n 1 in
  (* a candidate rounded up to [10 ^ k] is the digit 1 one place higher *)
  if c =? 10 ^ k then format_digits "1" 1 (n + 1)
  else format_digits (string_of_Z c) k n.

Definition toString (x : number) : string :=
  match x with
  | S754_nan => "NaN"
  | S754_zero _ => "0"
  | S754_infinity s => if s then "-Infinity" else "Infinity"
  | S754_finite s m e =>
      (if s then "-" else "") ++ toString_pos m e
  end.

(** *** Regular expressions

    The patterns of the program are a sequence of atoms followed by one
    capture group made of atoms: literal text, and greedy [c*], [c+] and
    [c?] over a character class.  Matching backtracks as a JS engine does:
    a greedy atom first takes all it can and gives characters back while the
    rest of the pattern fails. *)

Inductive atom :=
| Lit (l : string)
| Star (p : ascii -> bool)
| Plus (p : ascii -> bool)
| Opt (p : ascii -> bool).

Record regex := { before : list atom; group : list atom }.

Fixpoint strip_prefix (l s : string) : option string :=
  match l, s with
  | EmptyString, _ => Some s
  | String a l', String b s' =>
      if Ascii.eqb a b then strip_prefix l' s' else None
  | String _ _, EmptyString => None
  end.

Section Matching.
Context {A : Type}.

(** [c*] followed by the continuation [k]. *)
Fixpoint greedy (p : ascii -> bool) (k : string -> option A) (s : string)
  : option A :=
  match s with
  | String c t =>
      if p c then
        match greedy p k t with
        | Some r => Some r
        | None => k s
        end
      else k s
  | EmptyString => k s
  end.

Fixpoint matchAtoms (r : list atom) (k : string -> option A) (s : string)
  : option A :=
  match r with
  | [] => k s
  | Lit l :: r' =>
      match strip_prefix l s with
      | Some s' => matchAtoms r' k s'
      | None => None
      end
  | Star p :: r' => greedy p (matchAtoms r' k) s
  | Plus p :: r' =>
      match s with
      | String c t => if p c then greedy p (matchAtoms r' k) t else None
      | EmptyString => None
      end
  | Opt p :: r' =>
      match s with
      | String c t =>
          if p c then
            match matchAtoms r' k t with
            | Some x => Some x
            | None => matchAtoms r' k s
            end
          else matchAtoms r' k s
      | EmptyString => matchAtoms r' k s
      end
  end.
End Matching.

(** The text of [s1] up to its suffix [s2]. *)
Definition consumed (s1 s2 : string) : string :=
  String.substring 0 (String.length s1 - String.length s2) s1.

(** A match of [re] that starts at the head of [s]: the captured text and
    what follows the match. *)
Definition matchAt (re : regex) (s : string) : option (string * string) :=
  matchAtoms (before re)
    (fun s1 => matchAtoms (group re) (fun s2 => Some (consumed s1 s2, s2)) s1)
    s.

(** [re.exec(text)] for a pattern with the [g] flag, [s] being the text
    from [lastIndex] on: the leftmost match, whose end is the next
    [lastIndex]; [None] stands for [null]. *)
Fixpoint exec (re : regex) (s : string) : option (string * string) :=
  match matchAt re s with
  | Some r => Some r
  | None =>
      match s with
      | String _ t => exec re t
      | EmptyString => None
      end
  end.

(** [while ((match = re.exec(text)) !== null) out.push(f(match[1]))], run
    for at most [fuel] iterations; [None] when the fuel does not suffice. *)
Fixpoint execLoop {B} (fuel : nat) (re : regex) (f : string -> B) (s : string)
  (out : list B) : option (list B) :=
  match fuel with
  | O => None
  | S fuel' =>
      match exec re s with
      | None => Some out
      | Some (m1, rest) => execLoop fuel' re f rest (out ++ [f m1])%list
      end
  end.

(** *** Arrays *)

(** [arr.forEach((x, index) => ...)] threading the state the callback
    updates. *)
Fixpoint forEach {X S} (f : X -> nat -> S -> S) (arr : list X) (index : nat)
  (st : S) : S :=
  match arr with
  | [] => st
  | x :: arr' => forEach f arr' (index + 1) (f x index st)
  end.

(** [for (let i = i0; i < i0 + n; i++) body], the body possibly throwing. *)
Fixpoint forLoop {S} (n : nat) (i : nat) (body : nat -> S -> option S)
  (st : S) : option S :=
  match n with
  | O => Some st
  | S n' =>
      match body i st with
      | Some st' => forLoop n' (i + 1) body st'
      | None => None
      end
  end.

Definition LF : string := String (ascii_of_nat 10) "".

(** *** Streams

    The output of a process spawned with [stdout: "pipe"] or
    [stderr: "pipe"] is a [ReadableStream].  Such a stream has no method
    [arrayBuffer]: the call [stream.arrayBuffer()] throws a TypeError
    whatever the stream holds.  [None] stands for the exception. *)
Definition arrayBuffer (stream : string) : option string := None.

(** [new TextDecoder().decode(buffer)]. *)
Definition decode (buffer : string) : string := buffer.

End JS.

(* ===================================================================== *)
(** ** The program *)
(* ===================================================================== *)

(** A chapter marker, [{ start: number; title: string }]. *)
Record Chapter := { start : JS.number; title : string }.

(** What a spawned tool answers: its exit status and its decoded output
    streams. *)
Record Process := { exitCode : Z; stdout : string; stderr : string }.

(** The answers of the two tools [main] consults before it writes the
    metadata file. *)
Record World := { silenceProc : Process; ffprobeProc : Process }.

(** How [main] ends, up to the write of the metadata file (the conversion
    that follows it is left out, as are the [console.log] lines):
    - [Exited code errs]: [console.error] of [errs], then [exit(code)];
    - [Written file content]: [writeFileSync(file, content)] was reached;
    - [Thrown]: an exception was thrown (a method that does not exist was
      called, or an element read out of an array's range was
      dereferenced);
    - [Diverged]: a pattern loop made no progress. *)
Inductive outcome :=
| Exited (code : Z) (errs : list string)
| Written (file : string) (content : string)
| Thrown
| Diverged.

Definition is_dot (c : ascii) : bool := Ascii.eqb c ".".

Notation "'do' x <- e ;; k" :=
  (match e with Some x => k | None => None end)
  (at level 10, x name, e at level 99, k at level 200, only parsing).

(** *** [src/chapter-cracker.ts] *)

Module ChapterCracker.
Import JS.

(** [/silence_start:\s*(G)/g] with the group [G = \d+\.?\d*]. *)
Definition silenceStartRegex : regex :=
  {| before := [Lit "silence_start:"; Star is_space];
     group := [Plus is_digit; Opt is_dot; Star is_digit] |}.

(** [/silence_end:\s*(G)/g] with the group [G = \d+\.?\d*]. *)
Definition silenceEndRegex : regex :=
  {| before := [Lit "silence_end:"; Star is_space];
     group := [Plus is_digit; Opt is_dot; Star is_digit] |}.

(** Step 2: the two pattern loops over [silenceStderr]. *)
Definition silenceStarts (silenceStderr : string) : option (list number) :=
  execLoop (S (String.length silenceStderr)) silenceStartRegex parseFloat
    silenceStderr [].

Definition silenceEnds (silenceStderr : string) : option (list number) :=
  execLoop (S (String.length silenceStderr)) silenceEndRegex parseFloat
    silenceStderr [].

(** Step 3: the duration is read from the probe's output, unchecked. *)
Definition totalDuration (probeStdout : string) : number :=
  parseFloat (trim probeStdout).

(** Step 4: a first chapter at 0, then one chapter per silence end. *)
Definition chapters (silenceEnds : list number) : list Chapter :=
  forEach
    (fun time index chapters =>
       (chapters ++
        [{| start := time;
            title := "Chapter " ++ string_of_nat (index + 2) |}])%list)
    silenceEnds 0%nat
    [{| start := of_Z 0; title := "Chapter 1" |}].

(** Step 5: the body of the loop that builds the ffmetadata text. *)
Definition metadata_body (chapters : list Chapter) (totalDuration : number)
  (i : nat) (metadata : string) : option string :=
  let metadata := metadata ++ "[CHAPTER]" ++ LF ++ "TIMEBASE=1/1000" ++ LF in
  do ci <- nth_error chapters i ;;
  let startMs := floor (mul (start ci) (of_Z 1000)) in
  let metadata := metadata ++ "START=" ++ toString startMs ++ LF in
  do endMs <-
    (if (i <? List.length chapters - 1)%nat then
       do cn <- nth_error chapters (i + 1) ;;
       Some (sub (floor (mul (start cn) (of_Z 1000))) (of_Z 1))
     else Some (floor (mul totalDuration (of_Z 1000)))) ;;
  let metadata := metadata ++ "END=" ++ toString endMs ++ LF in
  Some (metadata ++ "title=" ++ title ci ++ LF ++ LF).

Definition metadata (chapters : list Chapter) (totalDuration : number)
  : option string :=
  forLoop (List.length chapters) 0%nat (metadata_body chapters totalDuration)
    (";FFMETADATA1" ++ LF).

(** [main], up to the write of the metadata file: the outputs of the two
    tools are read with [arrayBuffer] (lines 81, 82 and 116) before they
    are decoded. *)
Definition main (w : World) : outcome :=
  match arrayBuffer (stdout (silenceProc w)) with
  | None => Thrown
  | Some silenceStdoutBuffer =>
  match arrayBuffer (stderr (silenceProc w)) with
  | None => Thrown
  | Some silenceStderrBuffer =>
  let silenceStderr := decode silenceStderrBuffer in
  match silenceStarts silenceStderr, silenceEnds silenceStderr with
  | Some _, Some silenceEnds =>
      match arrayBuffer (stdout (ffprobeProc w)) with
      | None => Thrown
      | Some probeStdoutBuffer =>
          let totalDuration := totalDuration (decode probeStdoutBuffer) in
          let chapters := chapters silenceEnds in
          match metadata chapters totalDuration with
          | Some metadata => Written "chapters.txt" metadata
          | None => Thrown
          end
      end
  | _, _ => Diverged
  end
  end
  end.

End ChapterCracker.

(** *** [src/unnamed/part_000] *)

Module Part000.
Import JS.

Definition is_digit_or_dot (c : ascii) : bool := is_digit c || is_dot c.

(** [/silence_start:\s*(G)/g] with the group [G = [\d.]+]. *)
Definition silenceStartRegex : regex :=
  {| before := [Lit "silence_start:"; Star is_space];
     group := [Plus is_digit_or_dot] |}.

(** [/silence_end:\s*(G)/g] with the group [G = [\d.]+]. *)
Definition silenceEndRegex : regex :=
  {| before := [Lit "silence_end:"; Star is_space];
     group := [Plus is_digit_or_dot] |}.

(** 2.2: the two pattern loops over [silenceStderr]. *)
Definition silenceStarts (silenceStderr : string) : option (list number) :=
  execLoop (S (String.length silenceStderr)) silenceStartRegex parseFloat
    silenceStderr [].

Definition silenceEnds (silenceStderr : string) : option (list number) :=
  execLoop (S (String.length silenceStderr)) silenceEndRegex parseFloat
    silenceStderr [].

(** 2.3: the duration read from the probe's output. *)
Definition totalDuration (probeStdout : string) : number :=
  parseFloat (trim probeStdout).

(** 2.4: a first chapter at 0, then one chapter per silence end. *)
Definition chapters (silenceEnds : list number) : list Chapter :=
  forEach
    (fun time index chapters =>
       (chapters ++
        [{| start := time;
            title := "Chapter " ++ string_of_nat (index + 2) |}])%list)
    silenceEnds 0%nat
    [{| start := of_Z 0; title := "Chapter 1" |}].

(** 2.5: the body of the loop that builds the ffmetadata text. *)
Definition metadata_body (chapters : list Chapter) (totalDuration : number)
  (i : nat) (metadata : string) : option string :=
  do ci <- nth_error chapters i ;;
  let startMs := floor (mul (start ci) (of_Z 1000)) in
  do endMs <-
    (if (i <? List.length chapters - 1)%nat then
       do cn <- nth_error chapters (i + 1) ;;
       Some (sub (floor (mul (start cn) (of_Z 1000))) (of_Z 1))
     else Some (floor (mul totalDuration (of_Z 1000)))) ;;
  let metadata := metadata ++ "[CHAPTER]" ++ LF in
  let metadata := metadata ++ "TIMEBASE=1/1000" ++ LF in
  let metadata := metadata ++ "START=" ++ toString startMs ++ LF in
  let metadata := metadata ++ "END=" ++ toString endMs ++ LF in
  Some (metadata ++ "title=" ++ title ci ++ LF ++ LF).

Definition metadata (chapters : list Chapter) (totalDuration : number)
  : option string :=
  forLoop (List.length chapters) 0%nat (metadata_body chapters totalDuration)
    (";FFMETADATA1" ++ LF).

Definition main (w : World) : outcome :=
  let silenceStderr := stderr (silenceProc w) in
  if negb (exitCode (silenceProc w) =? 0) then
    Exited 1 ["ffmpeg silencedetect failed. Output:"; silenceStderr]
  else
    match silenceStarts silenceStderr, silenceEnds silenceStderr with
    | Some _, Some silenceEnds =>
        if negb (exitCode (ffprobeProc w) =? 0) then
          Exited 1 ["ffprobe failed to retrieve duration.";
                    stderr (ffprobeProc w)]
        else
          let totalDuration := totalDuration (stdout (ffprobeProc w)) in
          if isNaN totalDuration then
            Exited 1 ["Could not parse the total duration from ffprobe output."]
          else
            let chapters := chapters silenceEnds in
            match metadata chapters totalDuration with
            | Some metadata => Written "chapters.txt" metadata
            | None => Thrown
            end
    | _, _ => Diverged
    end.

End Part000.

(* ===================================================================== *)
(** ** The command line and the conversion *)
(* ===================================================================== *)

(** The statements around the logic layer: the top-level code of each file
    that reads the command line, and the whole of its [main], which spawns
    the three tools, writes the metadata file and judges the conversion. *)

Module Runtime.
Import JS.

(** *** Values *)

(** A JS value, as far as the scripts hold one. *)
Inductive value :=
| Undefined
| Num (n : number)
| Str (s : string)
| Obj (props : properties)
with properties :=
| NoProperty
| Property (key : string) (v : value) (rest : properties).

(** [args[i]]: [undefined] out of the array's range. *)
Definition index (args : list string) (i : nat) : value :=
  match nth_error args i with
  | Some s => Str s
  | None => Undefined
  end.

(** ToString, as a template literal and [parseFloat] apply it; an object
    is an ordinary one. *)
Definition ToString (v : value) : string :=
  match v with
  | Undefined => "undefined"
  | Num n => toString n
  | Str s => s
  | Obj _ => "[object Object]"
  end.

(** The own property [key] of an ordinary object. *)
Fixpoint lookup (key : string) (props : properties) : value :=
  match props with
  | NoProperty => Undefined
  | Property k v props' => if String.eqb k key then v else lookup key props'
  end.

(** [v.code]: [None] stands for the TypeError thrown on [undefined];
    numbers and strings have no such property. *)
Definition code_of (v : value) : option value :=
  match v with
  | Undefined => None
  | Num _ | Str _ => Some Undefined
  | Obj props => Some (lookup "code" props)
  end.

(** [v === n] for a number [n]. *)
Definition strictly_equals (v : value) (n : number) : bool :=
  match v with
  | Num m => SFeqb m n
  | _ => false
  end.

(** [s.startsWith(p)]. *)
Definition startsWith (s p : string) : bool := String.prefix p s.

Definition DQ : string := String (ascii_of_nat 34) "".

(** *** Patterns anchored at the end of the text *)

(** One character of a class, or [c+]. *)
Inductive item :=
| Char (p : ascii -> bool)
| Many (p : ascii -> bool).

Fixpoint matchItems (r : list item) (k : string -> option unit) (s : string)
  : option unit :=
  match r with
  | [] => k s
  | Char p :: r' =>
      match s with
      | String c t => if p c then matchItems r' k t else None
      | EmptyString => None
      end
  | Many p :: r' =>
      match s with
      | String c t => if p c then greedy p (matchItems r' k) t else None
      | EmptyString => None
      end
  end.

(** The assertion [$] of a pattern without the [m] flag. *)
Definition atEnd (s : string) : option unit :=
  match s with
  | EmptyString => Some tt
  | String _ _ => None
  end.

(** [s.replace(/r$/, by)] for a pattern [r] without the [g] flag and a
    replacement text without [$]: the leftmost match, which runs to the end
    of [s], is replaced; [s] is returned unchanged when there is none. *)
Fixpoint replace (r : list item) (by_ : string) (s : string) : string :=
  match matchItems r atEnd s with
  | Some _ => by_
  | None =>
      match s with
      | String c t => String c (replace r by_ t)
      | EmptyString => s
      end
  end.

(** Canonicalize of a pattern with the [i] flag, on the code points below
    256: the upper case letter of a lower case one.  The two lower case
    letters whose upper case lies above 255 are left as they are, which
    keeps them apart from every other code point, as their upper case
    does. *)
Definition canonicalize (c : ascii) : ascii :=
  let n := nat_of_ascii c in
  if ((97 <=? n) && (n <=? 122)
      || (224 <=? n) && (n <=? 254) && negb (n =? 247))%nat
  then ascii_of_nat (n - 32)
  else c.

Definition ignoreCase (a : ascii) (c : ascii) : bool :=
  Ascii.eqb (canonicalize c) (canonicalize a).

(** *** Effects *)

(** What the script does to the outside: [console.error(args)], the spawn
    of a tool, [writeFileSync(file, content)], and the
    [console.error(label, err)] of the handler of a rejected [main]. *)
Inductive event :=
| ConsoleError (args : list string)
| Spawn (cmd : list string)
| WriteFile (file : string) (content : string)
| Caught (label : string).

(** How a run ends: [exit(code)], the normal end of the script, an
    exception on its way to the handler, or a loop that does not end. *)
Inductive ending :=
| Exit (code : Z)
| Return
| Throw
| Diverge.

(** The outside: which files exist, what a spawned tool answers, and what
    [await proc.exited] resolves to. *)
Record Host := {
  existsSync : string -> bool;
  answer : list string -> Process;
  exited : list string -> value
}.

(** A computation: the events so far, and a value or the end of the run. *)
Definition IO (A : Type) : Type := (list event * (A + ending))%type.

Definition ret {A} (a : A) : IO A := ([], inl a).

Definition bind {A B} (m : IO A) (k : A -> IO B) : IO B :=
  match m with
  | (t, inl a) => let '(t', r) := k a in ((t ++ t')%list, r)
  | (t, inr e) => (t, inr e)
  end.

Definition emit (e : event) : IO unit := ([e], inl tt).

Definition stop {A} (e : ending) : IO A := ([], inr e).

(** [exit(code)] of [process]. *)
Definition exit {A} (code : Z) : IO A := stop (Exit code).

(** A pattern loop, which may not end, and a step that may throw. *)
Definition looping {A} (o : option A) : IO A :=
  match o with Some a => ret a | None => stop Diverge end.

Definition throwing {A} (o : option A) : IO A :=
  match o with Some a => ret a | None => stop Throw end.

(** [main().catch(err => { console.error(label, err); exit(1); })]. *)
Definition catch (label : string) (m : IO unit) : IO unit :=
  match m with
  | (t, inr Throw) => ((t ++ [Caught label])%list, inr (Exit 1))
  | _ => m
  end.

(** The run of the whole script. *)
Definition finish (m : IO unit) : list event * ending :=
  match m with
  | (t, inl _) => (t, Return)
  | (t, inr e) => (t, e)
  end.

(** The variables the command line sets. *)
Record Config := {
  inputFile : string;
  noiseThreshold : value;
  silenceDuration : number
}.

End Runtime.

Notation "'io' x <- e ;; k" := (Runtime.bind e (fun x => k))
  (at level 10, x name, e at level 99, k at level 200, only parsing).

(** *** The whole of [src/chapter-cracker.ts] *)

Module ChapterCrackerScript.
Import JS Runtime.

Definition usage : string :=
  "Usage: bun audiobook.ts <input.mp3> [--noise -30dB] [--duration 2]".

(** [let inputFile = ""; let noiseThreshold = "-30dB";
    let silenceDuration = 2;] *)
Definition defaults : Config :=
  {| inputFile := ""; noiseThreshold := Str "-30dB";
     silenceDuration := of_Z 2 |}.

(** The loop over [args], from the index [i] on, run for at most [fuel]
    iterations. *)
Fixpoint parseArgs (fuel : nat) (args : list string) (i : nat) (c : Config)
  : IO Config :=
  match fuel with
  | O => stop Diverge
  | S fuel' =>
      match nth_error args i with
      | None => ret c
      | Some arg =>
          if startsWith arg "--" then
            if String.eqb arg "--noise" then
              parseArgs fuel' args (i + 1 + 1)
                {| inputFile := inputFile c;
                   noiseThreshold := index args (i + 1);
                   silenceDuration := silenceDuration c |}
            else if String.eqb arg "--duration" then
              parseArgs fuel' args (i + 1 + 1)
                {| inputFile := inputFile c;
                   noiseThreshold := noiseThreshold c;
                   silenceDuration :=
                     parseFloat (ToString (index args (i + 1))) |}
            else
              io _ <- emit (ConsoleError ["Unknown option:"; arg]) ;;
              exit 1
          else
            parseArgs fuel' args (i + 1)
              (if String.eqb (inputFile c) "" then
                 {| inputFile := arg;
                    noiseThreshold := noiseThreshold c;
                    silenceDuration := silenceDuration c |}
               else c)
      end
  end.

(** The loop as the script runs it: over all of [args], from the
    defaults. *)
Definition commandLine (args : list string) : IO Config :=
  parseArgs (S (List.length args)) args 0 defaults.

Definition silenceCmd (c : Config) : list string :=
  ["ffmpeg"; "-i"; inputFile c; "-af";
   "silencedetect=noise=" ++ ToString (noiseThreshold c) ++ ":d="
     ++ toString (silenceDuration c);
   "-f"; "null"; "-"].

Definition ffprobeCmd (c : Config) : list string :=
  ["ffprobe"; "-v"; "error"; "-show_entries"; "format=duration"; "-of";
   "default=noprint_wrappers=1:nokey=1"; inputFile c].

Definition metadataFile : string := "chapters.txt".

(** [/\.mp3$/i]. *)
Definition mp3Regex : list item :=
  [Char is_dot; Char (ignoreCase "m"); Char (ignoreCase "p");
   Char (ignoreCase "3")].

Definition outputFile (c : Config) : string :=
  replace mp3Regex ".m4b" (inputFile c).

Definition convertCmd (c : Config) : list string :=
  ["ffmpeg"; "-i"; inputFile c; "-i"; metadataFile; "-map_metadata"; "1";
   "-c"; "copy"; outputFile c].

(** [async function main()], with what follows the write of the metadata
    file. *)
Definition main (c : Config) (h : Host) : IO unit :=
  io _ <- emit (Spawn (silenceCmd c)) ;;
  let silenceProc := answer h (silenceCmd c) in
  io silenceStdoutBuffer <- throwing (arrayBuffer (stdout silenceProc)) ;;
  io silenceStderrBuffer <- throwing (arrayBuffer (stderr silenceProc)) ;;
  let silenceStderr := decode silenceStderrBuffer in
  io _ <- looping (ChapterCracker.silenceStarts silenceStderr) ;;
  io silenceEnds <- looping (ChapterCracker.silenceEnds silenceStderr) ;;
  io _ <- emit (Spawn (ffprobeCmd c)) ;;
  let ffprobeProc := answer h (ffprobeCmd c) in
  io probeStdoutBuffer <- throwing (arrayBuffer (stdout ffprobeProc)) ;;
  let totalDuration :=
    ChapterCracker.totalDuration (decode probeStdoutBuffer) in
  let chapters := ChapterCracker.chapters silenceEnds in
  io metadata <- throwing (ChapterCracker.metadata chapters totalDuration) ;;
  io _ <- emit (WriteFile metadataFile metadata) ;;
  io _ <- emit (Spawn (convertCmd c)) ;;
  let convertResult := exited h (convertCmd c) in
  io code <- throwing (code_of convertResult) ;;
  if strictly_equals code (of_Z 0) then ret tt
  else
    io _ <- emit (ConsoleError ["Error during conversion."]) ;;
    exit 1.

(** The script: [argv] is [Bun.argv]. *)
Definition script (argv : list string) (h : Host) : list event * ending :=
  let args := skipn 2 argv in
  finish (
    io _ <- (if (List.length args =? 0)%nat then
           io _ <- emit (ConsoleError [usage]) ;; exit 1
         else ret tt) ;;
    io c <- commandLine args ;;
    io _ <- (if String.eqb (inputFile c) "" then
           io _ <- emit (ConsoleError ["Please specify an input MP3 file."]) ;;
           exit 1
         else ret tt) ;;
    io _ <- (if negb (existsSync h (inputFile c)) then
           io _ <- emit (ConsoleError
                       ["Input file " ++ DQ ++ inputFile c ++ DQ
                        ++ " does not exist."]) ;;
           exit 1
         else ret tt) ;;
    catch "Error:" (main c h)).

End ChapterCrackerScript.

(** *** The whole of [src/unnamed/part_000] *)

Module Part000Script.
Import JS Runtime.

Definition usage : string :=
  "Usage: bun audiobook.ts <input-file> [--noise -30dB] [--duration 2]".

Definition defaults : Config :=
  {| inputFile := ""; noiseThreshold := Str "-30dB";
     silenceDuration := of_Z 2 |}.

(** The loop over [args], from the index [i] on, run for at most [fuel]
    iterations; the [switch] compares with [===]. *)
Fixpoint parseArgs (fuel : nat) (args : list string) (i : nat) (c : Config)
  : IO Config :=
  match fuel with
  | O => stop Diverge
  | S fuel' =>
      match nth_error args i with
      | None => ret c
      | Some arg =>
          if startsWith arg "--" then
            if String.eqb arg "--noise" then
              parseArgs fuel' args (i + 1 + 1)
                {| inputFile := inputFile c;
                   noiseThreshold := index args (i + 1);
                   silenceDuration := silenceDuration c |}
            else if String.eqb arg "--duration" then
              parseArgs fuel' args (i + 1 + 1)
                {| inputFile := inputFile c;
                   noiseThreshold := noiseThreshold c;
                   silenceDuration :=
                     parseFloat (ToString (index args (i + 1))) |}
            else
              io _ <- emit (ConsoleError ["Unknown option:"; arg]) ;;
              exit 1
          else
            parseArgs fuel' args (i + 1)
              (if String.eqb (inputFile c) "" then
                 {| inputFile := arg;
                    noiseThreshold := noiseThreshold c;
                    silenceDuration := silenceDuration c |}
               else c)
      end
  end.

(** The loop as the script runs it: over all of [args], from the
    defaults. *)
Definition commandLine (args : list string) : IO Config :=
  parseArgs (S (List.length args)) args 0 defaults.

Definition silenceCmd (c : Config) : list string :=
  ["ffmpeg"; "-i"; inputFile c; "-af";
   "silencedetect=n=" ++ ToString (noiseThreshold c) ++ ":d="
     ++ toString (silenceDuration c);
   "-f"; "null"; "-"].

Definition ffprobeCmd (c : Config) : list string :=
  ["ffprobe"; "-v"; "error"; "-show_entries"; "format=duration"; "-of";
   "default=noprint_wrappers=1:nokey=1"; inputFile c].

Definition metadataFile : string := "chapters.txt".

(** [/\.[^.]+$/]. *)
Definition extensionRegex : list item :=
  [Char is_dot; Many (fun c => negb (is_dot c))].

Definition outputFile (c : Config) : string :=
  replace extensionRegex "" (inputFile c) ++ ".m4b".

Definition convertCmd (c : Config) : list string :=
  ["ffmpeg"; "-y"; "-i"; inputFile c; "-i"; metadataFile;
   "-map_metadata"; "1"; "-vn"; "-c:a"; "aac"; "-b:a"; "128k";
   outputFile c].

(** [async function main()], with what follows the write of the metadata
    file. *)
Definition main (c : Config) (h : Host) : IO unit :=
  io _ <- emit (Spawn (silenceCmd c)) ;;
  let silenceProc := answer h (silenceCmd c) in
  let silenceStderr := stderr silenceProc in
  io _ <- (if negb (exitCode silenceProc =? 0) then
              io _ <- emit (ConsoleError
                               ["ffmpeg silencedetect failed. Output:"]) ;;
              io _ <- emit (ConsoleError [silenceStderr]) ;;
              exit 1
            else ret tt) ;;
  io _ <- looping (Part000.silenceStarts silenceStderr) ;;
  io silenceEnds <- looping (Part000.silenceEnds silenceStderr) ;;
  io _ <- emit (Spawn (ffprobeCmd c)) ;;
  let ffprobeProc := answer h (ffprobeCmd c) in
  io _ <- (if negb (exitCode ffprobeProc =? 0) then
              io _ <- emit (ConsoleError
                               ["ffprobe failed to retrieve duration."]) ;;
              io _ <- emit (ConsoleError [stderr ffprobeProc]) ;;
              exit 1
            else ret tt) ;;
  let totalDuration := Part000.totalDuration (stdout ffprobeProc) in
  io _ <- (if isNaN totalDuration then
              io _ <- emit (ConsoleError
                ["Could not parse the total duration from ffprobe output."]) ;;
              exit 1
            else ret tt) ;;
  let chapters := Part000.chapters silenceEnds in
  io metadata <- throwing (Part000.metadata chapters totalDuration) ;;
  io _ <- emit (WriteFile metadataFile metadata) ;;
  io _ <- emit (Spawn (convertCmd c)) ;;
  let convertProc := answer h (convertCmd c) in
  if exitCode convertProc =? 0 then ret tt
  else
    io _ <- emit (ConsoleError
      ["Error during conversion. Please check the output above."]) ;;
    exit 1.

(** The script: [argv] is [Bun.argv]. *)
Definition script (argv : list string) (h : Host) : list event * ending :=
  let args := skipn 2 argv in
  finish (
    io _ <- (if (List.length args =? 0)%nat then
                io _ <- emit (ConsoleError [usage]) ;; exit 1
              else ret tt) ;;
    io c <- commandLine args ;;
    io _ <- (if String.eqb (inputFile c) "" then
                io _ <- emit (ConsoleError
                                 ["Please specify an input audio/video file."]) ;;
                exit 1
              else ret tt) ;;
    io _ <- (if negb (existsSync h (inputFile c)) then
                io _ <- emit (ConsoleError
                                 ["Input file " ++ DQ ++ inputFile c ++ DQ
                                  ++ " does not exist."]) ;;
                exit 1
              else ret tt) ;;
    catch "Unhandled Error:" (main c h)).

End Part000Script.

(* ===================================================================== *)
(** ** The chapter document of the specification *)
(* ===================================================================== *)

(** One record of the ChapterDocument: its two millisecond fields and its
    title. *)
Record entry := { START : JS.number; END : JS.number; entry_title : string }.

(** The text of a record: five lines and the blank line that ends it. *)
Definition record_text (e : entry) : string :=
  "[CHAPTER]" ++ JS.LF ++
  "TIMEBASE=1/1000" ++ JS.LF ++
  "START=" ++ JS.toString (START e) ++ JS.LF ++
  "END=" ++ JS.toString (END e) ++ JS.LF ++
  "title=" ++ entry_title e ++ JS.LF ++ JS.LF.

(** The document: the header line, then the records in order, nothing
    after the last one. *)
Definition document (es : list entry) : string :=
  ";FFMETADATA1" ++ JS.LF ++ String.concat "" (map record_text es).

(** Seconds to integer milliseconds, [Math.floor(t * 1000)]. *)
Definition ms (t : JS.number) : JS.number :=
  JS.floor (JS.mul t (JS.of_Z 1000)).

(** The END of the chapter at index [i]: one below the next chapter's START
    when there is a next chapter, the duration's milliseconds otherwise. *)
Definition endMs (chs : list Chapter) (D : JS.number) (i : nat) : JS.number :=
  match nth_error chs (i + 1) with
  | Some cn => JS.sub (ms (start cn)) (JS.of_Z 1)
  | None => ms D
  end.

Fixpoint entries_from (chs : list Chapter) (D : JS.number) (i : nat)
  (l : list Chapter) : list entry :=
  match l with
  | [] => []
  | c :: l' =>
      {| START := ms (start c); END := endMs chs D i; entry_title := title c |}
      :: entries_from chs D (i + 1) l'
  end.

Definition entries (chs : list Chapter) (D : JS.number) : list entry :=
  entries_from chs D 0 chs.

(** The chapter the inferencer makes of the silence end at [index]. *)
Definition chapter_of (index : nat) (time : JS.number) : Chapter :=
  {| start := time; title := "Chapter " ++ JS.string_of_nat (index + 2) |}.

Fixpoint chapters_from (index : nat) (ends : list JS.number) : list Chapter :=
  match ends with
  | [] => []
  | t :: ends' => chapter_of index t :: chapters_from (index + 1) ends'
  end.

Definition first_chapter : Chapter :=
  {| start := JS.of_Z 0; title := "Chapter 1" |}.

(* ===================================================================== *)
(** ** Vocabulary of the properties *)
(* ===================================================================== *)

(** *** Runs of characters *)

(** [s] without its longest prefix of characters of the class [p], and that
    prefix. *)
Definition after (p : ascii -> bool) (s : string) : string := snd (JS.span p s).

Definition run (p : ascii -> bool) (s : string) : string := fst (JS.span p s).

(** [s] without the dot it may begin with. *)
Definition skip_dot (s : string) : string :=
  match s with
  | String c t => if is_dot c then t else s
  | EmptyString => ""
  end.

(** What follows a field of the shape digits, optional dot, digits. *)
Definition rest_decimal (s : string) : string :=
  after JS.is_digit (skip_dot (after JS.is_digit s)).

(** [s] begins with a character of the class [p]. *)
Definition head_is (p : ascii -> bool) (s : string) : bool :=
  match s with
  | String c _ => p c
  | EmptyString => false
  end.

(** [d] is made of characters of the class [p] only. *)
Definition only (p : ascii -> bool) (d : string) : Prop := after p d = "".

(** *** The two kinds of pattern *)

(** The pattern of [src/chapter-cracker.ts] for the keyword [lit]: the
    keyword, white space, then the group digits, optional dot, digits. *)
Definition decimal_pattern (lit : string) : JS.regex :=
  {| JS.before := [JS.Lit lit; JS.Star JS.is_space];
     JS.group := [JS.Plus JS.is_digit; JS.Opt is_dot; JS.Star JS.is_digit] |}.

(** The pattern of [src/unnamed/part_000] for the keyword [lit]: the
    keyword, white space, then a group of digits and dots. *)
Definition loose_pattern (lit : string) : JS.regex :=
  {| JS.before := [JS.Lit lit; JS.Star JS.is_space];
     JS.group := [JS.Plus Part000.is_digit_or_dot] |}.

(** A continuation that only returns suffixes of what it is given. *)
Definition shrinking (k : string -> option (string * string)) : Prop :=
  forall (s : string) y,
    k s = Some y -> (String.length (snd y) <= String.length s)%nat.

(** Every match of the pattern consumes at least one character. *)
Definition advances (re : JS.regex) : Prop :=
  forall (s : string) m1 rest,
    JS.matchAt re s = Some (m1, rest) ->
    (String.length rest < String.length s)%nat.

(** *** Numbers *)

(** Zero, a finite number or infinity of sign [s]: in particular not
    [NaN]. *)
Definition signed (s : bool) (x : JS.number) : Prop :=
  match x with
  | S754_zero s' | S754_infinity s' | S754_finite s' _ _ => s' = s
  | S754_nan => False
  end.

(** The number written [d1.d2]. *)
Definition decimal_value (d1 d2 : string) : JS.number :=
  JS.of_decimal false (JS.digits_value 0 (d1 ++ d2))
    (- Z.of_nat (String.length d2)).

(** A number of the binary64 format: its mantissa and exponent are those
    of a normalised or subnormal double. *)
Definition binary64 (x : JS.number) : Prop :=
  valid_binary JS.prec JS.emax x = true.

(** [x] is the integer [a]; zero may bear either sign. *)
Definition integer (x : JS.number) (a : Z) : Prop :=
  x = JS.of_Z a \/ (x = S754_zero true /\ a = 0).

(** A time in seconds that is a number of the format and whose
    milliseconds, before they are floored, are at least 0 and below
    [2 ^ 53]. *)
Definition safe_seconds (t : JS.number) : Prop :=
  binary64 t /\
  JS.ge (JS.mul t (JS.of_Z 1000)) (JS.of_Z 0) = true /\
  JS.gt (JS.of_Z (2 ^ 53)) (JS.mul t (JS.of_Z 1000)) = true.

(** *** Fields that begin with a dot *)


(** The keyword is not empty and does not begin with a character of the
    class [p]. *)
Definition starts_outside (p : ascii -> bool) (lit : string) : Prop :=
  match lit with
  | String a _ => p a = false
  | EmptyString => False
  end.

(** *** Reports of the detection engine *)

(** The detection engine is an external tool; its report is described the
    way the specification does: diagnostic text in which the keywords
    [silence_start:] and [silence_end:] occur, each followed by a
    timestamp, the two kinds taking turns since an interval ends before
    the next one starts.  A report is a sequence of pieces: other text, or
    a keyword with the text up to the next piece. *)
Inductive piece :=
| Noise (q : string)
| SilenceStart (q : string)
| SilenceEnd (q : string).

(** The text of a piece, and of a report. *)
Definition piece_text (p : piece) : string :=
  match p with
  | Noise q => q
  | SilenceStart q => "silence_start:" ++ q
  | SilenceEnd q => "silence_end:" ++ q
  end.

Definition report_text (r : list piece) : string :=
  String.concat "" (map piece_text r).

(** One of the two texts is a prefix of the other. *)
Fixpoint compatible (lit b : string) : bool :=
  match lit, b with
  | String a l, String c b' => Ascii.eqb a c && compatible l b'
  | _, _ => true
  end.

(** [q] holds no occurrence of the keyword [lit], whole or cut short by
    the end of [q]. *)
Fixpoint quiet (lit q : string) : bool :=
  match q with
  | String c q' => negb (compatible lit q) && quiet lit q'
  | EmptyString => true
  end.

(** After optional white space, [q] goes on with a digit. *)
Definition timestamp_follows (q : string) : bool :=
  head_is JS.is_digit (JS.trimStart q).

(** Other text holds neither keyword; the text that follows a keyword
    begins with a timestamp and holds no further keyword, nor does it make
    one up with the keyword before it. *)
Definition piece_ok (p : piece) : bool :=
  match p with
  | Noise q => quiet "silence_start:" q && quiet "silence_end:" q
  | SilenceStart q =>
      quiet "silence_start:" q && quiet "silence_end:" ("silence_start:" ++ q)
      && timestamp_follows q
  | SilenceEnd q =>
      quiet "silence_end:" q && quiet "silence_start:" ("silence_end:" ++ q)
      && timestamp_follows q
  end.

(** The events take turns, [inside] telling whether a silence interval is
    open. *)
Fixpoint alternates (inside : bool) (r : list piece) : bool :=
  match r with
  | [] => true
  | Noise _ :: r' => alternates inside r'
  | SilenceStart _ :: r' => negb inside && alternates true r'
  | SilenceEnd _ :: r' => inside && alternates false r'
  end.

(** A report of the engine: well-formed pieces, the first event being a
    silence start. *)
Definition engine_report (r : list piece) : bool :=
  forallb piece_ok r && alternates false r.

(** The pieces that report a silence start, and a silence end. *)
Definition is_start (p : piece) : bool :=
  match p with SilenceStart _ => true | _ => false end.

Definition is_end (p : piece) : bool :=
  match p with SilenceEnd _ => true | _ => false end.

(** The pieces of the pattern's kind are its keyword and a timestamp, the
    others hold no occurrence of its keyword. *)
Definition sorted_out (lit : string) (re : JS.regex) (mine : piece -> bool)
  (p : piece) : Prop :=
  if mine p then
    piece_text p <> "" /\
    forall R, exists m1 rest,
      JS.exec re (piece_text p ++ R) = Some (m1, rest) /\
      JS.exec re rest = JS.exec re R
  else quiet lit (piece_text p) = true.

(** *** The core logic of each file

    Timestamp extraction, duration read, chapter inference and metadata
    encoding, composed as [main] composes them: from the report of the
    silence detection and the output of the probe to the text of the
    document. *)
Definition core_ChapterCracker (report probe : string) : option string :=
  do ends <- ChapterCracker.silenceEnds report ;;
  ChapterCracker.metadata (ChapterCracker.chapters ends)
    (ChapterCracker.totalDuration probe).

Definition core_Part000 (report probe : string) : option string :=
  do ends <- Part000.silenceEnds report ;;
  Part000.metadata (Part000.chapters ends) (Part000.totalDuration probe).

(** *** Runs used as examples *)

(** A report whose two silence ends go back in time, and a ten second
    duration. *)
Definition non_monotone_world : World :=
  {| silenceProc :=
       {| exitCode := 0; stdout := "";
          stderr := "silence_end: 5.0" ++ JS.LF ++ "silence_end: 3.0" |};
     ffprobeProc := {| exitCode := 0; stdout := "10.0"; stderr := "" |} |}.

(** Worlds in which the probe prints something other than a finite
    non-negative number. *)
Definition probe_world (probeStdout : string) : World :=
  {| silenceProc := {| exitCode := 0; stdout := ""; stderr := "" |};
     ffprobeProc := {| exitCode := 0; stdout := probeStdout; stderr := "" |} |}.

(** A run in which the silence detection fails with status 1 after it has
    reported one interval. *)
Definition failed_detection_world : World :=
  {| silenceProc :=
       {| exitCode := 1; stdout := "";
          stderr :=
            "[silencedetect @ 0x5581] silence_start: 1.5" ++ JS.LF ++
            "[silencedetect @ 0x5581] silence_end: 3.25 | silence_duration: 1.75"
            ++ JS.LF ++ "Error while decoding stream #0:0" ++ JS.LF |};
     ffprobeProc := {| exitCode := 0; stdout := "60.0"; stderr := "" |} |}.



(** A report whose silence end lies [10 ^ 18] seconds into the recording. *)
Definition far_timestamp_world : World :=
  {| silenceProc :=
       {| exitCode := 0; stdout := "";
          stderr := "silence_end: 1000000000000000000" |};
     ffprobeProc :=
       {| exitCode := 0; stdout := "2000000000000000000"; stderr := "" |} |}.

(** A report that ends inside its third silence interval. *)
Definition dangling_report : list piece :=
  [Noise "[silencedetect @ 0x5581] ";
   SilenceStart (" 8.2" ++ JS.LF ++ "[silencedetect @ 0x5581] ");
   SilenceEnd (" 10.500 | silence_duration: 2.3" ++ JS.LF ++
               "size=N/A time=00:00:30.00 bitrate=N/A speed= 512x" ++ JS.LF ++
               "[silencedetect @ 0x5581] ");
   SilenceStart (" 43" ++ JS.LF ++ "[silencedetect @ 0x5581] ");
   SilenceEnd (" 45.002 | silence_duration: 2.002" ++ JS.LF ++
               "[silencedetect @ 0x5581] ");
   SilenceStart (" 98.75" ++ JS.LF)].

(** *** The scripts *)

Module Script.
Import Runtime.

(** The extension [mp3] in any letter case. *)
Definition mp3_extension (e : string) : Prop :=
  exists a b, e = String a (String b "3") /\
              (a = "m"%char \/ a = "M"%char) /\ (b = "p"%char \/ b = "P"%char).

Definition not_dot (c : ascii) : bool := negb (is_dot c).

(** A property of the command line loop of both files. *)
Definition both_loops (P : (list string -> IO Config) -> Prop) : Prop :=
  P ChapterCrackerScript.commandLine /\ P Part000Script.commandLine.

(** The event is the spawn of a tool or the write of a file. *)
Definition acts (e : event) : bool :=
  match e with
  | Spawn _ | WriteFile _ _ => true
  | _ => false
  end.

(** The answers of the two tools consulted before the write, as the [main]
    of the logic layer takes them. *)
Definition world_Part000 (c : Config) (h : Host) : World :=
  {| silenceProc := answer h (Part000Script.silenceCmd c);
     ffprobeProc := answer h (Part000Script.ffprobeCmd c) |}.

(** The arguments of the [console.error] calls of a run, in order. *)
Definition errors (t : list event) : list string :=
  flat_map (fun e => match e with ConsoleError a => a | _ => [] end) t.

(** The shape the two scripts share: the checks before [main], which
    differ by three texts only. *)
Definition startup (usage nofile label : string)
  (commandLine : list string -> IO Config) (main : Config -> Host -> IO unit)
  (argv : list string) (h : Host) : list event * ending :=
  let args := skipn 2 argv in
  finish (
    io _ <- (if (List.length args =? 0)%nat then
               io _ <- emit (ConsoleError [usage]) ;; exit 1
             else ret tt) ;;
    io c <- commandLine args ;;
    io _ <- (if String.eqb (inputFile c) "" then
               io _ <- emit (ConsoleError [nofile]) ;; exit 1
             else ret tt) ;;
    io _ <- (if negb (existsSync h (inputFile c)) then
               io _ <- emit (ConsoleError
                               ["Input file " ++ DQ ++ inputFile c ++ DQ
                                ++ " does not exist."]) ;;
               exit 1
             else ret tt) ;;
    catch label (main c h)).

(** A host whose tools all answer as the failed silence detection of
    [failed_detection_world] does. *)
Definition failed_detection_host : Host :=
  {| existsSync := fun _ => true;
     answer := fun _ => silenceProc failed_detection_world;
     exited := fun _ => Num (JS.of_Z 1) |}.

End Script.

(* ===================================================================== *)
(** ** The ECMAScript fragment on known values *)
(* ===================================================================== *)

Example parseFloat_toString_known_values :
  map (fun s => JS.toString (JS.parseFloat s))
    ["10.500"; "0.1"; "1e21"; "123456789012345678901234567890"; "5e-324";
     "2e-324"; "1.7976931348623157e308"; "1.7976931348623159e308";
     "0.000001234"; "1e-7"; "9007199254740993"; "  -1e23x"; "."; "..5";
     "-.5e1"; "1.e3"; "1e"; "Infinityx"; "-Infinity"; "-0"; "N/A"; "";
     "1.2.3"; "0x10"; "12abc"; "123.456"; "0.00001"; "1.5e300";
     "999999999999999868928"; "9007199254740994"]
  = ["10.5"; "0.1"; "1e+21"; "1.2345678901234568e+29"; "5e-324";
     "0"; "1.7976931348623157e+308"; "Infinity";
     "0.000001234"; "1e-7"; "9007199254740992"; "-1e+23"; "NaN"; "NaN";
     "-5"; "1000"; "1"; "Infinity"; "-Infinity"; "0"; "NaN"; "NaN";
     "1.2"; "0"; "12"; "123.456"; "0.00001"; "1.5e+300";
     "999999999999999900000"; "9007199254740994"].
Proof. vm_compute. reflexivity. Qed.

Example arithmetic_known_values :
  map JS.toString
    [JS.mul (JS.parseFloat "1.001") (JS.of_Z 1000);
     JS.mul (JS.parseFloat "4.35") (JS.of_Z 100);
     JS.mul (JS.parseFloat "45.002") (JS.of_Z 1000);
     JS.floor (JS.mul (JS.parseFloat "1.001") (JS.of_Z 1000));
     JS.floor (JS.parseFloat "-0.5");
     JS.floor (JS.parseFloat "-3.5");
     JS.floor (JS.parseFloat "3.999");
     JS.sub (JS.of_Z 0) (JS.of_Z 1);
     JS.sub (JS.parseFloat "1e21") (JS.of_Z 1);
     JS.sub (JS.of_Z (2 ^ 53)) (JS.of_Z 1);
     JS.of_Z (2 ^ 53 + 1);
     JS.of_Z (2 ^ 64);
     JS.mul JS.Infinity (JS.of_Z 0);
     JS.mul (JS.parseFloat "1e306") (JS.of_Z 1000)]
  = ["1000.9999999999999"; "434.99999999999994"; "45002"; "1000"; "-1"; "-4";
     "3"; "-1"; "1e+21"; "9007199254740991"; "9007199254740992";
     "18446744073709552000"; "NaN"; "Infinity"].
Proof. vm_compute. reflexivity. Qed.

Example trim_known_values :
  map JS.trim ["100.0" ++ JS.LF; "  12.5 " ++ JS.LF ++ " "; " a b "; "   "]
  = ["100.0"; "12.5"; "a b"; ""].
Proof. vm_compute. reflexivity. Qed.

(** The digits of an index as a [nat] are those of the number it is. *)
Example index_titles_agree :
  forallb
    (fun n => String.eqb (JS.toString (JS.of_Z (Z.of_nat n)))
                (JS.string_of_nat n))
    (seq 0 2000) = true.
Proof. vm_compute. reflexivity. Qed.

(** Greedy matching gives characters back: [\d+\.?\d*] after [\s*]. *)
Example exec_known_values :
  map (JS.exec ChapterCracker.silenceEndRegex)
    ["xx silence_end: 12.5e3 | rest"; "silence_end:7"; "silence_end: .5";
     "silence_end:" ++ JS.LF ++ " 3. silence_end: 4"; "silence_start: 1"]
  = [Some ("12.5", "e3 | rest"); Some ("7", ""); None;
     Some ("3.", " silence_end: 4"); None] /\
  map (JS.exec Part000.silenceEndRegex)
    ["xx silence_end: 12.5e3 | rest"; "silence_end: .5"; "silence_end: 1.2.3x"]
  = [Some ("12.5", "e3 | rest"); Some (".5", ""); Some ("1.2.3", "x")].
Proof. vm_compute. split; reflexivity. Qed.

Example script_known_values :
  map (fun f =>
         (ChapterCrackerScript.outputFile
            {| Runtime.inputFile := f; Runtime.noiseThreshold := Runtime.Undefined;
               Runtime.silenceDuration := JS.NaN |},
          Part000Script.outputFile
            {| Runtime.inputFile := f; Runtime.noiseThreshold := Runtime.Undefined;
               Runtime.silenceDuration := JS.NaN |}))
    ["a.mp3"; "a.MP3"; "a.mp3x"; "a.mp3.mp3"; ".mp3"; "mp3"; "a"; "a.";
     "a.b."; "a.b.c"; "dir.v2/file"; "x.m4b"; ""; ".."]
  = [("a.m4b", "a.m4b"); ("a.m4b", "a.m4b"); ("a.mp3x", "a.m4b");
     ("a.mp3.m4b", "a.mp3.m4b"); (".m4b", ".m4b"); ("mp3", "mp3.m4b");
     ("a", "a.m4b"); ("a.", "a..m4b"); ("a.b.", "a.b..m4b");
     ("a.b.c", "a.b.m4b"); ("dir.v2/file", "dir.m4b"); ("x.m4b", "x.m4b");
     ("", ".m4b"); ("..", "...m4b")] /\
  map (fun args => fst (Part000Script.commandLine args))
    [["--x"; "a.mp4"]; ["--noise"; "--x"; "a.mp4"]; []]
  = [[Runtime.ConsoleError ["Unknown option:"; "--x"]]; []; []] /\
  Part000Script.script
    ["bun"; "audiobook.ts"; "--duration"; "3.50"; "a.mp4"; "--noise"]
    {| Runtime.existsSync := fun _ => true;
       Runtime.answer := fun _ =>
         {| exitCode := 0; stdout := "12.5"; stderr := "" |};
       Runtime.exited := fun _ => Runtime.Undefined |}
  = ([Runtime.Spawn
        ["ffmpeg"; "-i"; "a.mp4"; "-af"; "silencedetect=n=undefined:d=3.5";
         "-f"; "null"; "-"];
      Runtime.Spawn
        ["ffprobe"; "-v"; "error"; "-show_entries"; "format=duration"; "-of";
         "default=noprint_wrappers=1:nokey=1"; "a.mp4"];
      Runtime.WriteFile "chapters.txt"
        (";FFMETADATA1" ++ JS.LF ++ "[CHAPTER]" ++ JS.LF ++
         "TIMEBASE=1/1000" ++ JS.LF ++ "START=0" ++ JS.LF ++
         "END=12500" ++ JS.LF ++ "title=Chapter 1" ++ JS.LF ++ JS.LF);
      Runtime.Spawn
        ["ffmpeg"; "-y"; "-i"; "a.mp4"; "-i"; "chapters.txt";
         "-map_metadata"; "1"; "-vn"; "-c:a"; "aac"; "-b:a"; "128k";
         "a.m4b"]],
     Runtime.Return).
Proof. vm_compute. repeat split; reflexivity. Qed.

(* ===================================================================== *)
(** ** Strings *)
(* ===================================================================== *)

Section StringFacts.

Lemma append_assoc (a b c : string) : (a ++ b) ++ c = a ++ (b ++ c).
Proof. induction a as [|x a IH]; simpl; [reflexivity | now rewrite IH]. Qed.

Lemma append_nil_r (a : string) : a ++ "" = a.
Proof. induction a as [|x a IH]; simpl; [reflexivity | now rewrite IH]. Qed.

Lemma length_append (a b : string) :
  String.length (a ++ b) = (String.length a + String.length b)%nat.
Proof. induction a as [|x a IH]; simpl; [reflexivity | now rewrite IH]. Qed.

Lemma concat_app (l1 l2 : list string) :
  String.concat "" (l1 ++ l2) = String.concat "" l1 ++ String.concat "" l2.
Proof.
  induction l1 as [|x l1 IH]; simpl; [reflexivity|].
  destruct l1 as [|y l1].
  - simpl. destruct l2; simpl; [now rewrite append_nil_r | reflexivity].
  - simpl in *. rewrite IH. now rewrite !append_assoc.
Qed.

Lemma concat_cons (x : string) (l : list string) :
  String.concat "" (x :: l) = x ++ String.concat "" l.
Proof. destruct l; simpl; [now rewrite append_nil_r | reflexivity]. Qed.

End StringFacts.

(* ===================================================================== *)
(** ** Chapter inference *)
(* ===================================================================== *)

Section Inference.

Lemma forEach_push (ends : list JS.number) : forall index acc,
  JS.forEach
    (fun time index chapters =>
       (chapters ++
        [{| start := time;
            title := "Chapter " ++ JS.string_of_nat (index + 2) |}])%list)
    ends index acc
  = (acc ++ chapters_from index ends)%list.
Proof.
  induction ends as [|t ends IH]; intros index acc; simpl.
  - now rewrite app_nil_r.
  - rewrite IH. now rewrite <- app_assoc.
Qed.

Lemma chapters_unfold (ends : list JS.number) :
  ChapterCracker.chapters ends = first_chapter :: chapters_from 0 ends.
Proof. unfold ChapterCracker.chapters. now rewrite forEach_push. Qed.

(** Both variants infer the chapters by the same statements. *)
Lemma chapters_same (ends : list JS.number) :
  Part000.chapters ends = ChapterCracker.chapters ends.
Proof. reflexivity. Qed.

Lemma chapters_from_length (ends : list JS.number) : forall index,
  List.length (chapters_from index ends) = List.length ends.
Proof. induction ends as [|x ends IH]; intros; simpl; [reflexivity | now rewrite IH]. Qed.

Lemma chapters_from_nth (ends : list JS.number) : forall index k t,
  nth_error ends k = Some t ->
  nth_error (chapters_from index ends) k = Some (chapter_of (index + k) t).
Proof.
  induction ends as [|x ends IH]; intros index k t H.
  - destruct k; discriminate.
  - destruct k as [|k]; simpl in *.
    + injection H as ->. now rewrite Nat.add_0_r.
    + rewrite (IH _ _ _ H). f_equal. f_equal. lia.
Qed.

Lemma chapters_from_titles (ends : list JS.number) : forall index,
  map title (chapters_from index ends)
  = map (fun n => "Chapter " ++ JS.string_of_nat n)
        (seq (index + 2) (List.length ends)).
Proof.
  induction ends as [|x ends IH]; intros index; simpl; [reflexivity|].
  f_equal. rewrite IH. now replace (index + 1 + 2)%nat with (S (index + 2)) by lia.
Qed.

End Inference.

(* ===================================================================== *)
(** ** Metadata encoding *)
(* ===================================================================== *)

Section Encoding.

Variable chs : list Chapter.
Variable D : JS.number.

(** Whether a next chapter exists, as the loop tests it. *)
Lemma next_chapter_test (pre l : list Chapter) (c : Chapter) :
  chs = (pre ++ c :: l)%list ->
  (List.length pre <? List.length chs - 1)%nat
  = match l with [] => false | _ :: _ => true end.
Proof.
  intros ->. rewrite length_app. simpl. destruct l; simpl.
  - apply Nat.ltb_ge. lia.
  - apply Nat.ltb_lt. lia.
Qed.

Lemma nth_error_middle (pre l : list Chapter) (c : Chapter) :
  chs = (pre ++ c :: l)%list ->
  nth_error chs (List.length pre) = Some c /\
  nth_error chs (List.length pre + 1) = nth_error l 0.
Proof.
  intros ->. split.
  - rewrite nth_error_app2 by lia. now rewrite Nat.sub_diag.
  - rewrite nth_error_app2 by lia.
    now replace (List.length pre + 1 - List.length pre)%nat with 1%nat by lia.
Qed.

(** One turn of either loop appends the text of one record. *)
Lemma body_ChapterCracker (pre l : list Chapter) (c : Chapter) (st : string) :
  chs = (pre ++ c :: l)%list ->
  ChapterCracker.metadata_body chs D (List.length pre) st
  = Some (st ++ record_text
            {| START := ms (start c);
               END := endMs chs D (List.length pre);
               entry_title := title c |}).
Proof.
  intros E. unfold ChapterCracker.metadata_body, endMs.
  destruct (nth_error_middle _ _ _ E) as [-> ->].
  rewrite (next_chapter_test _ _ _ E).
  destruct l as [|cn l]; simpl nth_error; cbv iota beta;
    unfold record_text, ms; simpl START; simpl END; simpl entry_title;
    f_equal; now rewrite !append_assoc.
Qed.

Lemma body_Part000 (pre l : list Chapter) (c : Chapter) (st : string) :
  chs = (pre ++ c :: l)%list ->
  Part000.metadata_body chs D (List.length pre) st
  = Some (st ++ record_text
            {| START := ms (start c);
               END := endMs chs D (List.length pre);
               entry_title := title c |}).
Proof.
  intros E. unfold Part000.metadata_body, endMs.
  destruct (nth_error_middle _ _ _ E) as [-> ->].
  rewrite (next_chapter_test _ _ _ E).
  destruct l as [|cn l]; simpl nth_error; cbv iota beta;
    unfold record_text, ms; simpl START; simpl END; simpl entry_title;
    f_equal; now rewrite !append_assoc.
Qed.

(** A loop whose body appends one record per turn writes the records of the
    remaining chapters. *)
Lemma loop_records (body : nat -> string -> option string) :
  (forall pre l c st, chs = (pre ++ c :: l)%list ->
     body (List.length pre) st
     = Some (st ++ record_text
               {| START := ms (start c);
                  END := endMs chs D (List.length pre);
                  entry_title := title c |})) ->
  forall l pre st, chs = (pre ++ l)%list ->
    JS.forLoop (List.length l) (List.length pre) body st
    = Some (st ++ String.concat ""
                    (map record_text (entries_from chs D (List.length pre) l))).
Proof.
  intros Hbody. induction l as [|c l IH]; intros pre st E.
  - simpl. now rewrite append_nil_r.
  - cbn [List.length JS.forLoop]. rewrite (Hbody _ _ _ _ E).
    replace (List.length pre + 1)%nat with (List.length (pre ++ [c])%list)
      by (rewrite length_app; reflexivity).
    rewrite IH by (rewrite <- app_assoc; exact E).
    cbn [entries_from map]. rewrite concat_cons, append_assoc.
    rewrite length_app. reflexivity.
Qed.

Lemma metadata_ChapterCracker :
  ChapterCracker.metadata chs D = Some (document (entries chs D)).
Proof.
  unfold ChapterCracker.metadata, document, entries.
  rewrite (loop_records _ body_ChapterCracker chs [] _ eq_refl).
  simpl List.length. now rewrite append_assoc.
Qed.

Lemma metadata_Part000 :
  Part000.metadata chs D = Some (document (entries chs D)).
Proof.
  unfold Part000.metadata, document, entries.
  rewrite (loop_records _ body_Part000 chs [] _ eq_refl).
  simpl List.length. now rewrite append_assoc.
Qed.

End Encoding.

Section Entries.

Lemma entries_from_length chs D l : forall i,
  List.length (entries_from chs D i l) = List.length l.
Proof. induction l as [|c l IH]; intros; simpl; [reflexivity | now rewrite IH]. Qed.

Lemma entries_from_nth chs D l : forall i k c,
  nth_error l k = Some c ->
  nth_error (entries_from chs D i l) k
  = Some {| START := ms (start c); END := endMs chs D (i + k);
            entry_title := title c |}.
Proof.
  induction l as [|x l IH]; intros i k c H.
  - destruct k; discriminate.
  - destruct k as [|k]; simpl in *.
    + injection H as ->. now rewrite Nat.add_0_r.
    + rewrite (IH _ _ _ H). do 3 f_equal. lia.
Qed.

Lemma entries_nth chs D k c :
  nth_error chs k = Some c ->
  nth_error (entries chs D) k
  = Some {| START := ms (start c); END := endMs chs D k;
            entry_title := title c |}.
Proof. intros H. unfold entries. now rewrite (entries_from_nth _ _ _ 0%nat k c H). Qed.

Lemma entries_length chs D : List.length (entries chs D) = List.length chs.
Proof. apply entries_from_length. Qed.

End Entries.

(* ===================================================================== *)
(** ** Integers below 2^53 *)
(* ===================================================================== *)

Section SafeIntegers.

Lemma iter_pos_iter {A} (f : A -> A) n : forall x,
  iter_pos f n x = Pos.iter f x n.
Proof.
  induction n as [n IH|n IH|]; intros x; simpl;
    rewrite ?IH, ?Pos.iter_swap; reflexivity.
Qed.

Lemma digits2_size p : digits2_pos p = Pos.size p.
Proof. induction p; simpl; now rewrite ?IHp. Qed.

Lemma iter_xO_value p k : Zpos (Pos.iter xO p k) = Zpos p * 2 ^ Zpos k.
Proof.
  induction k as [|k IH] using Pos.peano_ind.
  - simpl. lia.
  - rewrite Pos.iter_succ, Pos2Z.inj_xO, IH, Pos2Z.inj_succ, Z.pow_succ_r by lia.
    lia.
Qed.

Lemma iter_xO_digits p k :
  digits2_pos (Pos.iter xO p k) = (digits2_pos p + k)%positive.
Proof.
  induction k as [|k IH] using Pos.peano_ind.
  - simpl. lia.
  - rewrite Pos.iter_succ. simpl. rewrite IH. lia.
Qed.

(** The mantissa of [p] brought to an exponent that is not above its
    own. *)
Lemma shl_align_value p e e' :
  e' <= e ->
  Zpos (fst (shl_align p e e')) = Zpos p * 2 ^ (e - e') /\
  snd (shl_align p e e') = e'.
Proof.
  intros H. unfold shl_align. destruct (e' - e) as [|d|d] eqn:E; try lia.
  - replace (e - e') with 0 by lia. simpl. lia.
  - replace (e - e') with (Zpos d) by lia. cbn [fst snd].
    rewrite iter_xO_value. split; reflexivity.
Qed.

Lemma shl_align_digits p e e' :
  e' <= e ->
  Zpos (digits2_pos (fst (shl_align p e e'))) = Zpos (digits2_pos p) + (e - e').
Proof.
  intros H. unfold shl_align. destruct (e' - e) as [|d|d] eqn:E; try lia.
  - cbn [fst]. lia.
  - cbn [fst]. rewrite iter_xO_digits. lia.
Qed.

Lemma shr_double p : forall n,
  iter_pos shr_1 (Pos.succ n) (Build_shr_record (Zpos p~0) false false)
  = iter_pos shr_1 n (Build_shr_record (Zpos p) false false).
Proof.
  intros n. rewrite !iter_pos_iter, Pos.iter_succ_r. reflexivity.
Qed.

(** Doubling the mantissa and lowering the exponent by one names the same
    number. *)
Lemma binary_round_double s p e :
  binary_round JS.prec JS.emax s p~0 (e - 1)
  = binary_round JS.prec JS.emax s p e.
Proof.
  unfold binary_round. cbn [digits2_pos]. rewrite Pos2Z.inj_succ.
  replace (Z.succ (Zpos (digits2_pos p)) + (e - 1))
    with (Zpos (digits2_pos p) + e) by lia.
  set (F := fexp JS.prec JS.emax (Zpos (digits2_pos p) + e)).
  unfold shl_align.
  destruct (F - e) as [|q|q] eqn:E1; destruct (F - (e - 1)) as [|q'|q'] eqn:E2;
    try lia.
  - (* F = e *)
    unfold binary_round_aux, shr_fexp. cbn [Zdigits2 digits2_pos].
    rewrite Pos2Z.inj_succ.
    replace (Z.succ (Zpos (digits2_pos p)) + (e - 1))
      with (Zpos (digits2_pos p) + e) by lia.
    fold F. rewrite E1, E2. assert (q' = 1%positive) by lia. subst q'.
    cbn [shr_record_of_loc shr iter_pos shr_1]. 
    replace (e - 1 + 1) with e by lia. reflexivity.
  - unfold binary_round_aux, shr_fexp. cbn [Zdigits2 digits2_pos].
    rewrite Pos2Z.inj_succ.
    replace (Z.succ (Zpos (digits2_pos p)) + (e - 1))
      with (Zpos (digits2_pos p) + e) by lia.
    fold F. rewrite E1, E2. assert (q' = Pos.succ q) by lia. subst q'.
    cbn [shr_record_of_loc shr]. rewrite shr_double.
    replace (e - 1 + Zpos (Pos.succ q)) with (e + Zpos q) by lia. reflexivity.
  - assert (q = 1%positive) by lia. subst q. simpl.
    replace (e - 1) with F by lia. reflexivity.
  - assert (q = Pos.succ q') by lia. subst q.
    now rewrite Pos.iter_succ_r.
Qed.

Lemma binary_round_shift s p k e :
  binary_round JS.prec JS.emax s (Pos.iter xO p k) (e - Zpos k)
  = binary_round JS.prec JS.emax s p e.
Proof.
  revert e. induction k as [|k IH] using Pos.peano_ind; intros e.
  - apply binary_round_double.
  - rewrite Pos.iter_succ. 
    replace (e - Zpos (Pos.succ k)) with ((e - Zpos k) - 1) by lia.
    rewrite binary_round_double. apply IH.
Qed.

(** [z * 2 ^ k] at exponent [e - k] is [z] at exponent [e]. *)
Lemma binary_normalize_shift z k e :
  0 <= k ->
  binary_normalize JS.prec JS.emax (z * 2 ^ k) (e - k) false
  = binary_normalize JS.prec JS.emax z e false.
Proof.
  intros Hk. destruct k as [|k|k]; try lia.
  - now rewrite Z.mul_1_r, Z.sub_0_r.
  - destruct z as [|p|p].
    + reflexivity.
    + rewrite <- iter_xO_value. apply binary_round_shift.
    + replace (Z.neg p * 2 ^ Z.pos k) with (Z.neg (Pos.iter xO p k))
        by (rewrite <- !Pos2Z.opp_pos, iter_xO_value; lia).
      apply binary_round_shift.
Qed.

Lemma size_bound p : Zpos p < 2 ^ 53 -> Zpos (digits2_pos p) <= 53.
Proof.
  intros H. rewrite digits2_size.
  pose proof (Pos.size_le p) as L.
  apply Pos2Z.pos_le_pos in L. rewrite Pos2Z.inj_pow, (Pos2Z.inj_xO p) in L.
  destruct (Z.le_gt_cases (Zpos (Pos.size p)) 53) as [G|G]; [exact G|].
  assert (2 ^ 54 <= 2 ^ Zpos (Pos.size p)) by (apply Z.pow_le_mono_r; lia).
  assert (E : 2 ^ 54 = 2 * 2 ^ 53) by reflexivity. lia.
Qed.

Lemma size_53_bounds m :
  digits2_pos m = 53%positive -> 2 ^ 52 <= Zpos m < 2 ^ 53.
Proof.
  rewrite digits2_size. intros H.
  pose proof (Pos.size_le m) as L. pose proof (Pos.size_gt m) as G.
  apply Pos2Z.pos_le_pos in L. apply Pos2Z.pos_lt_pos in G.
  rewrite Pos2Z.inj_pow, H in L, G. rewrite (Pos2Z.inj_xO m) in L.
  assert (E : 2 ^ 53 = 2 * 2 ^ 52) by reflexivity. lia.
Qed.

(** The shape of a non-zero integer below [2 ^ 53]: sign, a mantissa of 53
    bits, and the exponent that goes with it. *)
Lemma of_Z_pos_form p :
  Zpos p < 2 ^ 53 ->
  exists m e,
    (forall s, binary_round JS.prec JS.emax s p 0 = S754_finite s m e) /\
    -52 <= e <= 0 /\ Zpos m = Zpos p * 2 ^ (- e) /\
    digits2_pos m = 53%positive.
Proof.
  intros H. pose proof (size_bound p H) as Hd.
  unfold binary_round. setoid_rewrite Z.add_0_r.
  assert (F : fexp JS.prec JS.emax (Zpos (digits2_pos p))
              = Zpos (digits2_pos p) - 53).
  { unfold fexp, emin, JS.prec, JS.emax. lia. }
  rewrite F.
  set (e := Zpos (digits2_pos p) - 53).
  assert (He : -52 <= e <= 0) by (unfold e; lia).
  destruct (shl_align_value p 0 e ltac:(lia)) as [Hv He'].
  pose proof (shl_align_digits p 0 e ltac:(lia)) as Hg.
  destruct (shl_align p 0 e) as [mz ez]. cbn [fst snd] in Hv, He', Hg.
  subst ez.
  assert (Dm : digits2_pos mz = 53%positive).
  { apply Pos2Z.inj. rewrite Hg. unfold e. lia. }
  exists mz, e. split; [|split; [exact He|split; [|exact Dm]]].
  - intros s. unfold binary_round_aux, shr_fexp. cbn [Zdigits2]. rewrite Dm.
    assert (F2 : fexp JS.prec JS.emax (Zpos 53 + e) - e = 0).
    { unfold fexp, emin, JS.prec, JS.emax. lia. }
    rewrite F2. cbn [shr shr_record_of_loc shr_m loc_of_shr_record
                       round_nearest_even Zdigits2].
    rewrite Dm, F2. cbn [shr shr_m].
    assert (L : (e <=? JS.emax - JS.prec) = true)
      by (apply Z.leb_le; unfold JS.emax, JS.prec; lia).
    now rewrite L.
  - rewrite Hv. now rewrite Z.sub_0_l.
Qed.

Lemma of_Z_form z :
  z <> 0 -> Z.abs z < 2 ^ 53 ->
  exists m e,
    JS.of_Z z = S754_finite (z <? 0) m e /\
    -52 <= e <= 0 /\ Zpos m = Z.abs z * 2 ^ (- e) /\
    digits2_pos m = 53%positive.
Proof.
  intros Hz Hb. destruct z as [|p|p]; [contradiction| |];
    destruct (of_Z_pos_form p Hb) as (m & e & H & R); exists m, e;
    (split; [apply H | exact R]).
Qed.

(** An integer and its opposite have the same mantissa and exponent. *)
Lemma of_Z_opp_form p m e :
  Zpos p < 2 ^ 53 ->
  JS.of_Z (Zneg p) = S754_finite true m e ->
  JS.of_Z (Zpos p) = S754_finite false m e.
Proof.
  intros Hb Hx. destruct (of_Z_pos_form p Hb) as (m' & e' & H & _).
  change (JS.of_Z (Zneg p)) with (binary_round JS.prec JS.emax true p 0) in Hx.
  change (JS.of_Z (Zpos p)) with (binary_round JS.prec JS.emax false p 0).
  rewrite H in Hx. injection Hx as <- <-. apply H.
Qed.

Lemma cond_Zopp_abs z c : cond_Zopp (z <? 0) (Z.abs z * c) = z * c.
Proof.
  destruct z as [|p|p]; unfold Z.ltb; cbn [Z.compare cond_Zopp Z.abs]; lia.
Qed.

(** Subtracting one from an integer below [2 ^ 53] is exact. *)
Lemma sub_of_Z z :
  Z.abs z < 2 ^ 53 -> JS.sub (JS.of_Z z) (JS.of_Z 1) = JS.of_Z (z - 1).
Proof.
  intros Hb. destruct (Z.eq_dec z 0) as [->|Hz]; [reflexivity|].
  destruct (of_Z_form z Hz Hb) as (m & e & -> & He & Hm & _).
  change (JS.of_Z 1) with (S754_finite false 4503599627370496 (-52)).
  unfold JS.sub. cbn [SFsub].
  replace (Z.min e (-52)) with (-52) by lia.
  destruct (shl_align_value m e (-52) ltac:(lia)) as [Hv _].
  rewrite Hv, Hm.
  change (fst (shl_align 4503599627370496 (-52) (-52)))
    with 4503599627370496%positive.
  cbn [cond_Zopp].
  rewrite <- Z.mul_assoc, <- Z.pow_add_r by lia.
  replace (- e + (e - -52)) with 52 by lia.
  rewrite cond_Zopp_abs.
  replace (z * 2 ^ 52 - 4503599627370496) with ((z - 1) * 2 ^ 52) by lia.
  apply (binary_normalize_shift (z - 1) 52 0). lia.
Qed.

(** Comparing two mantissas of 53 bits with their exponents is comparing
    the integers they stand for. *)
Lemma compare_magnitudes A B ma ea mb eb :
  0 < A -> 0 < B ->
  -52 <= ea <= 0 -> -52 <= eb <= 0 ->
  Zpos ma = A * 2 ^ (- ea) -> Zpos mb = B * 2 ^ (- eb) ->
  digits2_pos ma = 53%positive -> digits2_pos mb = 53%positive ->
  match ea ?= eb with
  | Lt => Lt
  | Gt => Gt
  | Eq => Pos.compare_cont Eq ma mb
  end = (A ?= B).
Proof.
  intros HA HB Hea Heb Ha Hb Da Db.
  apply size_53_bounds in Da. apply size_53_bounds in Db.
  assert (E53 : 2 ^ 53 = 2 * 2 ^ 52) by reflexivity.
  destruct (Z.compare_spec ea eb) as [E|L|G].
  - subst eb. change (Pos.compare_cont Eq ma mb) with (Zpos ma ?= Zpos mb).
    rewrite Ha, Hb.
    assert (0 < 2 ^ (- ea)) by (apply Z.pow_pos_nonneg; lia).
    now rewrite <- Zmult_compare_compat_r by lia.
  - symmetry. apply Z.compare_lt_iff.
    destruct (Z.lt_ge_cases A B) as [?|Hge]; [assumption|exfalso].
    assert (P : 2 ^ (- ea) = 2 ^ (- eb) * 2 ^ (eb - ea)).
    { rewrite <- Z.pow_add_r by lia. f_equal. lia. }
    assert (Q : 2 <= 2 ^ (eb - ea)).
    { change 2 with (2 ^ 1) at 1. apply Z.pow_le_mono_r; lia. }
    assert (0 < 2 ^ (- eb)) by (apply Z.pow_pos_nonneg; lia).
    rewrite P in Ha. nia.
  - symmetry. apply Z.compare_gt_iff.
    destruct (Z.lt_ge_cases B A) as [?|Hge]; [assumption|exfalso].
    assert (P : 2 ^ (- eb) = 2 ^ (- ea) * 2 ^ (ea - eb)).
    { rewrite <- Z.pow_add_r by lia. f_equal. lia. }
    assert (Q : 2 <= 2 ^ (ea - eb)).
    { change 2 with (2 ^ 1) at 1. apply Z.pow_le_mono_r; lia. }
    assert (0 < 2 ^ (- ea)) by (apply Z.pow_pos_nonneg; lia).
    rewrite P in Hb. nia.
Qed.

Lemma compare_of_Z a b :
  Z.abs a < 2 ^ 53 -> Z.abs b < 2 ^ 53 ->
  SFcompare (JS.of_Z a) (JS.of_Z b) = Some (a ?= b).
Proof.
  intros Ha Hb.
  destruct (Z.eq_dec a 0) as [->|Na]; destruct (Z.eq_dec b 0) as [->|Nb].
  - reflexivity.
  - destruct (of_Z_form b Nb Hb) as (m & e & -> & _).
    change (JS.of_Z 0) with (S754_zero false). cbn [SFcompare].
    destruct b; try contradiction; reflexivity.
  - destruct (of_Z_form a Na Ha) as (m & e & -> & _).
    change (JS.of_Z 0) with (S754_zero false). cbn [SFcompare].
    destruct a; try contradiction; reflexivity.
  - destruct (of_Z_form a Na Ha) as (ma & ea & -> & Hea & Hma & Da).
    destruct (of_Z_form b Nb Hb) as (mb & eb & -> & Heb & Hmb & Db).
    cbn [SFcompare]. f_equal.
    pose proof (compare_magnitudes (Z.abs a) (Z.abs b) ma ea mb eb
                  ltac:(lia) ltac:(lia) Hea Heb Hma Hmb Da Db) as C.
    destruct a as [|p|p]; try contradiction;
      destruct b as [|q|q]; try contradiction; cbn [Z.ltb Z.compare Z.abs] in *.
    + exact C.
    + reflexivity.
    + reflexivity.
    + rewrite <- C. destruct (ea ?= eb); reflexivity.
Qed.

(** On integers below [2 ^ 53], [>] of JS numbers is [>] of integers. *)
Lemma gt_of_Z a b :
  Z.abs a < 2 ^ 53 -> Z.abs b < 2 ^ 53 ->
  JS.gt (JS.of_Z a) (JS.of_Z b) = (b <? a).
Proof.
  intros Ha Hb. unfold JS.gt, SFltb. rewrite (compare_of_Z b a Hb Ha).
  reflexivity.
Qed.

End SafeIntegers.

(* ===================================================================== *)
(** ** Integers as they are printed *)
(* ===================================================================== *)

Section PrintedIntegers.

Lemma string_revapp d : forall d',
  NilEmpty.string_of_uint (Decimal.revapp d d')
  = NilEmpty.string_of_uint (Decimal.rev d) ++ NilEmpty.string_of_uint d'.
Proof.
  unfold Decimal.rev.
  induction d as [|d IH|d IH|d IH|d IH|d IH|d IH|d IH|d IH|d IH|d IH];
    intros d'; [reflexivity|..];
    cbn [Decimal.revapp]; rewrite IH; symmetry; rewrite IH;
    cbn [NilEmpty.string_of_uint]; rewrite append_assoc; reflexivity.
Qed.

Lemma string_of_Z_pos p :
  JS.string_of_Z (Zpos p)
  = NilEmpty.string_of_uint (Decimal.rev (Pos.to_little_uint p)).
Proof.
  unfold JS.string_of_Z. cbn [Z.to_int NilZero.string_of_int].
  pose proof (Unsigned.to_uint_nonnil p) as H. unfold Pos.to_uint in *.
  unfold NilZero.string_of_uint.
  destruct (Decimal.rev (Pos.to_little_uint p)); [contradiction|reflexivity..].
Qed.

(** Ten times a number is written with one more zero. *)
Lemma string_of_Z_tenfold p :
  JS.string_of_Z (Zpos (10 * p)) = JS.string_of_Z (Zpos p) ++ "0".
Proof.
  rewrite !string_of_Z_pos.
  pose proof (Unsigned.to_ldec_tenfold p) as H.
  change (Unsigned.to_lu (10 * N.pos p)) with (Pos.to_little_uint (10 * p)) in H.
  change (Unsigned.to_lu (N.pos p)) with (Pos.to_little_uint p) in H.
  rewrite H. unfold Decimal.rev at 1. cbn [Decimal.revapp].
  now rewrite string_revapp.
Qed.

Lemma zeros_snoc j : JS.zeros j ++ "0" = JS.zeros (S j).
Proof. induction j as [|j IH]; [reflexivity|]. simpl in *. now rewrite IH. Qed.

Lemma string_of_Z_pow10 c j :
  0 < c ->
  JS.string_of_Z (c * 10 ^ Z.of_nat j) = JS.string_of_Z c ++ JS.zeros j.
Proof.
  intros Hc. induction j as [|j IH].
  - simpl. now rewrite Z.mul_1_r, append_nil_r.
  - rewrite Nat2Z.inj_succ, Z.pow_succ_r by lia.
    assert (P : 0 < c * 10 ^ Z.of_nat j).
    { apply Z.mul_pos_pos; [exact Hc|]. apply Z.pow_pos_nonneg; lia. }
    destruct (c * 10 ^ Z.of_nat j) as [|p|p] eqn:E; try lia.
    replace (c * (10 * 10 ^ Z.of_nat j)) with (Zpos (10 * p)) by lia.
    now rewrite string_of_Z_tenfold, IH, append_assoc, zeros_snoc.
Qed.


(** A decimal that denotes an integer below [2 ^ 66] reads as that
    integer. *)
Lemma of_decimal_integer c e :
  0 < c -> 0 <= e -> c * 10 ^ e < 2 ^ 66 ->
  JS.of_decimal false c e = JS.of_Z (c * 10 ^ e).
Proof.
  intros Hc He Hb. destruct c as [|p|p]; try lia.
  unfold JS.of_decimal. replace (0 <=? e) with true by (symmetry; now apply Z.leb_le).
  assert (Pw : 0 < 10 ^ e) by (apply Z.pow_pos_nonneg; lia).
  set (N := (p * Z.to_pos (10 ^ e))%positive).
  assert (HN : Zpos N = Zpos p * 10 ^ e).
  { unfold N. rewrite Pos2Z.inj_mul, Z2Pos.id by lia. reflexivity. }
  rewrite <- HN in *. unfold JS.of_ratio.
  change (Z.log2 1) with 0. rewrite Z.sub_0_r.
  assert (L : Z.log2 (Zpos N) < 66) by (apply Z.log2_lt_pow2; lia).
  pose proof (Z.log2_nonneg (Zpos N)) as L0.
  set (sh := 66 - Z.log2 (Zpos N)) in *.
  replace (0 <=? sh) with true by (symmetry; apply Z.leb_le; lia).
  rewrite Z.shiftl_mul_pow2 by lia.
  rewrite Z.div_1_r, Z.mod_1_r. cbn [Z.eqb cond_Zopp]. rewrite Z.add_0_r.
  replace (2 * (Zpos N * 2 ^ sh)) with (Zpos N * 2 ^ (sh + 1))
    by (rewrite Z.pow_add_r by lia; lia).
  replace (- sh - 1) with (0 - (sh + 1)) by lia.
  apply binary_normalize_shift. lia.
Qed.

Lemma shr_exponent mrs e n : e <= snd (shr mrs e n).
Proof. destruct n; simpl; lia. Qed.

Lemma shr_fexp_exponent m e l :
  e <= snd (shr_fexp JS.prec JS.emax m e l) /\
  fexp JS.prec JS.emax (Zdigits2 m + e) <= snd (shr_fexp JS.prec JS.emax m e l).
Proof.
  unfold shr_fexp. split; [apply shr_exponent|].
  set (F := fexp JS.prec JS.emax (Zdigits2 m + e)).
  destruct (F - e) as [|q|q] eqn:E; simpl; lia.
Qed.

(** The exponent of a rounded number is not below the one its magnitude
    calls for. *)
Lemma binary_round_aux_exponent sx mx ex lx s m e :
  binary_round_aux JS.prec JS.emax sx mx ex lx = S754_finite s m e ->
  fexp JS.prec JS.emax (Zdigits2 mx + ex) <= e.
Proof.
  unfold binary_round_aux.
  pose proof (shr_fexp_exponent mx ex lx) as [_ H1].
  destruct (shr_fexp JS.prec JS.emax mx ex lx) as [mrs' e'].
  cbn [snd] in H1.
  pose proof (shr_fexp_exponent
                (round_nearest_even (shr_m mrs') (loc_of_shr_record mrs')) e'
                loc_Exact) as [H2 _].
  destruct (shr_fexp JS.prec JS.emax _ e' loc_Exact) as [mrs'' e''].
  cbn [snd] in H2.
  destruct (shr_m mrs'') as [|q|q]; try discriminate.
  destruct (e'' <=? JS.emax - JS.prec); [|discriminate].
  intros H. injection H as _ _ <-. lia.
Qed.

Lemma size_large p : 2 ^ 53 <= Zpos p -> 54 <= Zpos (digits2_pos p).
Proof.
  intros H. rewrite digits2_size.
  pose proof (Pos.size_gt p) as G. apply Pos2Z.pos_lt_pos in G.
  rewrite Pos2Z.inj_pow in G.
  destruct (Z.lt_ge_cases (Zpos (Pos.size p)) 54) as [L|L]; [|exact L].
  assert (2 ^ Zpos (Pos.size p) <= 2 ^ 53) by (apply Z.pow_le_mono_r; lia).
  lia.
Qed.

(** An integer from [2 ^ 53] on has a positive exponent. *)
Lemma of_Z_large N s m e :
  2 ^ 53 <= N -> JS.of_Z N = S754_finite s m e -> 1 <= e.
Proof.
  intros HN. destruct N as [|p|p]; try lia.
  unfold JS.of_Z. cbn [binary_normalize]. unfold binary_round.
  pose proof (size_large p HN) as Hd.
  rewrite Z.add_0_r.
  set (F := fexp JS.prec JS.emax (Zpos (digits2_pos p))).
  assert (HF : 1 <= F) by (unfold F, fexp, emin, JS.prec, JS.emax; lia).
  unfold shl_align. destruct (F - 0) as [|q|q] eqn:E; try lia.
  intros H. apply binary_round_aux_exponent in H.
  cbn [Zdigits2] in H. rewrite Z.add_0_r in H. fold F in H. lia.
Qed.

Lemma of_Z_inj a b :
  Z.abs a < 2 ^ 53 -> Z.abs b < 2 ^ 53 -> JS.of_Z a = JS.of_Z b -> a = b.
Proof.
  intros Ha Hb E. pose proof (compare_of_Z a b Ha Hb) as C.
  rewrite E, (compare_of_Z b b Hb Hb), Z.compare_refl in C.
  injection C as C. symmetry in C. now apply Z.compare_eq in C.
Qed.

Lemma number_eqb_eq x y : JS.number_eqb x y = true -> x = y.
Proof.
  destruct x as [a|a| |a m e], y as [b|b| |b m' e']; simpl; try discriminate.
  - intros H. apply Bool.eqb_prop in H. now subst.
  - intros H. apply Bool.eqb_prop in H. now subst.
  - reflexivity.
  - intros H. apply andb_prop in H as [H He]. apply andb_prop in H as [Hs Hm].
    apply Bool.eqb_prop in Hs. apply Pos.eqb_eq in Hm. apply Z.eqb_eq in He.
    now subst.
Qed.

Lemma number_eqb_refl x : JS.number_eqb x x = true.
Proof.
  destruct x as [a|a| |a m e]; simpl; rewrite ?Bool.eqb_reflx; auto.
  now rewrite Pos.eqb_refl, Z.eqb_refl.
Qed.

(** Among the decimals up to twice an integer below [2 ^ 53], only the
    integer itself reads back as it. *)
Lemma reads_back_exact z c e :
  0 < z < 2 ^ 53 -> 0 <= c -> 0 <= e -> c * 10 ^ e <= 2 * z ->
  JS.reads_back (JS.of_Z z) c e = true -> c * 10 ^ e = z.
Proof.
  intros Hz Hc He Hb H. unfold JS.reads_back in H. apply number_eqb_eq in H.
  destruct (of_Z_form z ltac:(lia) ltac:(lia)) as (m & ez & Ez & Hez & _).
  destruct (Z.eq_dec c 0) as [->|Nc].
  - simpl in H. rewrite Ez in H. discriminate.
  - assert (E54 : 2 ^ 66 = 2 ^ 53 * 2 ^ 13) by reflexivity.
    rewrite of_decimal_integer in H by lia.
    destruct (Z.lt_ge_cases (c * 10 ^ e) (2 ^ 53)) as [L|G].
    + apply of_Z_inj in H; lia.
    + rewrite Ez in H. apply of_Z_large in H; [lia | exact G].
Qed.

Lemma reads_back_self z :
  0 < z < 2 ^ 53 -> JS.reads_back (JS.of_Z z) z 0 = true.
Proof.
  intros Hz. unfold JS.reads_back.
  assert (E54 : 2 ^ 66 = 2 ^ 53 * 2 ^ 13) by reflexivity.
  rewrite of_decimal_integer by lia.
  rewrite Z.mul_1_r. apply number_eqb_refl.
Qed.


Section Shortest.

Variables (z den : Z).
Hypothesis z_range : 0 < z < 2 ^ 53.
Hypothesis den_pos : 0 < den.

(** The search for the decimal exponent stops at the number of digits of
    [z]. *)
Lemma decimal_exponent_up_spec : forall fuel n,
  1 <= n -> (n = 1 \/ 10 ^ (n - 1) <= z) -> z < 10 ^ (n + Z.of_nat fuel) ->
  let r := JS.decimal_exponent_up fuel (z * den) den n in
  n <= r /\ z < 10 ^ r /\ (r = 1 \/ 10 ^ (r - 1) <= z).
Proof.
  induction fuel as [|fuel IH]; intros n Hn Hlow Hup; cbv zeta.
  - cbn [JS.decimal_exponent_up]. rewrite Z.add_0_r in Hup. lia.
  - cbn [JS.decimal_exponent_up].
    destruct (z * den <? den * 10 ^ n) eqn:E.
    + apply Z.ltb_lt in E. split; [lia|]. split; [nia | exact Hlow].
    + apply Z.ltb_ge in E.
      assert (H10 : 10 ^ n <= z) by nia.
      specialize (IH (n + 1) ltac:(lia)). cbv zeta in IH.
      destruct IH as (I1 & I2 & I3).
      * right. now replace (n + 1 - 1) with n by lia.
      * replace (n + 1 + Z.of_nat fuel) with (n + Z.of_nat (S fuel)) by lia.
        exact Hup.
      * split; [lia|]. split; assumption.
Qed.

Variable n : Z.
Hypothesis n_low : n = 1 \/ 10 ^ (n - 1) <= z.

Lemma pow10_le_z k : 1 <= k <= n -> 10 ^ (n - k) <= z.
Proof.
  intros Hk. destruct n_low as [->|H].
  - replace (1 - k) with 0 by lia. simpl. lia.
  - apply Z.le_trans with (10 ^ (n - 1)); [|exact H].
    apply Z.pow_le_mono_r; lia.
Qed.

Lemma scale10_quotient k :
  1 <= k <= n ->
  let '(a, b) := JS.scale10 (z * den) den (k - n) in
  0 < b /\ a / b = z / 10 ^ (n - k) /\ (k = n -> a mod b = 0).
Proof.
  intros Hk. unfold JS.scale10.
  destruct (0 <=? k - n) eqn:E.
  - apply Z.leb_le in E. assert (k = n) by lia. subst k.
    replace (n - n) with 0 by lia. cbn [Z.pow]. rewrite Z.mul_1_r, Z.div_1_r.
    split; [exact den_pos|]. split.
    + apply Z.div_mul. lia.
    + intros _. apply Z.mod_mul. lia.
  - apply Z.leb_gt in E.
    assert (P : 0 < 10 ^ (- (k - n))) by (apply Z.pow_pos_nonneg; lia).
    split; [nia|]. split; [|lia].
    replace (- (k - n)) with (n - k) by lia.
    rewrite (Z.mul_comm z den), Z.div_mul_cancel_l; lia.
Qed.

(** A candidate that reads back is exact. *)
Lemma candidate_exact k c :
  1 <= k <= n ->
  JS.candidate (JS.of_Z z) (z * den) den n k = Some c ->
  c * 10 ^ (n - k) = z.
Proof.
  intros Hk. unfold JS.candidate.
  pose proof (scale10_quotient k Hk) as Q.
  destruct (JS.scale10 (z * den) den (k - n)) as [a b].
  destruct Q as (Hb & Hq & _). cbv zeta. rewrite Hq.
  pose proof (pow10_le_z k Hk) as P.
  assert (P0 : 0 < 10 ^ (n - k)) by (apply Z.pow_pos_nonneg; lia).
  set (lo := z / 10 ^ (n - k)).
  assert (L0 : 0 <= lo) by (apply Z.div_pos; lia).
  assert (L1 : lo * 10 ^ (n - k) <= z)
    by (rewrite Z.mul_comm; apply Z.mul_div_le; lia).
  assert (R : forall c', c' = lo \/ c' = lo + 1 ->
                JS.reads_back (JS.of_Z z) c' (n - k) = true ->
                c' * 10 ^ (n - k) = z).
  { intros c' Hc'. apply reads_back_exact; try lia;
      destruct Hc' as [->| ->]; nia. }
  destruct (match 2 * (a mod b) ?= b with
            | Eq => Z.even lo | Lt => true | Gt => false end);
    cbv iota beta.
  - destruct (JS.reads_back (JS.of_Z z) lo (n - k)) eqn:E1.
    + intros H. injection H as <-. apply R; auto.
    + destruct (JS.reads_back (JS.of_Z z) (lo + 1) (n - k)) eqn:E2;
        [|discriminate].
      intros H. injection H as <-. apply R; auto.
  - destruct (JS.reads_back (JS.of_Z z) (lo + 1) (n - k)) eqn:E1.
    + intros H. injection H as <-. apply R; auto.
    + destruct (JS.reads_back (JS.of_Z z) lo (n - k)) eqn:E2;
        [|discriminate].
      intros H. injection H as <-. apply R; auto.
Qed.

(** With as many digits as [z] has, [z] itself is the candidate. *)
Lemma candidate_last :
  1 <= n -> JS.candidate (JS.of_Z z) (z * den) den n n <> None.
Proof.
  intros Hn. unfold JS.candidate.
  pose proof (scale10_quotient n ltac:(lia)) as Q.
  destruct (JS.scale10 (z * den) den (n - n)) as [a b].
  destruct Q as (Hb & Hq & Hm). cbv zeta. rewrite Hq, (Hm eq_refl).
  replace (n - n) with 0 by lia. cbn [Z.pow]. rewrite Z.div_1_r.
  replace (2 * 0 ?= b) with Lt by (symmetry; apply Z.compare_lt_iff; lia).
  cbv iota beta. now rewrite (reads_back_self z z_range).
Qed.

Lemma shortest_exact : forall fuel k c k',
  1 <= k <= n -> n - k < Z.of_nat fuel ->
  JS.shortest fuel (JS.of_Z z) (z * den) den n k = (c, k') ->
  k <= k' <= n /\ c * 10 ^ (n - k') = z.
Proof.
  induction fuel as [|fuel IH]; intros k c k' Hk Hf; [simpl in Hf; lia|].
  cbn [JS.shortest].
  destruct (JS.candidate (JS.of_Z z) (z * den) den n k) as [c0|] eqn:E.
  - intros H. injection H as <- <-. split; [lia|]. now apply candidate_exact.
  - assert (Hne : k <> n).
    { intros ->. now apply candidate_last in E; [|lia]. }
    intros Hs. apply IH in Hs; lia.
Qed.

End Shortest.


Lemma pow10_16 : 2 ^ 53 < 10 ^ 16.
Proof. reflexivity. Qed.

(** The digits of a positive safe integer are its decimal numeral. *)
Lemma toString_pos_integer z m e :
  0 < z < 2 ^ 53 ->
  JS.of_Z z = S754_finite false m e ->
  -52 <= e <= 0 -> Zpos m = z * 2 ^ (- e) ->
  JS.toString_pos m e = JS.string_of_Z z.
Proof.
  intros Hz Hx He Hm. unfold JS.toString_pos.
  set (den := 2 ^ (- e)) in *.
  assert (Hden : 0 < den) by (apply Z.pow_pos_nonneg; lia).
  assert (Hnd : (if 0 <=? e then (Z.pos m * 2 ^ e, 1)
                 else (Z.pos m, den)) = (z * den, den)).
  { destruct (0 <=? e) eqn:E.
    - apply Z.leb_le in E. assert (e = 0) by lia. subst e den.
      rewrite Hm. cbn [Z.opp Z.pow]. f_equal. lia.
    - now rewrite Hm. }
  rewrite Hnd. clear Hnd.
  unfold JS.decimal_exponent.
  replace (den <=? z * den) with true by (symmetry; apply Z.leb_le; nia).
  pose proof (decimal_exponent_up_spec z den Hz Hden 400 1 ltac:(lia)
                (or_introl eq_refl)) as U.
  cbv zeta in U.
  destruct U as (U1 & U2 & U3).
  { apply Z.lt_trans with (2 ^ 53); [lia|]. reflexivity. }
  set (n := JS.decimal_exponent_up 400 (z * den) den 1) in *.
  assert (Un : n <= 16).
  { destruct U3 as [->|U3]; [lia|].
    destruct (Z.le_gt_cases n 16) as [|G]; [assumption|exfalso].
    assert (10 ^ 16 <= 10 ^ (n - 1)) by (apply Z.pow_le_mono_r; lia).
    pose proof pow10_16. lia. }
  rewrite <- Hx.
  destruct (JS.shortest 17 (JS.of_Z z) (z * den) den n 1) as [c k] eqn:Es.
  destruct (shortest_exact z den Hz Hden n U3 17 1 c k ltac:(lia)
              ltac:(simpl; lia) Es) as (Hk & Hc).
  assert (P0 : 0 < 10 ^ (n - k)) by (apply Z.pow_pos_nonneg; lia).
  assert (Hsplit : 10 ^ n = 10 ^ k * 10 ^ (n - k)).
  { rewrite <- Z.pow_add_r by lia. f_equal. lia. }
  assert (Hck : c < 10 ^ k) by nia.
  replace (c =? 10 ^ k) with false by (symmetry; apply Z.eqb_neq; lia).
  unfold JS.format_digits.
  replace (k <=? n) with true by (symmetry; apply Z.leb_le; lia).
  replace (n <=? 21) with true by (symmetry; apply Z.leb_le; lia).
  cbn [andb].
  rewrite <- string_of_Z_pow10 by nia.
  rewrite Z2Nat.id by lia. now rewrite Hc.
Qed.

(** A safe integer is printed as its decimal numeral. *)
Lemma toString_of_Z z :
  Z.abs z < 2 ^ 53 -> JS.toString (JS.of_Z z) = JS.string_of_Z z.
Proof.
  intros Hb. destruct (Z.eq_dec z 0) as [->|Hz]; [reflexivity|].
  destruct (of_Z_form z Hz Hb) as (m & e & Hx & He & Hm & _).
  rewrite Hx. cbn [JS.toString].
  destruct z as [|p|p]; [contradiction| |].
  - change (Z.pos p <? 0) with false in *. cbn [Z.abs] in *.
    change ("" ++ JS.toString_pos m e) with (JS.toString_pos m e).
    apply toString_pos_integer; try assumption. lia.
  - change (Z.neg p <? 0) with true in *. cbn [Z.abs] in *.
    change (JS.string_of_Z (Z.neg p))
      with ("-" ++ JS.string_of_Z (Z.pos p)).
    f_equal.
    apply toString_pos_integer; try assumption; [lia|].
    now apply of_Z_opp_form.
Qed.

End PrintedIntegers.

(* ===================================================================== *)
(** ** Properties of the inferencer and of the encoder *)
(* ===================================================================== *)

Section Inferred.

Variable ends : list JS.number.

Lemma inferred_length :
  List.length (ChapterCracker.chapters ends) = (List.length ends + 1)%nat.
Proof. rewrite chapters_unfold. simpl. rewrite chapters_from_length. lia. Qed.

Lemma inferred_nth k t :
  nth_error ends k = Some t ->
  nth_error (ChapterCracker.chapters ends) (k + 1)
  = Some {| start := t; title := "Chapter " ++ JS.string_of_nat (k + 2) |}.
Proof.
  intros H. rewrite chapters_unfold, Nat.add_1_r. simpl.
  now rewrite (chapters_from_nth _ 0%nat _ _ H).
Qed.

Lemma inferred_titles :
  map title (ChapterCracker.chapters ends)
  = map (fun n => "Chapter " ++ JS.string_of_nat n)
        (seq 1 (List.length ends + 1)).
Proof.
  rewrite chapters_unfold, Nat.add_1_r. simpl. f_equal.
  apply (chapters_from_titles ends 0).
Qed.

Lemma inferred_starts :
  map start (ChapterCracker.chapters ends) = JS.of_Z 0 :: ends.
Proof.
  rewrite chapters_unfold. simpl. f_equal.
  generalize 0%nat. induction ends as [|t l IH]; intros n; simpl;
    [reflexivity | now rewrite IH].
Qed.

End Inferred.

(** C1. For every sequence of silence ends (empty, with duplicates, with
    values at or past the duration: the inferencer does not look at the
    duration at all), both variants produce the same [|S| + 1] chapters;
    chapter 1 starts at 0, chapter [k + 2] starts at [S[k]] exactly as
    given, and the titles are "Chapter 1" to "Chapter |S|+1" in order. *)
Theorem C1_inferencer_chapters : forall ends : list JS.number,
  let chs := ChapterCracker.chapters ends in
  Part000.chapters ends = chs /\
  List.length chs = (List.length ends + 1)%nat /\
  nth_error chs 0 = Some {| start := JS.of_Z 0; title := "Chapter 1" |} /\
  map start chs = JS.of_Z 0 :: ends /\
  map title chs
  = map (fun n => "Chapter " ++ JS.string_of_nat n)
        (seq 1 (List.length ends + 1)).
Proof.
  intros ends chs. subst chs. split; [reflexivity|].
  split; [apply inferred_length|].
  split; [now rewrite chapters_unfold|].
  split; [apply inferred_starts | apply inferred_titles].
Qed.

(** C2, as stated, fails: above [2 ^ 53] the subtraction of 1 is rounded.
    On the silence end 9007199254740.994 both encoders emit
    START=9007199254740994 for the second record and END=9007199254740992
    for the first, two below it. *)
Lemma C2_counterexample :
  ms (JS.parseFloat "9007199254740.994") = JS.of_Z 9007199254740994 /\
  JS.sub (JS.of_Z 9007199254740994) (JS.of_Z 1) = JS.of_Z 9007199254740992 /\
  Part000.metadata
    (Part000.chapters [JS.parseFloat "9007199254740.994"])
    (JS.parseFloat "9007199254741")
  = Some
      ";FFMETADATA1
[CHAPTER]
TIMEBASE=1/1000
START=0
END=9007199254740992
title=Chapter 1

[CHAPTER]
TIMEBASE=1/1000
START=9007199254740994
END=9007199254741000
title=Chapter 2

" /\
  ChapterCracker.metadata
    (ChapterCracker.chapters [JS.parseFloat "9007199254740.994"])
    (JS.parseFloat "9007199254741")
  = Part000.metadata
      (Part000.chapters [JS.parseFloat "9007199254740.994"])
      (JS.parseFloat "9007199254741").
Proof. vm_compute. repeat split; reflexivity. Qed.

(** C2, amended. For the chapters inferred from any silence ends and any
    duration [D], both variants emit one record per chapter; the END of
    each non-last record is [floor(S[i] * 1000) - 1], the START of the next
    record minus one, in the arithmetic of JS numbers in which the program
    computes it, and it is the integer [b - 1] whenever that START is an
    integer [b] below [2 ^ 53] in magnitude; the END of the last record is
    [floor(D * 1000)]. *)
Theorem C2_encoder_end_times : forall (ends : list JS.number) (D : JS.number),
  exists es : list entry,
    ChapterCracker.metadata (ChapterCracker.chapters ends) D
    = Some (document es) /\
    Part000.metadata (Part000.chapters ends) D = Some (document es) /\
    List.length es = (List.length ends + 1)%nat /\
    (forall i t, nth_error ends i = Some t ->
       exists e e',
         nth_error es i = Some e /\ nth_error es (i + 1) = Some e' /\
         START e' = JS.floor (JS.mul t (JS.of_Z 1000)) /\
         END e = JS.sub (JS.floor (JS.mul t (JS.of_Z 1000))) (JS.of_Z 1) /\
         END e = JS.sub (START e') (JS.of_Z 1) /\
         (forall b, START e' = JS.of_Z b -> Z.abs b < 2 ^ 53 ->
                    END e = JS.of_Z (b - 1))) /\
    (exists e,
       nth_error es (List.length ends) = Some e /\
       END e = JS.floor (JS.mul D (JS.of_Z 1000))).
Proof.
  intros ends D. exists (entries (ChapterCracker.chapters ends) D).
  split; [apply metadata_ChapterCracker|].
  split; [rewrite chapters_same; apply metadata_Part000|].
  split; [rewrite entries_length; apply inferred_length|].
  split.
  - intros i t Hi.
    assert (Hn : nth_error (ChapterCracker.chapters ends) (i + 1)
                 = Some (chapter_of i t)) by now apply inferred_nth.
    assert (Hlt : (i < List.length (ChapterCracker.chapters ends))%nat).
    { rewrite inferred_length.
      assert (Hs : nth_error ends i <> None) by congruence.
      apply nth_error_Some in Hs. lia. }
    destruct (nth_error (ChapterCracker.chapters ends) i) as [c|] eqn:Hc;
      [|apply nth_error_None in Hc; lia].
    eexists. eexists. split; [apply (entries_nth _ _ _ _ Hc)|].
    split; [apply (entries_nth _ _ _ _ Hn)|].
    cbn [END START]. unfold endMs. rewrite Hn.
    split; [reflexivity|]. split; [reflexivity|]. split; [reflexivity|].
    intros b Hb Hlt'. cbn [chapter_of start] in *. rewrite Hb.
    now apply sub_of_Z.
  - assert (Hlt : (List.length ends
                   < List.length (ChapterCracker.chapters ends))%nat)
      by (rewrite inferred_length; lia).
    destruct (nth_error (ChapterCracker.chapters ends) (List.length ends))
      as [c|] eqn:Hc; [|apply nth_error_None in Hc; lia].
    eexists. split; [apply (entries_nth _ _ _ _ Hc)|].
    cbn [END]. unfold endMs.
    replace (nth_error (ChapterCracker.chapters ends) (List.length ends + 1))
      with (@None Chapter); [reflexivity|].
    symmetry. apply nth_error_None. rewrite inferred_length. lia.
Qed.

(** An instance of C2: the silence ends 10.5 and 45.002 with a duration of
    100 seconds. *)
Lemma C2_encoder_end_times_witness :
  exists es : list entry,
    ChapterCracker.metadata
      (ChapterCracker.chapters [JS.parseFloat "10.500"; JS.parseFloat "45.002"])
      (JS.parseFloat "100.0") = Some (document es) /\
    map END es = [JS.of_Z 10499; JS.of_Z 45001; JS.of_Z 100000].
Proof.
  destruct (C2_encoder_end_times
              [JS.parseFloat "10.500"; JS.parseFloat "45.002"]
              (JS.parseFloat "100.0"))
    as (es & H1 & _ & Hlen & Hmid & e2 & Hlast & E2).
  exists es. split; [exact H1|].
  destruct (Hmid 0%nat _ eq_refl) as (e0 & e0' & G0 & _ & S0 & _ & _ & I0).
  destruct (Hmid 1%nat _ eq_refl) as (e1 & e1' & G1 & _ & S1 & _ & _ & I1).
  specialize (I0 10500 S0 ltac:(vm_compute; reflexivity)).
  specialize (I1 45002 S1 ltac:(vm_compute; reflexivity)).
  destruct es as [|a [|b [|c [|d es]]]]; try discriminate Hlen.
  simpl in G0, G1, Hlast.
  injection G0 as ->. injection G1 as ->. injection Hlast as ->.
  simpl. rewrite I0, I1, E2. reflexivity.
Defined.

Lemma entries_titles chs D :
  map entry_title (entries chs D) = map title chs.
Proof.
  unfold entries. generalize 0%nat. generalize chs at 1 as all.
  induction chs as [|c l IH]; intros all n; simpl;
    [reflexivity | now rewrite IH].
Qed.

Lemma entries_starts chs D :
  map START (entries chs D) = map (fun c => ms (start c)) chs.
Proof.
  unfold entries. generalize 0%nat. generalize chs at 1 as all.
  induction chs as [|c l IH]; intros all n; simpl;
    [reflexivity | now rewrite IH].
Qed.

(** C4, as stated, fails: a silence end [10 ^ 18] seconds into the
    recording has the millisecond value [10 ^ 21], which JS prints with an
    exponent, so the START and END lines of the document that both
    encoders build, and that [src/unnamed/part_000] writes, hold no
    integer numeral. *)
Lemma C4_counterexample :
  Part000.silenceEnds (stderr (silenceProc far_timestamp_world))
  = Some [JS.of_Z (10 ^ 18)] /\
  ms (JS.of_Z (10 ^ 18)) = JS.of_Z (10 ^ 21) /\
  JS.toString (JS.of_Z (10 ^ 21)) = "1e+21" /\
  Part000.main far_timestamp_world
  = Written "chapters.txt"
      ";FFMETADATA1
[CHAPTER]
TIMEBASE=1/1000
START=0
END=1e+21
title=Chapter 1

[CHAPTER]
TIMEBASE=1/1000
START=1e+21
END=2e+21
title=Chapter 2

" /\
  core_ChapterCracker (stderr (silenceProc far_timestamp_world))
    (stdout (ffprobeProc far_timestamp_world))
  = core_Part000 (stderr (silenceProc far_timestamp_world))
      (stdout (ffprobeProc far_timestamp_world)).
Proof. vm_compute. repeat split; reflexivity. Qed.

(* ===================================================================== *)
(** ** The pattern loops terminate *)
(* ===================================================================== *)

Section Progress.

Implicit Types (k : string -> option (string * string)) (s : string).

Lemma strip_prefix_length l : forall s s',
  JS.strip_prefix l s = Some s' ->
  String.length s = (String.length l + String.length s')%nat.
Proof.
  induction l as [|a l IH]; intros s s' H; simpl in *.
  - now injection H as ->.
  - destruct s as [|b s]; [discriminate|].
    destruct (Ascii.eqb a b); [|discriminate].
    simpl. now rewrite (IH _ _ H).
Qed.

Lemma greedy_shrinking p k : shrinking k -> shrinking (JS.greedy p k).
Proof.
  intros Hk s. induction s as [|c t IH]; intros y H; simpl in H.
  - now apply Hk.
  - destruct (p c); [|now apply Hk].
    destruct (JS.greedy p k t) as [r|] eqn:G.
    + injection H as <-. specialize (IH _ eq_refl). simpl. lia.
    + now apply Hk.
Qed.

Lemma matchAtoms_shrinking r : forall k,
  shrinking k -> shrinking (JS.matchAtoms r k).
Proof.
  induction r as [|a r IH]; intros k Hk s y H; simpl in H.
  - now apply Hk.
  - destruct a as [l|p|p|p].
    + destruct (JS.strip_prefix l s) as [s'|] eqn:E; [|discriminate].
      apply strip_prefix_length in E. apply (IH _ Hk) in H. lia.
    + now apply (greedy_shrinking p _ (IH _ Hk)) in H.
    + destruct s as [|c t]; [discriminate|].
      destruct (p c); [|discriminate].
      apply (greedy_shrinking p _ (IH _ Hk)) in H. simpl. lia.
    + destruct s as [|c t]; [now apply (IH _ Hk) in H|].
      destruct (p c); [|now apply (IH _ Hk) in H].
      destruct (JS.matchAtoms r k t) as [x|] eqn:G.
      * injection H as <-. apply (IH _ Hk) in G. simpl. lia.
      * now apply (IH _ Hk) in H.
Qed.

(** A pattern that opens with a non-empty literal advances. *)
Lemma literal_advances a l r g :
  advances {| JS.before := JS.Lit (String a l) :: r; JS.group := g |}.
Proof.
  intros s m1 rest H. unfold JS.matchAt in H. cbn [JS.before JS.group] in H.
  cbn [JS.matchAtoms] in H.
  destruct (JS.strip_prefix (String a l) s) as [s'|] eqn:E; [|discriminate].
  apply strip_prefix_length in E.
  assert (Hs : shrinking
            (fun s1 => JS.matchAtoms g
                         (fun s2 => Some (JS.consumed s1 s2, s2)) s1)).
  { intros s1 y Hy. revert Hy. apply matchAtoms_shrinking.
    intros s2 y2 Hy2. injection Hy2 as <-. simpl. lia. }
  apply (matchAtoms_shrinking r _ Hs) in H. simpl in *. lia.
Qed.

Lemma exec_advances re : advances re ->
  forall s m1 rest,
    JS.exec re s = Some (m1, rest) ->
    (String.length rest < String.length s)%nat.
Proof.
  intros Hre s. induction s as [|c t IH]; intros m1 rest H; simpl in H.
  - destruct (JS.matchAt re "") as [r|] eqn:E; [|discriminate].
    injection H as ->. now apply Hre in E.
  - destruct (JS.matchAt re (String c t)) as [r|] eqn:E.
    + injection H as ->. now apply Hre in E.
    + apply IH in H. simpl. lia.
Qed.

(** With more fuel than characters the loop runs to its end. *)
Lemma execLoop_total {B} re (f : string -> B) : advances re ->
  forall fuel s out,
    (String.length s < fuel)%nat ->
    exists l, JS.execLoop fuel re f s out = Some l.
Proof.
  intros Hre. induction fuel as [|fuel IH]; intros s out Hlt; [lia|].
  simpl. destruct (JS.exec re s) as [[m1 rest]|] eqn:E.
  - apply IH. apply (exec_advances re Hre) in E. lia.
  - now exists out.
Qed.

End Progress.

(* ===================================================================== *)
(** ** What [main] does *)
(* ===================================================================== *)

Section Main.

Lemma ChapterCracker_starts_total text :
  exists l, ChapterCracker.silenceStarts text = Some l.
Proof. apply execLoop_total; [apply literal_advances | lia]. Qed.

Lemma ChapterCracker_ends_total text :
  exists l, ChapterCracker.silenceEnds text = Some l.
Proof. apply execLoop_total; [apply literal_advances | lia]. Qed.

Lemma Part000_starts_total text :
  exists l, Part000.silenceStarts text = Some l.
Proof. apply execLoop_total; [apply literal_advances | lia]. Qed.

Lemma Part000_ends_total text :
  exists l, Part000.silenceEnds text = Some l.
Proof. apply execLoop_total; [apply literal_advances | lia]. Qed.

(** [main] of [src/chapter-cracker.ts] ends where it first reads a piped
    stream. *)
Lemma main_ChapterCracker (w : World) : ChapterCracker.main w = Thrown.
Proof. reflexivity. Qed.

(** Its core logic makes a document of every report and probe output. *)
Lemma core_ChapterCracker_total report probe :
  exists ends,
    ChapterCracker.silenceEnds report = Some ends /\
    core_ChapterCracker report probe
    = Some (document
              (entries (ChapterCracker.chapters ends)
                 (ChapterCracker.totalDuration probe))).
Proof.
  destruct (ChapterCracker_ends_total report) as [es He].
  exists es. split; [exact He|].
  unfold core_ChapterCracker. rewrite He. apply metadata_ChapterCracker.
Qed.

Lemma main_Part000 (w : World) :
  exists ends,
    Part000.silenceEnds (stderr (silenceProc w)) = Some ends /\
    Part000.main w
    = if negb (exitCode (silenceProc w) =? 0) then
        Exited 1 ["ffmpeg silencedetect failed. Output:";
                  stderr (silenceProc w)]
      else if negb (exitCode (ffprobeProc w) =? 0) then
        Exited 1 ["ffprobe failed to retrieve duration.";
                  stderr (ffprobeProc w)]
      else if JS.isNaN (Part000.totalDuration (stdout (ffprobeProc w))) then
        Exited 1 ["Could not parse the total duration from ffprobe output."]
      else
        Written "chapters.txt"
          (document
             (entries (Part000.chapters ends)
                (Part000.totalDuration (stdout (ffprobeProc w))))).
Proof.
  destruct (Part000_starts_total (stderr (silenceProc w))) as [ss Hs].
  destruct (Part000_ends_total (stderr (silenceProc w))) as [es He].
  exists es. split; [exact He|].
  unfold Part000.main. rewrite Hs, He.
  destruct (negb (exitCode (silenceProc w) =? 0)); [reflexivity|].
  destruct (negb (exitCode (ffprobeProc w) =? 0)); [reflexivity|].
  destruct (JS.isNaN _); [reflexivity|].
  now rewrite metadata_Part000.
Qed.

End Main.

(** C3, as stated, fails: on the silence ends 5.0 and 3.0 nothing reports
    an error; the inference of both files gives chapters starting at 0, 5
    and 3, their encoding gives a document whose second record ends before
    it starts, and [src/unnamed/part_000] writes it. *)
Lemma C3_counterexample :
  ChapterCracker.silenceEnds (stderr (silenceProc non_monotone_world))
  = Some [JS.of_Z 5; JS.of_Z 3] /\
  map start (ChapterCracker.chapters [JS.of_Z 5; JS.of_Z 3])
  = [JS.of_Z 0; JS.of_Z 5; JS.of_Z 3] /\
  Part000.chapters [JS.of_Z 5; JS.of_Z 3]
  = ChapterCracker.chapters [JS.of_Z 5; JS.of_Z 3] /\
  core_ChapterCracker (stderr (silenceProc non_monotone_world))
    (stdout (ffprobeProc non_monotone_world))
  = Some
      ";FFMETADATA1
[CHAPTER]
TIMEBASE=1/1000
START=0
END=4999
title=Chapter 1

[CHAPTER]
TIMEBASE=1/1000
START=5000
END=2999
title=Chapter 2

[CHAPTER]
TIMEBASE=1/1000
START=3000
END=10000
title=Chapter 3

" /\
  Part000.main non_monotone_world
  = Written "chapters.txt"
      ";FFMETADATA1
[CHAPTER]
TIMEBASE=1/1000
START=0
END=4999
title=Chapter 1

[CHAPTER]
TIMEBASE=1/1000
START=5000
END=2999
title=Chapter 2

[CHAPTER]
TIMEBASE=1/1000
START=3000
END=10000
title=Chapter 3

".
Proof. vm_compute. repeat split; reflexivity. Qed.

(** C3, amended. Nothing checks the order of the silence ends.  The core
    logic of [src/chapter-cracker.ts] makes of every report the document
    of the chapters inferred from its silence ends in the order reported
    (its [main] does not get that far: it throws where it first reads a
    piped stream).  [src/unnamed/part_000] writes that document of its own
    silence ends once its three gates (the two exit statuses and the [NaN]
    duration) are passed. *)
Theorem C3_no_monotonicity_check : forall w : World,
  (exists ends,
     ChapterCracker.silenceEnds (stderr (silenceProc w)) = Some ends /\
     core_ChapterCracker (stderr (silenceProc w)) (stdout (ffprobeProc w))
     = Some (document
               (entries (ChapterCracker.chapters ends)
                  (ChapterCracker.totalDuration (stdout (ffprobeProc w)))))) /\
  (exists ends,
     Part000.silenceEnds (stderr (silenceProc w)) = Some ends /\
     (exitCode (silenceProc w) = 0 ->
      exitCode (ffprobeProc w) = 0 ->
      JS.isNaN (Part000.totalDuration (stdout (ffprobeProc w))) = false ->
      Part000.main w
      = Written "chapters.txt"
          (document
             (entries (Part000.chapters ends)
                (Part000.totalDuration (stdout (ffprobeProc w))))))).
Proof.
  intros w. split; [apply core_ChapterCracker_total|].
  destruct (main_Part000 w) as (ends & He & Hm).
  exists ends. split; [exact He|].
  intros H1 H2 H3. rewrite Hm, H1, H2, H3. reflexivity.
Qed.

Lemma C3_no_monotonicity_check_witness :
  exists ends,
    Part000.silenceEnds (stderr (silenceProc non_monotone_world)) = Some ends /\
    Part000.main non_monotone_world
    = Written "chapters.txt"
        (document
           (entries (Part000.chapters ends)
              (Part000.totalDuration
                 (stdout (ffprobeProc non_monotone_world))))).
Proof.
  destruct (C3_no_monotonicity_check non_monotone_world)
    as (_ & ends & He & Hm).
  exists ends. split; [exact He|].
  apply Hm; reflexivity.
Defined.

(** C5, as stated, fails: an infinite and a negative duration pass the gate
    of [src/unnamed/part_000], which tests [isNaN] only, and are encoded
    and written. *)
Lemma C5_counterexample :
  (JS.isFinite (Part000.totalDuration ("Infinity" ++ JS.LF)) = false /\
   Part000.main (probe_world ("Infinity" ++ JS.LF))
   = Written "chapters.txt"
       ";FFMETADATA1
[CHAPTER]
TIMEBASE=1/1000
START=0
END=Infinity
title=Chapter 1

") /\
  (JS.ge (Part000.totalDuration ("-5.5" ++ JS.LF)) (JS.of_Z 0) = false /\
   Part000.main (probe_world ("-5.5" ++ JS.LF))
   = Written "chapters.txt"
       ";FFMETADATA1
[CHAPTER]
TIMEBASE=1/1000
START=0
END=-5500
title=Chapter 1

").
Proof. vm_compute. repeat split; reflexivity. Qed.

(** C5, amended. In [src/unnamed/part_000], once both tools have exited
    with status 0, a duration that parses to [NaN] ends the run with an
    error message and exit status 1 before the document is encoded or
    written; every other duration, infinite and negative ones included, is
    accepted and the document is written. *)
Theorem C5_duration_gate : forall w : World,
  exitCode (silenceProc w) = 0 ->
  exitCode (ffprobeProc w) = 0 ->
  (JS.isNaN (Part000.totalDuration (stdout (ffprobeProc w))) = true ->
   Part000.main w
   = Exited 1 ["Could not parse the total duration from ffprobe output."]) /\
  (JS.isNaN (Part000.totalDuration (stdout (ffprobeProc w))) = false ->
   exists ends,
     Part000.silenceEnds (stderr (silenceProc w)) = Some ends /\
     Part000.main w
     = Written "chapters.txt"
         (document
            (entries (Part000.chapters ends)
               (Part000.totalDuration (stdout (ffprobeProc w)))))).
Proof.
  intros w H1 H2. destruct (main_Part000 w) as (ends & He & Hm).
  rewrite H1, H2 in Hm. simpl in Hm. split; intros H3; rewrite H3 in Hm.
  - exact Hm.
  - exists ends. now split.
Qed.

Lemma C5_duration_gate_witness :
  Part000.main (probe_world ("N/A" ++ JS.LF))
  = Exited 1 ["Could not parse the total duration from ffprobe output."].
Proof.
  apply (C5_duration_gate (probe_world ("N/A" ++ JS.LF)) eq_refl eq_refl).
  reflexivity.
Defined.

(** C6 on [src/chapter-cracker.ts]: the exit status of the silence detection
    is never read.  The run of the failed detection ends in the exception
    thrown where the piped stream is first read, which the handler of
    [main] prints after [Error:]; the diagnostic text of the engine is not
    reported.  On the same answers [src/unnamed/part_000] reports it. *)
Theorem C6_ChapterCracker_ignores_exit_status :
  exitCode (silenceProc failed_detection_world) = 1 /\
  ChapterCracker.main failed_detection_world = Thrown /\
  ChapterCrackerScript.script ["bun"; "audiobook.ts"; "myAudio.mp3"]
    Script.failed_detection_host
  = ([Runtime.Spawn
        ["ffmpeg"; "-i"; "myAudio.mp3"; "-af";
         "silencedetect=noise=-30dB:d=2"; "-f"; "null"; "-"];
      Runtime.Caught "Error:"], Runtime.Exit 1) /\
  Part000Script.script ["bun"; "audiobook.ts"; "myAudio.mp3"]
    Script.failed_detection_host
  = ([Runtime.Spawn
        ["ffmpeg"; "-i"; "myAudio.mp3"; "-af";
         "silencedetect=n=-30dB:d=2"; "-f"; "null"; "-"];
      Runtime.ConsoleError ["ffmpeg silencedetect failed. Output:"];
      Runtime.ConsoleError [stderr (silenceProc failed_detection_world)]],
     Runtime.Exit 1).
Proof. vm_compute. repeat split; reflexivity. Qed.

(** C6 on [src/unnamed/part_000]: a non-zero exit status of the silence
    detection ends the run with the engine's diagnostic text, before any
    pattern is looked for. *)
Lemma C6_Part000_stops (w : World) :
  exitCode (silenceProc w) <> 0 ->
  Part000.main w
  = Exited 1 ["ffmpeg silencedetect failed. Output:"; stderr (silenceProc w)].
Proof.
  intros H. unfold Part000.main.
  apply Z.eqb_neq in H. now rewrite H.
Qed.

(* ===================================================================== *)
(** ** What the two patterns match *)
(* ===================================================================== *)

Section Fields.

Implicit Types (p : ascii -> bool) (s : string).

Lemma span_eq p s : JS.span p s = (run p s, after p s).
Proof. unfold run, after. now destruct (JS.span p s). Qed.

Lemma run_after p s : run p s ++ after p s = s.
Proof.
  unfold run, after. induction s as [|c t IH]; simpl; [reflexivity|].
  destruct (p c); [|reflexivity].
  destruct (JS.span p t) as [a b]. simpl in *. now rewrite IH.
Qed.

Lemma after_cons p c t :
  after p (String c t) = if p c then after p t else String c t.
Proof.
  unfold after. simpl. destruct (p c); [|reflexivity].
  now destruct (JS.span p t).
Qed.

Lemma run_cons p c t :
  run p (String c t) = if p c then String c (run p t) else "".
Proof.
  unfold run. simpl. destruct (p c); [|reflexivity].
  now destruct (JS.span p t).
Qed.

Lemma after_length p s : (String.length (after p s) <= String.length s)%nat.
Proof.
  induction s as [|c t IH]; [apply Nat.le_refl|].
  rewrite after_cons. destruct (p c); simpl; lia.
Qed.

Lemma head_after p s : head_is p (after p s) = false.
Proof.
  induction s as [|c t IH]; [reflexivity|].
  rewrite after_cons. destruct (p c) eqn:E; [exact IH | exact E].
Qed.

Lemma substring_prefix (a b : string) :
  String.substring 0 (String.length a) (a ++ b) = a.
Proof.
  induction a as [|c a IH]; simpl.
  - now destruct b.
  - now rewrite IH.
Qed.

Lemma consumed_app (a b : string) : JS.consumed (a ++ b) b = a.
Proof.
  unfold JS.consumed. rewrite length_append.
  replace (String.length a + String.length b - String.length b)%nat
    with (String.length a) by lia.
  apply substring_prefix.
Qed.

(** A greedy star gives nothing back when the continuation rejects every
    text that begins in the class. *)
Lemma greedy_commit {A} p (k : string -> option A) s :
  (forall c t, p c = true -> k (String c t) = None) ->
  JS.greedy p k s = k (after p s).
Proof.
  intros Hk. induction s as [|c t IH]; [reflexivity|].
  simpl. rewrite after_cons. destruct (p c) eqn:E; [|reflexivity].
  rewrite IH. destruct (k (after p t)); [reflexivity | now apply Hk].
Qed.

(** A greedy star gives nothing back when the continuation always
    succeeds. *)
Lemma greedy_all {A} p (k : string -> option A) s :
  (forall s', k s' <> None) ->
  JS.greedy p k s = k (after p s).
Proof.
  intros Hk. induction s as [|c t IH]; [reflexivity|].
  simpl. rewrite after_cons. destruct (p c) eqn:E; [|reflexivity].
  rewrite IH. destruct (k (after p t)) eqn:K; [reflexivity|].
  now apply Hk in K.
Qed.

Lemma space_not_digit c : JS.is_space c = true -> JS.is_digit c = false.
Proof.
  destruct c as [[|] [|] [|] [|] [|] [|] [|] [|]]; vm_compute; congruence.
Qed.

Lemma space_not_dot c : JS.is_space c = true -> is_dot c = false.
Proof.
  destruct c as [[|] [|] [|] [|] [|] [|] [|] [|]]; vm_compute; congruence.
Qed.

Lemma digit_not_space c : JS.is_digit c = true -> JS.is_space c = false.
Proof.
  destruct c as [[|] [|] [|] [|] [|] [|] [|] [|]]; vm_compute; congruence.
Qed.

Lemma digit_not_dot c : JS.is_digit c = true -> is_dot c = false.
Proof.
  destruct c as [[|] [|] [|] [|] [|] [|] [|] [|]]; vm_compute; congruence.
Qed.

(** The digits, optional dot, digits group: no backtracking happens, and
    the group fails exactly when no digit comes first. *)
Lemma group_decimal_with {A} (k : string -> option A) s :
  (forall s', k s' <> None) ->
  JS.matchAtoms [JS.Plus JS.is_digit; JS.Opt is_dot; JS.Star JS.is_digit] k s
  = if head_is JS.is_digit s then k (rest_decimal s) else None.
Proof.
  intros Hk.
  assert (H3 : forall s, JS.matchAtoms [JS.Star JS.is_digit] k s
                         = k (after JS.is_digit s)).
  { intros s0. cbn [JS.matchAtoms]. now apply greedy_all. }
  assert (H2 : forall s, JS.matchAtoms [JS.Opt is_dot; JS.Star JS.is_digit] k s
                         = k (after JS.is_digit (skip_dot s))).
  { intros s0. cbn [JS.matchAtoms] in *. destruct s0 as [|c t]; simpl skip_dot.
    - apply H3.
    - destruct (is_dot c); [|apply H3]. rewrite H3.
      destruct (k (after JS.is_digit t)) eqn:K; [reflexivity|].
      now apply Hk in K. }
  destruct s as [|c t]; [reflexivity|].
  cbn [head_is].
  change (JS.matchAtoms
            (JS.Plus JS.is_digit :: [JS.Opt is_dot; JS.Star JS.is_digit]) k
            (String c t))
    with (if JS.is_digit c
          then JS.greedy JS.is_digit
                 (JS.matchAtoms [JS.Opt is_dot; JS.Star JS.is_digit] k) t
          else None).
  destruct (JS.is_digit c) eqn:Dc; [|reflexivity].
  rewrite greedy_all by (intros s'; rewrite H2; apply Hk).
  rewrite H2. unfold rest_decimal. rewrite after_cons, Dc. reflexivity.
Qed.

Lemma group_decimal s1 :
  JS.matchAtoms [JS.Plus JS.is_digit; JS.Opt is_dot; JS.Star JS.is_digit]
    (fun s2 => Some (JS.consumed s1 s2, s2)) s1
  = if head_is JS.is_digit s1
    then Some (JS.consumed s1 (rest_decimal s1), rest_decimal s1)
    else None.
Proof. apply group_decimal_with. intros s'; discriminate. Qed.

(** The digits-or-dots group. *)
Lemma group_loose_with {A} (k : string -> option A) s :
  (forall s', k s' <> None) ->
  JS.matchAtoms [JS.Plus Part000.is_digit_or_dot] k s
  = if head_is Part000.is_digit_or_dot s
    then k (after Part000.is_digit_or_dot s)
    else None.
Proof.
  intros Hk. destruct s as [|c t]; [reflexivity|].
  cbn [head_is JS.matchAtoms].
  destruct (Part000.is_digit_or_dot c) eqn:Dc; [|reflexivity].
  rewrite greedy_all by exact Hk.
  rewrite after_cons, Dc. reflexivity.
Qed.

Lemma group_loose s1 :
  JS.matchAtoms [JS.Plus Part000.is_digit_or_dot]
    (fun s2 => Some (JS.consumed s1 s2, s2)) s1
  = if head_is Part000.is_digit_or_dot s1
    then Some (JS.consumed s1 (after Part000.is_digit_or_dot s1),
               after Part000.is_digit_or_dot s1)
    else None.
Proof. apply group_loose_with. intros s'; discriminate. Qed.

(** A pattern [lit\s*(group)] whose group cannot begin with white space
    matches at the head of [s] when [s] begins with [lit] and the group
    matches after the white space that follows. *)
Lemma matchAt_keyword lit g s
  (K := fun s1 => JS.matchAtoms g (fun s2 => Some (JS.consumed s1 s2, s2)) s1) :
  (forall c t, JS.is_space c = true -> K (String c t) = None) ->
  JS.matchAt {| JS.before := [JS.Lit lit; JS.Star JS.is_space];
                JS.group := g |} s
  = match JS.strip_prefix lit s with
    | Some post => K (after JS.is_space post)
    | None => None
    end.
Proof.
  intros HK. unfold JS.matchAt. cbn [JS.before JS.group JS.matchAtoms].
  destruct (JS.strip_prefix lit s) as [post|]; [|reflexivity].
  now apply greedy_commit.
Qed.

Lemma matchAt_decimal lit s :
  JS.matchAt (decimal_pattern lit) s
  = match JS.strip_prefix lit s with
    | Some post =>
        let s1 := after JS.is_space post in
        if head_is JS.is_digit s1
        then Some (JS.consumed s1 (rest_decimal s1), rest_decimal s1)
        else None
    | None => None
    end.
Proof.
  unfold decimal_pattern. rewrite matchAt_keyword.
  - destruct (JS.strip_prefix lit s); [|reflexivity]. apply group_decimal.
  - intros c t Hc. rewrite group_decimal. cbn [head_is].
    now rewrite (space_not_digit c Hc).
Qed.

Lemma matchAt_loose lit s :
  JS.matchAt (loose_pattern lit) s
  = match JS.strip_prefix lit s with
    | Some post =>
        let s1 := after JS.is_space post in
        if head_is Part000.is_digit_or_dot s1
        then Some (JS.consumed s1 (after Part000.is_digit_or_dot s1),
                   after Part000.is_digit_or_dot s1)
        else None
    | None => None
    end.
Proof.
  unfold loose_pattern. rewrite matchAt_keyword.
  - destruct (JS.strip_prefix lit s); [|reflexivity]. apply group_loose.
  - intros c t Hc. rewrite group_loose. cbn [head_is].
    unfold Part000.is_digit_or_dot.
    now rewrite (space_not_digit c Hc), (space_not_dot c Hc).
Qed.

End Fields.

(* ===================================================================== *)
(** ** Numbers read from digits are not negative *)
(* ===================================================================== *)

Section Rounding.

Lemma iter_pos_invariant {A} (P : A -> Prop) (f : A -> A) :
  (forall x, P x -> P (f x)) ->
  forall n x, P x -> P (iter_pos f n x).
Proof.
  intros Hf. induction n as [n IH|n IH|]; intros x Hx; simpl; auto.
Qed.

Lemma shr_1_nonneg mrs : 0 <= shr_m mrs -> 0 <= shr_m (shr_1 mrs).
Proof.
  destruct mrs as [m r s]. simpl.
  destruct m as [|[p|p|]|[p|p|]]; simpl; lia.
Qed.

Lemma shr_nonneg mrs e n : 0 <= shr_m mrs -> 0 <= shr_m (fst (shr mrs e n)).
Proof.
  intros H. destruct n as [|p|p]; simpl; try exact H.
  now apply iter_pos_invariant; [apply shr_1_nonneg|].
Qed.

Lemma shr_fexp_nonneg m e l :
  0 <= m -> 0 <= shr_m (fst (shr_fexp JS.prec JS.emax m e l)).
Proof.
  intros H. unfold shr_fexp. apply shr_nonneg.
  destruct l as [|[| |]]; exact H.
Qed.

Lemma round_nearest_even_nonneg m l : 0 <= m -> 0 <= round_nearest_even m l.
Proof.
  intros H. destruct l as [|[| |]]; simpl; try lia.
  destruct (Z.even m); lia.
Qed.

Lemma binary_round_aux_signed sx mx ex lx :
  0 <= mx -> signed sx (binary_round_aux JS.prec JS.emax sx mx ex lx).
Proof.
  intros H. unfold binary_round_aux.
  pose proof (shr_fexp_nonneg mx ex lx H) as H1.
  destruct (shr_fexp JS.prec JS.emax mx ex lx) as [mrs' e'].
  simpl in H1.
  pose proof (shr_fexp_nonneg _ e' loc_Exact
                (round_nearest_even_nonneg _ (loc_of_shr_record mrs') H1)) as H2.
  destruct (shr_fexp JS.prec JS.emax
              (round_nearest_even (shr_m mrs') (loc_of_shr_record mrs')) e'
              loc_Exact) as [mrs'' e''].
  simpl in H2. destruct (shr_m mrs'') as [|p|p]; simpl.
  - reflexivity.
  - match goal with |- context [if ?b then _ else _] => destruct b end;
      simpl; reflexivity.
  - lia.
Qed.

Lemma binary_normalize_signed m e :
  0 <= m -> signed false (binary_normalize JS.prec JS.emax m e false).
Proof.
  intros H. destruct m as [|p|p]; simpl; [reflexivity| |lia].
  unfold binary_round.
  destruct (shl_align p e _) as [mz ez].
  apply binary_round_aux_signed. lia.
Qed.

Lemma of_ratio_signed n d : signed false (JS.of_ratio false n d).
Proof.
  unfold JS.of_ratio. cbv zeta. apply binary_normalize_signed.
  unfold cond_Zopp.
  set (sh := 66 - (Z.log2 (Z.pos n) - Z.log2 (Z.pos d))).
  assert (Hq : 0 <= (if 0 <=? sh then Z.shiftl (Z.pos n) sh else Z.pos n)
                    / (if 0 <=? sh then Z.pos d else Z.shiftl (Z.pos d) (- sh))).
  { destruct (0 <=? sh) eqn:E.
    - apply Z.div_pos; [|lia]. apply Z.shiftl_nonneg. lia.
    - apply Z.leb_gt in E. apply Z.div_pos; [lia|].
      rewrite Z.shiftl_mul_pow2 by lia.
      assert (0 < 2 ^ (- sh)) by (apply Z.pow_pos_nonneg; lia). nia. }
  destruct (_ =? 0); lia.
Qed.

Lemma of_decimal_signed m e : signed false (JS.of_decimal false m e).
Proof.
  unfold JS.of_decimal. destruct m as [|p|p]; try reflexivity.
  destruct (0 <=? e); apply of_ratio_signed.
Qed.

(** A number of positive sign is at least 0 and is not [NaN]. *)
Lemma signed_ge_0 x : signed false x -> JS.ge x (JS.of_Z 0) = true.
Proof.
  intros H. destruct x as [s|s| |s m e]; simpl in H;
    try contradiction; subst; reflexivity.
Qed.

Lemma signed_not_NaN s x : signed s x -> JS.isNaN x = false.
Proof. destruct x; simpl; intros H; [reflexivity..|contradiction|reflexivity]. Qed.

End Rounding.

(* ===================================================================== *)
(** ** What [parseFloat] reads in a field *)
(* ===================================================================== *)

Section Parsing.

Implicit Types (p : ascii -> bool) (s d x : string).

Lemma only_run p s : only p (run p s).
Proof.
  unfold only. induction s as [|c t IH]; [reflexivity|].
  rewrite run_cons. destruct (p c) eqn:E; [|reflexivity].
  now rewrite after_cons, E.
Qed.

Lemma head_false_run p x : head_is p x = false -> run p x = "".
Proof. destruct x as [|c t]; [reflexivity|]. simpl. rewrite run_cons. now intros ->. Qed.

Lemma head_false_after p x : head_is p x = false -> after p x = x.
Proof. destruct x as [|c t]; [reflexivity|]. simpl. rewrite after_cons. now intros ->. Qed.

Lemma only_cons p c d : only p (String c d) -> p c = true /\ only p d.
Proof.
  unfold only. rewrite after_cons. destruct (p c); [now split | discriminate].
Qed.

Lemma run_app_only p d x :
  only p d -> head_is p x = false -> run p (d ++ x) = d.
Proof.
  intros Hd Hx. induction d as [|c d IH]; simpl.
  - now apply head_false_run.
  - apply only_cons in Hd as [Hc Hd]. rewrite run_cons, Hc. now rewrite IH.
Qed.

Lemma after_app_only p d x :
  only p d -> head_is p x = false -> after p (d ++ x) = x.
Proof.
  intros Hd Hx. induction d as [|c d IH]; simpl.
  - now apply head_false_after.
  - apply only_cons in Hd as [Hc Hd]. rewrite after_cons, Hc. now apply IH.
Qed.

Lemma after_app_only_weak p d x : only p d -> after p (d ++ x) = after p x.
Proof.
  intros Hd. induction d as [|c d IH]; simpl; [reflexivity|].
  apply only_cons in Hd as [Hc Hd]. rewrite after_cons, Hc. now apply IH.
Qed.

Lemma run_app_only_weak p d x : only p d -> run p (d ++ x) = d ++ run p x.
Proof.
  intros Hd. induction d as [|c d IH]; simpl; [reflexivity|].
  apply only_cons in Hd as [Hc Hd]. rewrite run_cons, Hc. now rewrite IH.
Qed.

Lemma only_weaken p q d :
  (forall c, p c = true -> q c = true) -> only p d -> only q d.
Proof.
  intros Hpq. induction d as [|c d IH]; intros H; [reflexivity|].
  apply only_cons in H as [Hc Hd]. unfold only.
  rewrite after_cons, (Hpq _ Hc). now apply IH.
Qed.

Lemma only_app p d1 d2 : only p d1 -> only p d2 -> only p (d1 ++ d2).
Proof. intros H1 H2. unfold only. now rewrite after_app_only_weak. Qed.

(** A digit is neither a sign nor the first letter of [Infinity]. *)
Lemma parseFloat_head_digit c t :
  JS.is_digit c = true ->
  JS.parseFloat (String c t) = JS.parseUnsigned false (String c t).
Proof.
  destruct c as [[|] [|] [|] [|] [|] [|] [|] [|]]; intros H;
    try discriminate H; reflexivity.
Qed.

Lemma prefix_Infinity_digit c t :
  JS.is_digit c = true -> String.prefix "Infinity" (String c t) = false.
Proof.
  destruct c as [[|] [|] [|] [|] [|] [|] [|] [|]]; intros H;
    try discriminate H; reflexivity.
Qed.

Lemma match_dot {A} (s2 : string) (f : string -> A) (y : A) :
  match s2 with
  | String "." r => f r
  | _ => y
  end = if head_is is_dot s2 then f (skip_dot s2) else y.
Proof.
  destruct s2 as [|c r]; [reflexivity|].
  destruct c as [[|] [|] [|] [|] [|] [|] [|] [|]]; reflexivity.
Qed.


(** [parseFloat] of digits, a dot, digits and a tail that cannot be read
    on as a fraction or an exponent. *)
Lemma parseFloat_fraction c d1 d2 x :
  JS.is_digit c = true -> only JS.is_digit d1 -> only JS.is_digit d2 ->
  head_is JS.is_digit x = false -> JS.exponent_part x = 0 ->
  JS.parseFloat (String c d1 ++ "." ++ d2 ++ x)
  = decimal_value (String c d1) d2.
Proof.
  intros Hc H1 H2 Hx He.
  cbn [append]. rewrite (parseFloat_head_digit _ _ Hc).
  unfold JS.parseUnsigned. rewrite (prefix_Infinity_digit _ _ Hc).
  rewrite span_eq. rewrite run_cons, after_cons, Hc.
  rewrite (run_app_only JS.is_digit d1 (String "." (d2 ++ x)) H1 eq_refl).
  rewrite (after_app_only JS.is_digit d1 (String "." (d2 ++ x)) H1 eq_refl).
  rewrite span_eq.
  rewrite (run_app_only _ _ _ H2 Hx), (after_app_only _ _ _ H2 Hx).
  cbn [append]. rewrite He. reflexivity.
Qed.

(** [parseFloat] of digits and a tail that is neither a digit, a dot nor
    an exponent. *)
Lemma parseFloat_integer c d1 x :
  JS.is_digit c = true -> only JS.is_digit d1 ->
  head_is JS.is_digit x = false -> head_is is_dot x = false ->
  JS.exponent_part x = 0 ->
  JS.parseFloat (String c d1 ++ x) = decimal_value (String c d1) "".
Proof.
  intros Hc H1 Hx Hd He.
  cbn [append]. rewrite (parseFloat_head_digit _ _ Hc).
  unfold JS.parseUnsigned. rewrite (prefix_Infinity_digit _ _ Hc).
  rewrite span_eq. rewrite run_cons, after_cons, Hc.
  rewrite (run_app_only _ _ _ H1 Hx), (after_app_only _ _ _ H1 Hx).
  rewrite match_dot, Hd. cbn [append]. rewrite He.
  unfold decimal_value. now rewrite !append_nil_r.
Qed.

Lemma parseFloat_fraction_end c d1 d2 :
  JS.is_digit c = true -> only JS.is_digit d1 -> only JS.is_digit d2 ->
  JS.parseFloat (String c d1 ++ "." ++ d2) = decimal_value (String c d1) d2.
Proof.
  intros Hc H1 H2.
  rewrite <- (parseFloat_fraction c d1 d2 "" Hc H1 H2 eq_refl eq_refl).
  now rewrite append_nil_r.
Qed.

Lemma parseFloat_integer_end c d1 :
  JS.is_digit c = true -> only JS.is_digit d1 ->
  JS.parseFloat (String c d1) = decimal_value (String c d1) "".
Proof.
  intros Hc H1.
  rewrite <- (parseFloat_integer c d1 "" Hc H1 eq_refl eq_refl eq_refl).
  now rewrite append_nil_r.
Qed.

End Parsing.

(* ===================================================================== *)
(** ** The field captured by each pattern *)
(* ===================================================================== *)

Section Captures.

Local Notation "'dd'" := Part000.is_digit_or_dot.

Lemma digit_is_dd c : JS.is_digit c = true -> dd c = true.
Proof. unfold Part000.is_digit_or_dot. now intros ->. Qed.

Lemma dot_is_dd c : is_dot c = true -> dd c = true.
Proof. unfold Part000.is_digit_or_dot. intros ->. apply orb_true_r. Qed.

Lemma skip_dot_head s : head_is is_dot s = false -> skip_dot s = s.
Proof. destruct s as [|c t]; [reflexivity|]. simpl. now intros ->. Qed.

Lemma head_dot s :
  head_is is_dot s = true -> s = String "." (skip_dot s).
Proof.
  destruct s as [|c t]; [discriminate|]. simpl. intros H. rewrite H.
  apply Ascii.eqb_eq in H. now subst.
Qed.


(** The shape of a text that begins with a digit: digits, then either a
    dot and digits, or something that is not a dot. *)
Lemma decimal_shape c t :
  JS.is_digit c = true ->
  let d1 := run JS.is_digit t in
  let t1 := after JS.is_digit t in
  only JS.is_digit d1 /\ head_is JS.is_digit t1 = false /\
  if head_is is_dot t1 then
    let d2 := run JS.is_digit (skip_dot t1) in
    let t2 := after JS.is_digit (skip_dot t1) in
    only JS.is_digit d2 /\ head_is JS.is_digit t2 = false /\
    String c t = (String c d1 ++ "." ++ d2) ++ t2 /\
    rest_decimal (String c t) = t2
  else
    String c t = String c d1 ++ t1 /\ rest_decimal (String c t) = t1.
Proof.
  intros Hc d1 t1. split; [apply only_run|]. split; [apply head_after|].
  assert (E : String c t = String c d1 ++ t1)
    by (simpl; unfold d1, t1; now rewrite run_after).
  assert (R : rest_decimal (String c t) = after JS.is_digit (skip_dot t1))
    by (unfold rest_decimal; now rewrite after_cons, Hc).
  destruct (head_is is_dot t1) eqn:Hd.
  - cbv zeta. split; [apply only_run|]. split; [apply head_after|].
    split; [|exact R].
    rewrite E at 1. rewrite (head_dot _ Hd) at 1.
    rewrite <- (run_after JS.is_digit (skip_dot t1)) at 1.
    simpl. now rewrite !append_assoc.
  - split; [exact E|]. rewrite R, (skip_dot_head _ Hd).
    apply head_false_after, head_after.
Qed.

(** On a text that begins with a digit, the field of
    [src/chapter-cracker.ts] reads as a number written [d1.d2]. *)
Lemma capture_decimal_value s1 :
  head_is JS.is_digit s1 = true ->
  exists d1 d2,
    JS.parseFloat (JS.consumed s1 (rest_decimal s1)) = decimal_value d1 d2.
Proof.
  destruct s1 as [|c t]; [discriminate|]. simpl head_is. intros Hc.
  destruct (decimal_shape c t Hc) as (H1 & Ht1 & H).
  destruct (head_is is_dot (after JS.is_digit t)).
  - destruct H as (H2 & Ht2 & E & R). eexists. eexists.
    rewrite R. rewrite E at 1. rewrite consumed_app.
    apply parseFloat_fraction_end; auto.
  - destruct H as (E & R). eexists. eexists.
    rewrite R. rewrite E at 1. rewrite consumed_app.
    apply parseFloat_integer_end; auto.
Qed.


End Captures.

(* ===================================================================== *)
(** ** What the pattern loops collect *)
(* ===================================================================== *)

Section Collected.

Context {B : Type}.
Variables (re : JS.regex) (f : string -> B).

Lemma exec_matchAt s r :
  JS.exec re s = Some r -> exists s', JS.matchAt re s' = Some r.
Proof.
  induction s as [|c t IH]; simpl; intros H.
  - destruct (JS.matchAt re "") eqn:E; [|discriminate].
    injection H as <-. now exists "".
  - destruct (JS.matchAt re (String c t)) eqn:E; [|now apply IH].
    injection H as <-. now exists (String c t).
Qed.

(** Every element pushed by the loop comes from a match. *)
Lemma execLoop_Forall (P : B -> Prop) :
  (forall s m1 rest, JS.matchAt re s = Some (m1, rest) -> P (f m1)) ->
  forall fuel s out l,
    Forall P out -> JS.execLoop fuel re f s out = Some l -> Forall P l.
Proof.
  intros HP. induction fuel as [|fuel IH]; intros s out l Hout H; [discriminate|].
  simpl in H. destruct (JS.exec re s) as [[m1 rest]|] eqn:E.
  - apply (IH rest (out ++ [f m1])%list l); [|exact H].
    apply Forall_app. split; [exact Hout|]. constructor; [|constructor].
    destruct (exec_matchAt _ _ E) as [s' Hs']. now apply (HP s' m1 rest).
  - now injection H as <-.
Qed.

(** The loop depends on the text through [exec] only. *)
Lemma execLoop_ext fuel s s' out :
  JS.exec re s = JS.exec re s' ->
  JS.execLoop fuel re f s out = JS.execLoop fuel re f s' out.
Proof. intros H. destruct fuel; simpl; [reflexivity | now rewrite H]. Qed.

(** No match at all: nothing is pushed. *)
Lemma execLoop_no_match fuel s :
  JS.exec re s = None -> JS.execLoop (S fuel) re f s [] = Some [].
Proof. intros H. simpl. now rewrite H. Qed.

End Collected.

Section ChapterCrackerTimestamps.

Lemma decimal_match_signed lit s m1 rest :
  JS.matchAt (decimal_pattern lit) s = Some (m1, rest) ->
  signed false (JS.parseFloat m1).
Proof.
  rewrite matchAt_decimal. destruct (JS.strip_prefix lit s) as [post|];
    [|discriminate]. cbv zeta.
  destruct (head_is JS.is_digit (after JS.is_space post)) eqn:Hd;
    [|discriminate].
  intros H. injection H as <- _.
  destruct (capture_decimal_value _ Hd) as (d1 & d2 & ->).
  apply of_decimal_signed.
Qed.

(** Every timestamp [src/chapter-cracker.ts] extracts is zero, a positive
    finite number or positive infinity: never [NaN], never negative. *)
Lemma ChapterCracker_ends_signed text :
  exists l, ChapterCracker.silenceEnds text = Some l /\ Forall (signed false) l.
Proof.
  destruct (ChapterCracker_ends_total text) as [l Hl]. exists l.
  split; [exact Hl|]. revert Hl. apply execLoop_Forall; [|constructor].
  apply (decimal_match_signed "silence_end:").
Qed.

Lemma ChapterCracker_starts_signed text :
  exists l, ChapterCracker.silenceStarts text = Some l /\ Forall (signed false) l.
Proof.
  destruct (ChapterCracker_starts_total text) as [l Hl]. exists l.
  split; [exact Hl|]. revert Hl. apply execLoop_Forall; [|constructor].
  apply (decimal_match_signed "silence_start:").
Qed.

(** C8 on [src/chapter-cracker.ts]: no extracted timestamp is [NaN], and a
    text without any match gives two empty sequences. *)
Lemma C8_ChapterCracker_well_formed text :
  (exists starts ends,
     ChapterCracker.silenceStarts text = Some starts /\
     ChapterCracker.silenceEnds text = Some ends /\
     Forall (fun t => JS.isNaN t = false) starts /\
     Forall (fun t => JS.isNaN t = false) ends) /\
  (JS.exec ChapterCracker.silenceStartRegex text = None ->
   ChapterCracker.silenceStarts text = Some []) /\
  (JS.exec ChapterCracker.silenceEndRegex text = None ->
   ChapterCracker.silenceEnds text = Some []).
Proof.
  split; [|split; apply execLoop_no_match].
  destruct (ChapterCracker_starts_signed text) as (ss & Hs & Fs).
  destruct (ChapterCracker_ends_signed text) as (es & He & Fe).
  exists ss, es. repeat split; auto.
  - eapply Forall_impl; [|exact Fs]. apply signed_not_NaN.
  - eapply Forall_impl; [|exact Fe]. apply signed_not_NaN.
Qed.

End ChapterCrackerTimestamps.

(** C8 on [src/unnamed/part_000]: its group [[\d.]+] matches a lone dot,
    which [parseFloat] reads as [NaN]; the group of
    [src/chapter-cracker.ts] does not match there. *)
Theorem C8_Part000_extracts_NaN :
  Part000.silenceEnds "silence_end: ." = Some [JS.NaN] /\
  Part000.silenceStarts "silence_start: ..5" = Some [JS.NaN] /\
  ChapterCracker.silenceEnds "silence_end: ." = Some [] /\
  Part000.main
    {| silenceProc := {| exitCode := 0; stdout := "";
                         stderr := "silence_end: ." |};
       ffprobeProc := {| exitCode := 0; stdout := "10"; stderr := "" |} |}
  = Written "chapters.txt"
      ";FFMETADATA1
[CHAPTER]
TIMEBASE=1/1000
START=0
END=NaN
title=Chapter 1

[CHAPTER]
TIMEBASE=1/1000
START=NaN
END=10000
title=Chapter 2

".
Proof. vm_compute. repeat split; reflexivity. Qed.

(* ===================================================================== *)
(** ** Titles *)
(* ===================================================================== *)

Section Titles.

Lemma to_uint_not_Nil n : Nat.to_uint n <> Nil.
Proof.
  intros H. destruct n as [|n]; [discriminate|].
  pose proof (DecimalNat.Unsigned.of_to (S n)) as E.
  rewrite H in E. discriminate.
Qed.

Lemma string_of_nat_inj a b : JS.string_of_nat a = JS.string_of_nat b -> a = b.
Proof.
  unfold JS.string_of_nat. intros H.
  apply (f_equal NilZero.uint_of_string) in H.
  rewrite !NilZero.usu in H by apply to_uint_not_Nil.
  injection H as H. now apply DecimalNat.Unsigned.to_uint_inj.
Qed.

Lemma chapters_from_entry ends : forall index k c,
  nth_error (chapters_from index ends) k = Some c ->
  title c = "Chapter " ++ JS.string_of_nat (index + k + 2) /\ In (start c) ends.
Proof.
  induction ends as [|t ends IH]; intros index k c H.
  - destruct k; discriminate.
  - destruct k as [|k]; simpl in H.
    + injection H as <-. simpl. rewrite Nat.add_0_r. auto.
    + apply IH in H as [H1 H2]. split; [|now right].
      rewrite H1. f_equal. f_equal. lia.
Qed.

(** The chapter at index [i] is titled with the ordinal [i + 1], and starts
    at 0 or at one of the silence ends. *)
Lemma inferred_entry ends i c :
  nth_error (ChapterCracker.chapters ends) i = Some c ->
  title c = "Chapter " ++ JS.string_of_nat (i + 1) /\
  (start c = JS.of_Z 0 \/ In (start c) ends).
Proof.
  rewrite chapters_unfold. destruct i as [|i]; cbn [nth_error]; intros H.
  - injection H as <-. split; [reflexivity | now left].
  - apply chapters_from_entry in H as [H1 H2]. split; [|now right].
    rewrite H1. f_equal. f_equal. lia.
Qed.

End Titles.

(** C7, as stated, fails: two silence ends at the same time give a second
    chapter that starts at 5000 ms and ends at 4999 ms. *)
Lemma C7_counterexample :
  ChapterCracker.silenceEnds ("silence_end: 5" ++ JS.LF ++ "silence_end: 5")
  = Some [JS.of_Z 5; JS.of_Z 5] /\
  ChapterCracker.metadata (ChapterCracker.chapters [JS.of_Z 5; JS.of_Z 5])
    (JS.of_Z 10)
  = Some (document
            [{| START := JS.of_Z 0; END := JS.of_Z 4999;
                entry_title := "Chapter 1" |};
             {| START := JS.of_Z 5000; END := JS.of_Z 4999;
                entry_title := "Chapter 2" |};
             {| START := JS.of_Z 5000; END := JS.of_Z 10000;
                entry_title := "Chapter 3" |}]) /\
  JS.gt (JS.of_Z 4999) (JS.of_Z 5000) = false.
Proof. vm_compute. repeat split; reflexivity. Qed.

(* ===================================================================== *)
(** ** The two variants side by side *)
(* ===================================================================== *)

Section Variants.

Local Notation "'dd'" := Part000.is_digit_or_dot.

Variable lit : string.
Hypothesis lit_outside : starts_outside dd lit.

Lemma trimStart_after s : JS.trimStart s = after JS.is_space s.
Proof.
  induction s as [|c t IH]; [reflexivity|].
  simpl. rewrite after_cons. destruct (JS.is_space c); [exact IH | reflexivity].
Qed.

Lemma strip_prefix_outside p c t :
  starts_outside p lit -> p c = true -> JS.strip_prefix lit (String c t) = None.
Proof.
  destruct lit as [|a l]; [contradiction|]. simpl. intros Ha Hc.
  destruct (Ascii.eqb a c) eqn:E; [|reflexivity].
  apply Ascii.eqb_eq in E. congruence.
Qed.

(** A pattern that opens with the keyword finds in [x ++ r] what it finds
    in [r] when [x] is made of characters the keyword cannot begin with. *)
Lemma exec_skip re p x r :
  starts_outside p lit ->
  (exists rest g, re = {| JS.before := JS.Lit lit :: rest; JS.group := g |}) ->
  only p x -> JS.exec re (x ++ r) = JS.exec re r.
Proof.
  intros Hp (rest & g & ->) Hx. induction x as [|c x IH]; [reflexivity|].
  apply only_cons in Hx as [Hc Hx]. cbn [append JS.exec].
  unfold JS.matchAt at 1. cbn [JS.before JS.matchAtoms].
  rewrite (strip_prefix_outside p c _ Hp Hc). now apply IH.
Qed.








End Variants.






(* ===================================================================== *)
(** ** Reports of the detection engine *)
(* ===================================================================== *)

Section Reports.

Lemma exec_unfold re s :
  JS.exec re s
  = match JS.matchAt re s with
    | Some r => Some r
    | None =>
        match s with
        | String _ t => JS.exec re t
        | EmptyString => None
        end
    end.
Proof. destruct s; reflexivity. Qed.

Lemma incompatible_strip lit : forall b R,
  compatible lit b = false -> JS.strip_prefix lit (b ++ R) = None.
Proof.
  induction lit as [|a l IH]; intros b R H; [discriminate|].
  destruct b as [|c b]; [discriminate|]. simpl in *.
  destruct (Ascii.eqb a c); [now apply IH | reflexivity].
Qed.

Lemma quiet_after lit p q : quiet lit q = true -> quiet lit (after p q) = true.
Proof.
  induction q as [|c q IH]; intros H; [reflexivity|].
  rewrite after_cons. destruct (p c); [|exact H].
  apply IH. cbn [quiet] in H. now apply andb_prop in H.
Qed.

Lemma strip_prefix_self lit s : JS.strip_prefix lit (lit ++ s) = Some s.
Proof.
  induction lit as [|a l IH]; [reflexivity|].
  simpl. now rewrite Ascii.eqb_refl.
Qed.

Lemma after_app_left p q R :
  after p q <> "" -> after p (q ++ R) = after p q ++ R.
Proof.
  induction q as [|c q IH]; [now intros H|].
  rewrite after_cons. cbn [append]. rewrite after_cons.
  destruct (p c); [exact IH | reflexivity].
Qed.

Variables (lit : string) (re : JS.regex).
Hypothesis re_keyword :
  exists rest g, re = {| JS.before := JS.Lit lit :: rest; JS.group := g |}.

(** Text that holds no keyword is passed over. *)
Lemma exec_quiet q R :
  quiet lit q = true -> JS.exec re (q ++ R) = JS.exec re R.
Proof.
  destruct re_keyword as (rest & g & ->).
  induction q as [|c q IH]; intros H; [reflexivity|].
  cbn [quiet] in H. apply andb_prop in H as [H1 H2].
  apply negb_true_iff in H1. rewrite exec_unfold.
  unfold JS.matchAt at 1. cbn [JS.before JS.matchAtoms].
  rewrite (incompatible_strip _ _ _ H1). cbn [append]. now apply IH.
Qed.

End Reports.

Section Events.

Local Notation "'dd'" := Part000.is_digit_or_dot.

Variable lit : string.
Hypothesis lit_outside : starts_outside dd lit.

Lemma outside_digit : starts_outside JS.is_digit lit.
Proof.
  destruct lit as [|a l]; [contradiction|]. simpl in *.
  unfold Part000.is_digit_or_dot in lit_outside.
  now apply orb_false_iff in lit_outside.
Qed.

Lemma outside_dot : starts_outside is_dot lit.
Proof.
  destruct lit as [|a l]; [contradiction|]. simpl in *.
  unfold Part000.is_digit_or_dot in lit_outside.
  now apply orb_false_iff in lit_outside.
Qed.

Lemma decimal_keyword :
  exists rest g,
    decimal_pattern lit = {| JS.before := JS.Lit lit :: rest; JS.group := g |}.
Proof. unfold decimal_pattern. eauto. Qed.

Lemma loose_keyword :
  exists rest g,
    loose_pattern lit = {| JS.before := JS.Lit lit :: rest; JS.group := g |}.
Proof. unfold loose_pattern. eauto. Qed.

(** Characters the keyword cannot begin with are passed over. *)
Lemma exec_after re p s :
  starts_outside p lit ->
  (exists rest g, re = {| JS.before := JS.Lit lit :: rest; JS.group := g |}) ->
  JS.exec re (after p s) = JS.exec re s.
Proof.
  intros Hp Hre. rewrite <- (run_after p s) at 2.
  symmetry. apply (exec_skip lit lit_outside re p); auto. apply only_run.
Qed.

Lemma exec_skip_dot re s :
  (exists rest g, re = {| JS.before := JS.Lit lit :: rest; JS.group := g |}) ->
  JS.exec re (skip_dot s) = JS.exec re s.
Proof.
  intros Hre. destruct s as [|c t]; [reflexivity|]. simpl.
  destruct (is_dot c) eqn:E; [|reflexivity].
  symmetry. apply (exec_skip lit lit_outside re is_dot (String c "") t); auto.
  - apply outside_dot.
  - unfold only. now rewrite after_cons, E.
Qed.

(** What is left after a field holds the matches of the text the field
    began. *)
Lemma exec_rest_decimal s :
  JS.exec (decimal_pattern lit) (rest_decimal s)
  = JS.exec (decimal_pattern lit) s.
Proof.
  unfold rest_decimal.
  rewrite (exec_after _ JS.is_digit), exec_skip_dot, (exec_after _ JS.is_digit);
    auto using outside_digit, decimal_keyword.
Qed.

Lemma timestamp_text q R :
  timestamp_follows q = true ->
  after JS.is_space (q ++ R) = after JS.is_space q ++ R /\
  head_is JS.is_digit (after JS.is_space q ++ R) = true.
Proof.
  unfold timestamp_follows. rewrite trimStart_after. intros H. split.
  - apply after_app_left. intros E. now rewrite E in H.
  - destruct (after JS.is_space q); [discriminate | exact H].
Qed.

(** On a keyword followed by a timestamp each pattern matches, and goes on
    with the matches of what follows the piece. *)
Lemma decimal_event q R :
  quiet lit q = true -> timestamp_follows q = true ->
  exists m1 rest,
    JS.exec (decimal_pattern lit) ((lit ++ q) ++ R) = Some (m1, rest) /\
    JS.exec (decimal_pattern lit) rest = JS.exec (decimal_pattern lit) R.
Proof.
  intros Hq Ht. destruct (timestamp_text q R Ht) as [E H].
  rewrite exec_unfold, matchAt_decimal, append_assoc, strip_prefix_self.
  cbv zeta. rewrite E, H. eexists. eexists. split; [reflexivity|].
  rewrite exec_rest_decimal.
  apply (exec_quiet lit _ decimal_keyword). now apply quiet_after.
Qed.

Lemma loose_event q R :
  quiet lit q = true -> timestamp_follows q = true ->
  exists m1 rest,
    JS.exec (loose_pattern lit) ((lit ++ q) ++ R) = Some (m1, rest) /\
    JS.exec (loose_pattern lit) rest = JS.exec (loose_pattern lit) R.
Proof.
  intros Hq Ht. destruct (timestamp_text q R Ht) as [E H].
  rewrite exec_unfold, matchAt_loose, append_assoc, strip_prefix_self.
  cbv zeta. rewrite E.
  assert (H' : head_is dd (after JS.is_space q ++ R) = true).
  { destruct (after JS.is_space q ++ R) as [|c t]; [discriminate|].
    simpl in *. now apply digit_is_dd. }
  rewrite H'. eexists. eexists. split; [reflexivity|].
  rewrite (exec_after _ dd) by auto using loose_keyword.
  apply (exec_quiet lit _ loose_keyword). now apply quiet_after.
Qed.

End Events.

Section Counting.

Context {B : Type}.
Variables (lit : string) (re : JS.regex) (f : string -> B).
Variable mine : piece -> bool.

Hypothesis re_keyword :
  exists rest g, re = {| JS.before := JS.Lit lit :: rest; JS.group := g |}.
Hypothesis lit_not_empty : lit <> "".

Lemma exec_empty : JS.exec re "" = None.
Proof.
  destruct re_keyword as (rest & g & ->). cbn [JS.exec]. unfold JS.matchAt.
  cbn [JS.before JS.matchAtoms].
  destruct lit; [contradiction | reflexivity].
Qed.

(** The loop pushes one element per piece of its kind. *)
Lemma execLoop_count (r : list piece) :
  Forall (sorted_out lit re mine) r ->
  forall fuel out,
    (String.length (report_text r) < fuel)%nat ->
    exists l,
      JS.execLoop fuel re f (report_text r) out = Some l /\
      List.length l = (List.length out + List.length (filter mine r))%nat.
Proof.
  induction 1 as [|p r Hp Hr IH]; intros fuel out Hlt.
  - destruct fuel as [|fuel]; [lia|]. exists out. cbn [JS.execLoop].
    unfold report_text. cbn [map String.concat]. rewrite exec_empty.
    split; [reflexivity | simpl; lia].
  - unfold report_text in *. cbn [map] in *. rewrite concat_cons in *.
    rewrite length_append in Hlt. unfold sorted_out in Hp. cbn [filter].
    destruct (mine p).
    + destruct Hp as (Hne & HR).
      destruct (HR (String.concat "" (map piece_text r)))
        as (m1 & rest & E1 & E2).
      destruct fuel as [|fuel]; [lia|]. cbn [JS.execLoop]. rewrite E1.
      rewrite (execLoop_ext _ _ _ _ _ _ E2).
      assert (Hl : (0 < String.length (piece_text p))%nat).
      { destruct (piece_text p); [contradiction | simpl; lia]. }
      destruct (IH fuel (out ++ [f m1])%list) as (l & Hl1 & Hl2); [lia|].
      exists l. split; [exact Hl1|]. rewrite Hl2, length_app. simpl. lia.
    + rewrite (execLoop_ext _ _ _ _ _ _ (exec_quiet lit re re_keyword _ _ Hp)).
      apply IH. lia.
Qed.

End Counting.

Section EngineReports.

Lemma alternates_counts r : forall inside,
  alternates inside r = true ->
  let starts := List.length (filter is_start r) in
  let ends := List.length (filter is_end r) in
  if inside then ends = starts \/ ends = S starts
  else starts = ends \/ starts = S ends.
Proof.
  induction r as [|p r IH]; intros inside H; cbv zeta.
  - destruct inside; now left.
  - destruct p as [q|q|q]; cbn [alternates filter is_start is_end] in *.
    + now apply IH.
    + apply andb_prop in H as [Hi H]. apply negb_true_iff in Hi. subst.
      apply IH in H. cbv zeta in H. cbn [List.length]. lia.
    + apply andb_prop in H as [Hi H]. subst.
      apply IH in H. cbv zeta in H. cbn [List.length]. lia.
Qed.

Lemma pieces_ok r :
  forallb piece_ok r = true -> Forall (fun p => piece_ok p = true) r.
Proof. intros H. apply Forall_forall. now apply forallb_forall. Qed.

(** The pieces of a report are sorted out by each of the four patterns. *)
Lemma start_sorted_decimal p :
  piece_ok p = true ->
  sorted_out "silence_start:" (decimal_pattern "silence_start:") is_start p.
Proof.
  destruct p as [q|q|q]; unfold sorted_out; cbn [is_start piece_ok piece_text];
    intros H; repeat (apply andb_prop in H as [H ?]); auto.
  split; [discriminate|]. intros R.
  now apply (decimal_event "silence_start:" eq_refl).
Qed.

Lemma end_sorted_decimal p :
  piece_ok p = true ->
  sorted_out "silence_end:" (decimal_pattern "silence_end:") is_end p.
Proof.
  destruct p as [q|q|q]; unfold sorted_out; cbn [is_end piece_ok piece_text];
    intros H; repeat (apply andb_prop in H as [H ?]); auto.
  split; [discriminate|]. intros R.
  now apply (decimal_event "silence_end:" eq_refl).
Qed.

Lemma start_sorted_loose p :
  piece_ok p = true ->
  sorted_out "silence_start:" (loose_pattern "silence_start:") is_start p.
Proof.
  destruct p as [q|q|q]; unfold sorted_out; cbn [is_start piece_ok piece_text];
    intros H; repeat (apply andb_prop in H as [H ?]); auto.
  split; [discriminate|]. intros R.
  now apply (loose_event "silence_start:" eq_refl).
Qed.

Lemma end_sorted_loose p :
  piece_ok p = true ->
  sorted_out "silence_end:" (loose_pattern "silence_end:") is_end p.
Proof.
  destruct p as [q|q|q]; unfold sorted_out; cbn [is_end piece_ok piece_text];
    intros H; repeat (apply andb_prop in H as [H ?]); auto.
  split; [discriminate|]. intros R.
  now apply (loose_event "silence_end:" eq_refl).
Qed.

End EngineReports.

(** C9. On every report of the detection engine (keywords followed by a
    timestamp, silence starts and silence ends taking turns, other text
    holding no keyword), each variant extracts one silence start per
    [silence_start:] and one silence end per [silence_end:]; the two
    sequences have the same length, or there is one start more (an interval
    that had begun when the report ended). *)
Theorem C9_lengths_differ_by_at_most_one : forall r : list piece,
  engine_report r = true ->
  (exists starts ends,
     ChapterCracker.silenceStarts (report_text r) = Some starts /\
     ChapterCracker.silenceEnds (report_text r) = Some ends /\
     List.length starts = List.length (filter is_start r) /\
     List.length ends = List.length (filter is_end r) /\
     (List.length starts = List.length ends \/
      List.length starts = S (List.length ends))) /\
  (exists starts ends,
     Part000.silenceStarts (report_text r) = Some starts /\
     Part000.silenceEnds (report_text r) = Some ends /\
     List.length starts = List.length (filter is_start r) /\
     List.length ends = List.length (filter is_end r) /\
     (List.length starts = List.length ends \/
      List.length starts = S (List.length ends))).
Proof.
  intros r H. apply andb_prop in H as [Hok Halt].
  apply pieces_ok in Hok. pose proof (alternates_counts r false Halt) as Hc.
  cbv zeta in Hc.
  set (n := S (String.length (report_text r))).
  assert (Hn : (String.length (report_text r) < n)%nat) by (unfold n; lia).
  split.
  - destruct (execLoop_count "silence_start:"
                (decimal_pattern "silence_start:") JS.parseFloat is_start
                (decimal_keyword _) ltac:(discriminate) r
                (Forall_impl _ start_sorted_decimal Hok) n [] Hn)
      as (ss & Hs1 & Hs2).
    destruct (execLoop_count "silence_end:"
                (decimal_pattern "silence_end:") JS.parseFloat is_end
                (decimal_keyword _) ltac:(discriminate) r
                (Forall_impl _ end_sorted_decimal Hok) n [] Hn)
      as (es & He1 & He2).
    exists ss, es. simpl in Hs2, He2. rewrite Hs2, He2. auto.
  - destruct (execLoop_count "silence_start:"
                (loose_pattern "silence_start:") JS.parseFloat is_start
                (loose_keyword _) ltac:(discriminate) r
                (Forall_impl _ start_sorted_loose Hok) n [] Hn)
      as (ss & Hs1 & Hs2).
    destruct (execLoop_count "silence_end:"
                (loose_pattern "silence_end:") JS.parseFloat is_end
                (loose_keyword _) ltac:(discriminate) r
                (Forall_impl _ end_sorted_loose Hok) n [] Hn)
      as (es & He1 & He2).
    exists ss, es. simpl in Hs2, He2. rewrite Hs2, He2. auto.
Qed.

Lemma C9_lengths_differ_by_at_most_one_witness :
  exists starts ends,
    ChapterCracker.silenceStarts (report_text dangling_report) = Some starts /\
    ChapterCracker.silenceEnds (report_text dangling_report) = Some ends /\
    List.length starts = 3%nat /\ List.length ends = 2%nat.
Proof.
  destruct (C9_lengths_differ_by_at_most_one dangling_report eq_refl)
    as ((ss & es & H1 & H2 & H3 & H4 & _) & _).
  exists ss, es. repeat split; assumption.
Defined.

Lemma entries_nth_inv chs D i e :
  nth_error (entries chs D) i = Some e ->
  exists c,
    nth_error chs i = Some c /\
    e = {| START := ms (start c); END := endMs chs D i;
           entry_title := title c |}.
Proof.
  intros H. destruct (nth_error chs i) as [c|] eqn:Hc.
  - exists c. split; [reflexivity|].
    rewrite (entries_nth _ D _ _ Hc) in H. now injection H as <-.
  - apply nth_error_None in Hc. rewrite <- (entries_length chs D) in Hc.
    apply nth_error_None in Hc. congruence.
Qed.

(** C7, amended. Every chapter inferred from silence ends that are all at
    least 0 starts at 0 or later, and the timestamps
    [src/chapter-cracker.ts] extracts are all at least 0; the chapter at
    index [i] bears the non-empty title "Chapter i+1", which no other
    chapter of the sequence bears.  In the emitted records, where the
    START of a record is the integer [a] and the START of the next one the
    integer [b] (below [2 ^ 53]), end > start holds exactly when
    [b - 1 > a]; for the last record, exactly when [floor(D * 1000) > a]. *)
Theorem C7_chapter_invariants : forall (ends : list JS.number) (D : JS.number),
  Forall (fun t => JS.ge t (JS.of_Z 0) = true) ends ->
  let chs := ChapterCracker.chapters ends in
  let es := entries chs D in
  Part000.chapters ends = chs /\
  (forall i c, nth_error chs i = Some c ->
     JS.ge (start c) (JS.of_Z 0) = true /\
     title c = "Chapter " ++ JS.string_of_nat (i + 1) /\
     title c <> "") /\
  (forall i j c c',
     nth_error chs i = Some c -> nth_error chs j = Some c' ->
     title c = title c' -> i = j) /\
  (forall text, exists extracted,
     ChapterCracker.silenceEnds text = Some extracted /\
     Forall (fun t => JS.ge t (JS.of_Z 0) = true) extracted) /\
  ChapterCracker.metadata chs D = Some (document es) /\
  Part000.metadata chs D = Some (document es) /\
  (forall i e e' a b,
     nth_error es i = Some e -> nth_error es (i + 1) = Some e' ->
     START e = JS.of_Z a -> START e' = JS.of_Z b ->
     Z.abs a < 2 ^ 53 -> 0 <= b < 2 ^ 53 ->
     JS.gt (END e) (START e) = (a <? b - 1)) /\
  (forall e a d,
     nth_error es (List.length ends) = Some e ->
     START e = JS.of_Z a -> JS.floor (JS.mul D (JS.of_Z 1000)) = JS.of_Z d ->
     Z.abs a < 2 ^ 53 -> Z.abs d < 2 ^ 53 ->
     JS.gt (END e) (START e) = (a <? d)).
Proof.
  intros ends D Hge chs es. subst chs es. split; [reflexivity|].
  split; [|split; [|split; [|split; [|split; [|split]]]]].
  - intros i c H. apply inferred_entry in H as [Ht Hs]. split; [|split].
    + destruct Hs as [-> | Hin]; [reflexivity|].
      rewrite Forall_forall in Hge. now apply Hge.
    + exact Ht.
    + rewrite Ht. discriminate.
  - intros i j c c' Hi Hj E.
    apply inferred_entry in Hi as [Hi _]. apply inferred_entry in Hj as [Hj _].
    rewrite Hi, Hj in E. injection E as E.
    apply string_of_nat_inj in E. lia.
  - intros text. destruct (ChapterCracker_ends_signed text) as (l & Hl & Fl).
    exists l. split; [exact Hl|].
    eapply Forall_impl; [|exact Fl]. apply signed_ge_0.
  - apply metadata_ChapterCracker.
  - apply metadata_Part000.
  - intros i e e' a b He He' Ha Hb Ba Bb.
    apply entries_nth_inv in He as (c & Hc & ->).
    apply entries_nth_inv in He' as (c' & Hc' & ->).
    cbn [START END] in *. unfold endMs. rewrite Hc', Ha, Hb.
    rewrite sub_of_Z by lia. apply gt_of_Z; lia.
  - intros e a d He Ha Hd Ba Bd.
    apply entries_nth_inv in He as (c & Hc & ->).
    cbn [START END] in *. unfold endMs.
    replace (nth_error (ChapterCracker.chapters ends) (List.length ends + 1))
      with (@None Chapter)
      by (symmetry; apply nth_error_None; rewrite inferred_length; lia).
    unfold ms in *. rewrite Ha, Hd. now apply gt_of_Z.
Qed.

(** An instance of C7: two silence ends at 5 s and a duration of 10 s; the
    second record starts at 5000 and the third at 5000, so its end is not
    above its start. *)
Lemma C7_chapter_invariants_witness :
  JS.gt (JS.of_Z 4999) (JS.of_Z 5000) = (5000 <? 5000 - 1).
Proof.
  assert (H : Forall (fun t => JS.ge t (JS.of_Z 0) = true)
                [JS.of_Z 5; JS.of_Z 5]) by (repeat constructor).
  destruct (C7_chapter_invariants [JS.of_Z 5; JS.of_Z 5] (JS.of_Z 10) H)
    as (_ & _ & _ & _ & _ & _ & Hmid & _).
  refine (Hmid 1%nat
            {| START := JS.of_Z 5000; END := JS.of_Z 4999;
               entry_title := "Chapter 2" |}
            {| START := JS.of_Z 5000; END := JS.of_Z 10000;
               entry_title := "Chapter 3" |}
            5000 5000 eq_refl eq_refl eq_refl eq_refl _ _);
    [reflexivity | split; [discriminate | reflexivity]].
Defined.

(* ===================================================================== *)
(** ** Numbers of the format *)
(* ===================================================================== *)

Section Format.

Local Notation "'fexp64'" := (fexp JS.prec JS.emax).

Lemma fexp_eq k : fexp64 k = Z.max (k - 53) (-1074).
Proof. reflexivity. Qed.

(** The number of binary digits of a mantissa. *)
Lemma digits_bounds p :
  2 ^ (Zpos (digits2_pos p) - 1) <= Zpos p < 2 ^ Zpos (digits2_pos p).
Proof.
  rewrite digits2_size.
  pose proof (Pos.size_le p) as L. pose proof (Pos.size_gt p) as G.
  apply Pos2Z.pos_le_pos in L. apply Pos2Z.pos_lt_pos in G.
  rewrite Pos2Z.inj_pow in L, G. rewrite (Pos2Z.inj_xO p) in L.
  split; [|exact G].
  replace (2 ^ Zpos (Pos.size p))
    with (2 * 2 ^ (Zpos (Pos.size p) - 1)) in L; [lia|].
  rewrite <- Z.pow_succ_r by lia. f_equal. lia.
Qed.

Lemma digits_unique p d :
  2 ^ (d - 1) <= Zpos p < 2 ^ d -> Zpos (digits2_pos p) = d.
Proof.
  intros [L G]. pose proof (digits_bounds p) as [L' G'].
  set (n := Zpos (digits2_pos p)) in *.
  destruct (Z.lt_trichotomy n d) as [H|[H|H]]; [|exact H|].
  - assert (2 ^ n <= 2 ^ (d - 1)) by (apply Z.pow_le_mono_r; lia). lia.
  - assert (0 <= d).
    { destruct (Z.le_gt_cases 0 d) as [|N]; [assumption|].
      rewrite (Z.pow_neg_r 2 d) in G by lia. lia. }
    assert (2 ^ d <= 2 ^ (n - 1)) by (apply Z.pow_le_mono_r; lia). lia.
Qed.

Lemma Zdigits2_nonneg z : 0 <= Zdigits2 z.
Proof. destruct z; simpl; lia. Qed.

(** The digits of a quotient by a power of two. *)
Lemma digits_quotient m k :
  0 < m -> 0 <= k -> 0 < m / 2 ^ k ->
  Zdigits2 (m / 2 ^ k) = Zdigits2 m - k.
Proof.
  intros Hm Hk Hq. destruct m as [|p|p]; try lia.
  pose proof (digits_bounds p) as [L G]. cbn [Zdigits2].
  set (d := Zpos (digits2_pos p)) in *.
  assert (P : 0 < 2 ^ k) by (apply Z.pow_pos_nonneg; lia).
  assert (Hge : 2 ^ k <= Zpos p).
  { destruct (Z.le_gt_cases (2 ^ k) (Zpos p)) as [|N]; [assumption|].
    rewrite Z.div_small in Hq by lia. lia. }
  assert (Hkd : k < d).
  { destruct (Z.lt_ge_cases k d) as [|N]; [assumption|].
    assert (2 ^ d <= 2 ^ k) by (apply Z.pow_le_mono_r; lia). lia. }
  destruct (Zpos p / 2 ^ k) as [|q|q] eqn:Eq; try lia.
  cbn [Zdigits2]. apply digits_unique. rewrite <- Eq. split.
  - apply Z.div_le_lower_bound; [exact P|].
    rewrite <- Z.pow_add_r by lia. replace (k + (d - k - 1)) with (d - 1) by lia.
    exact L.
  - apply Z.div_lt_upper_bound; [exact P|].
    rewrite <- Z.pow_add_r by lia. replace (k + (d - k)) with d by lia.
    exact G.
Qed.

(** Shifting to the right divides the mantissa. *)
Lemma shr_1_m r : 0 <= shr_m r -> shr_m (shr_1 r) = shr_m r / 2.
Proof.
  intros H. rewrite <- Z.div2_div.
  destruct r as [m a b]. cbn [shr_m] in *.
  destruct m as [|[p|p|]|p]; try lia; reflexivity.
Qed.

Lemma shr_iter_m r k :
  0 <= shr_m r ->
  shr_m (iter_pos shr_1 k r) = shr_m r / 2 ^ Zpos k.
Proof.
  intros H. rewrite iter_pos_iter.
  induction k as [|k IH] using Pos.peano_ind.
  - cbn [Pos.iter]. rewrite shr_1_m by exact H. reflexivity.
  - rewrite Pos.iter_succ, shr_1_m.
    + rewrite IH, Z.div_div, Pos2Z.inj_succ, Z.pow_succ_r by lia.
      f_equal. lia.
    + rewrite IH. apply Z.div_pos; [exact H|].
      apply Z.pow_pos_nonneg; lia.
Qed.

Lemma shr_record_m m l : shr_m (shr_record_of_loc m l) = m.
Proof. destruct l as [|[| |]]; reflexivity. Qed.

(** [shr_fexp] brings the exponent up to the one of the format. *)
Lemma shr_fexp_spec m e l :
  0 <= m ->
  let k := Z.max 0 (fexp64 (Zdigits2 m + e) - e) in
  shr_m (fst (shr_fexp JS.prec JS.emax m e l)) = m / 2 ^ k /\
  snd (shr_fexp JS.prec JS.emax m e l) = e + k.
Proof.
  intros Hm. cbv zeta. unfold shr_fexp, shr.
  destruct (fexp64 (Zdigits2 m + e) - e) as [|p|p] eqn:E; cbn [fst snd].
  - rewrite shr_record_m. cbn [Z.max Z.compare]. rewrite Z.div_1_r. lia.
  - rewrite shr_iter_m by (rewrite shr_record_m; exact Hm).
    rewrite shr_record_m. rewrite Z.max_r by lia. split; reflexivity.
  - rewrite shr_record_m. rewrite Z.max_l by lia.
    change (2 ^ 0) with 1. rewrite Z.div_1_r. lia.
Qed.

Lemma round_nearest_even_cases m l :
  round_nearest_even m l = m \/ round_nearest_even m l = m + 1.
Proof.
  destruct l as [|[| |]]; cbn [round_nearest_even]; auto.
  destruct (Z.even m); auto.
Qed.

(** The last step of a rounding gives a number of the format. *)
Lemma renormalize_valid s m e :
  0 <= m <= 2 ^ 53 -> -1074 <= e -> (-1074 < e -> 2 ^ 52 <= m) ->
  binary64
    (match shr_m (fst (shr_fexp JS.prec JS.emax m e loc_Exact)) with
     | Z0 => S754_zero s
     | Zpos m' =>
         if snd (shr_fexp JS.prec JS.emax m e loc_Exact)
            <=? JS.emax - JS.prec
         then S754_finite s m' (snd (shr_fexp JS.prec JS.emax m e loc_Exact))
         else S754_infinity s
     | Zneg _ => S754_nan
     end).
Proof.
  intros Hm He Hn.
  destruct (shr_fexp_spec m e loc_Exact ltac:(lia)) as [Em Ee].
  rewrite Em, Ee. clear Em Ee.
  set (k := Z.max 0 (fexp64 (Zdigits2 m + e) - e)).
  destruct (m / 2 ^ k) as [|m'|m'] eqn:Eq; [reflexivity| |reflexivity].
  destruct (e + k <=? JS.emax - JS.prec) eqn:Eb; [|reflexivity].
  unfold binary64, valid_binary, bounded. rewrite Eb, andb_true_r.
  unfold canonical_mantissa. apply Z.eqb_eq.
  assert (M0 : 0 < m).
  { destruct (Z.eq_dec m 0) as [->|]; [|lia].
    rewrite Z.div_0_l in Eq by (apply Z.pow_nonzero; unfold k; lia).
    discriminate. }
  destruct m as [|p|p]; try lia.
  pose proof (digits_bounds p) as [L G].
  assert (E53 : 2 ^ 53 = 2 * 2 ^ 52) by reflexivity.
  destruct (Z.eq_dec (Zpos p) (2 ^ 53)) as [T|T].
  - (* the mantissa carried into a 54th digit *)
    assert (D : Zpos (digits2_pos p) = 54).
    { apply digits_unique. rewrite T.
      split; [vm_compute; discriminate | reflexivity]. }
    assert (K : k = 1).
    { unfold k. cbn [Zdigits2]. rewrite D, fexp_eq. lia. }
    rewrite K, T in Eq. change (2 ^ 53 / 2 ^ 1) with (2 ^ 52) in Eq.
    assert (D' : Zpos (digits2_pos m') = 53).
    { apply digits_unique. rewrite <- Eq.
      split; [vm_compute; discriminate | reflexivity]. }
    rewrite D', K, fexp_eq. lia.
  - assert (D : Zpos (digits2_pos p) <= 53).
    { destruct (Z.le_gt_cases (Zpos (digits2_pos p)) 53) as [|N];
        [assumption|].
      assert (2 ^ 53 <= 2 ^ (Zpos (digits2_pos p) - 1))
        by (apply Z.pow_le_mono_r; lia). lia. }
    assert (D2 : -1074 < e -> Zpos (digits2_pos p) = 53).
    { intros H. apply Hn in H. apply digits_unique. lia. }
    assert (K : k = 0).
    { unfold k. cbn [Zdigits2]. rewrite fexp_eq. lia. }
    rewrite K in *. change (2 ^ 0) with 1 in Eq. rewrite Z.div_1_r in Eq.
    injection Eq as ->. rewrite Z.add_0_r, fexp_eq. lia.
Qed.

(** Rounding a mantissa that is fine enough for its exponent gives a
    number of the format. *)
Lemma binary_round_aux_valid s m e l :
  e <= fexp64 (Zpos (digits2_pos m) + e) ->
  binary64 (binary_round_aux JS.prec JS.emax s (Zpos m) e l).
Proof.
  intros Hf. unfold binary_round_aux.
  destruct (shr_fexp_spec (Zpos m) e l ltac:(lia)) as [Em Ee].
  destruct (shr_fexp JS.prec JS.emax (Zpos m) e l) as [mrs1 e1].
  cbn [fst snd Zdigits2] in Em, Ee.
  pose proof (digits_bounds m) as [L G].
  set (d := Zpos (digits2_pos m)) in *.
  assert (Hd : 1 <= d) by (unfold d; lia).
  rewrite Z.max_r in Em, Ee by lia.
  set (k := fexp64 (d + e) - e) in *.
  assert (Hk : 0 <= k) by (unfold k; lia).
  assert (He1 : e1 = Z.max (d + e - 53) (-1074))
    by (rewrite Ee; unfold k; rewrite fexp_eq; lia).
  assert (P : 0 < 2 ^ k) by (apply Z.pow_pos_nonneg; lia).
  assert (M1 : 0 <= shr_m mrs1 < 2 ^ 53).
  { rewrite Em. split; [apply Z.div_pos; lia|].
    apply Z.div_lt_upper_bound; [exact P|].
    rewrite <- Z.pow_add_r by lia.
    assert (2 ^ d <= 2 ^ (k + 53)) by (apply Z.pow_le_mono_r; lia). lia. }
  assert (M2 : -1074 < e1 -> 2 ^ 52 <= shr_m mrs1).
  { intros H. rewrite Em. apply Z.div_le_lower_bound; [exact P|].
    rewrite <- Z.pow_add_r by lia.
    replace (k + 52) with (d - 1) by (unfold k; rewrite fexp_eq; lia).
    exact L. }
  set (m2 := round_nearest_even (shr_m mrs1) (loc_of_shr_record mrs1)).
  assert (C : m2 = shr_m mrs1 \/ m2 = shr_m mrs1 + 1)
    by apply round_nearest_even_cases.
  pose proof (renormalize_valid s m2 e1) as R.
  destruct (shr_fexp JS.prec JS.emax m2 e1 loc_Exact) as [mrs2 e2].
  cbn [fst snd] in R. apply R; clear R.
  - lia.
  - lia.
  - intros H. apply M2 in H. lia.
Qed.

(** A product of numbers of the format is one. *)
Lemma digits_product p q :
  Zpos (digits2_pos p) + Zpos (digits2_pos q) - 1
  <= Zpos (digits2_pos (p * q)).
Proof.
  pose proof (digits_bounds p) as [Lp _].
  pose proof (digits_bounds q) as [Lq _].
  pose proof (digits_bounds (p * q)) as [_ G].
  set (dp := Zpos (digits2_pos p)) in *.
  set (dq := Zpos (digits2_pos q)) in *.
  set (d := Zpos (digits2_pos (p * q))) in *.
  assert (1 <= dp) by (unfold dp; lia).
  assert (1 <= dq) by (unfold dq; lia).
  destruct (Z.le_gt_cases (dp + dq - 1) d) as [|N]; [assumption|exfalso].
  assert (H2 : 2 ^ d <= 2 ^ (dp + dq - 2)) by (apply Z.pow_le_mono_r; unfold d; lia).
  replace (dp + dq - 2) with ((dp - 1) + (dq - 1)) in H2 by lia.
  rewrite Z.pow_add_r in H2 by lia.
  rewrite Pos2Z.inj_mul in G. nia.
Qed.

Lemma canonical_cases m e :
  bounded JS.prec JS.emax m e = true ->
  -1074 <= e /\ Zpos (digits2_pos m) <= 53 /\
  (-1074 < e -> Zpos (digits2_pos m) = 53).
Proof.
  unfold bounded, canonical_mantissa. intros H.
  apply andb_true_iff in H as [H _]. apply Z.eqb_eq in H.
  rewrite fexp_eq in H. lia.
Qed.

Lemma mul_valid x y :
  binary64 x -> binary64 y -> binary64 (JS.mul x y).
Proof.
  unfold JS.mul.
  destruct x as [sx|sx| |sx mx ex], y as [sy|sy| |sy my ey];
    try reflexivity.
  intros Hx Hy. cbn [SFmul]. apply binary_round_aux_valid.
  apply canonical_cases in Hx as (Ex & Dx & Nx).
  apply canonical_cases in Hy as (Ey & Dy & Ny).
  pose proof (digits_product mx my) as Dp.
  assert (1 <= Zpos (digits2_pos mx)) by lia.
  assert (1 <= Zpos (digits2_pos my)) by lia.
  rewrite fexp_eq. lia.
Qed.

(** What [binary_normalize] returns is a number of the format. *)
Lemma binary_round_valid s m e :
  binary64 (binary_round JS.prec JS.emax s m e).
Proof.
  unfold binary_round.
  set (e' := fexp64 (Zpos (digits2_pos m) + e)).
  destruct (Z.le_gt_cases e' e) as [H|H].
  - pose proof (shl_align_value m e e' H) as [_ E2].
    pose proof (shl_align_digits m e e' H) as D.
    destruct (shl_align m e e') as [mz ez]. cbn [fst snd] in *. subst ez.
    apply binary_round_aux_valid. rewrite D.
    replace (Zpos (digits2_pos m) + (e - e') + e')
      with (Zpos (digits2_pos m) + e) by lia.
    fold e'. lia.
  - assert (E : shl_align m e e' = (m, e)).
    { unfold shl_align. destruct (e' - e) eqn:E; try lia; reflexivity. }
    rewrite E. apply binary_round_aux_valid. fold e'. lia.
Qed.

Lemma binary_normalize_valid z e :
  binary64 (binary_normalize JS.prec JS.emax z e false).
Proof.
  destruct z; [reflexivity|apply binary_round_valid..].
Qed.

Lemma of_Z_valid z : binary64 (JS.of_Z z).
Proof. apply binary_normalize_valid. Qed.

Lemma of_decimal_valid s m e : binary64 (JS.of_decimal s m e).
Proof.
  unfold JS.of_decimal. destruct m as [|p|p]; try reflexivity.
  destruct (0 <=? e); unfold JS.of_ratio; apply binary_normalize_valid.
Qed.

(** Every number [parseFloat] returns is a number of the format. *)
Lemma parseUnsigned_valid s x : binary64 (JS.parseUnsigned s x).
Proof.
  unfold JS.parseUnsigned.
  destruct (String.prefix "Infinity" x); [reflexivity|].
  destruct (JS.span JS.is_digit x) as [ip s2].
  destruct (match s2 with
            | String "." r => JS.span JS.is_digit r
            | _ => ("", s2)
            end) as [fp s3].
  destruct (ip ++ fp); [reflexivity | apply of_decimal_valid].
Qed.

Lemma parseFloat_valid x : binary64 (JS.parseFloat x).
Proof.
  unfold JS.parseFloat.
  destruct (JS.trimStart x) as [|c r]; [apply parseUnsigned_valid|].
  destruct c as [[|] [|] [|] [|] [|] [|] [|] [|]];
    apply parseUnsigned_valid.
Qed.

End Format.

(* ===================================================================== *)
(** ** Milliseconds are integers *)
(* ===================================================================== *)

Section Milliseconds.

(** An integer of 53 digits is its own mantissa. *)
Lemma of_Z_53 s m :
  Zpos (digits2_pos m) = 53 ->
  JS.of_Z (cond_Zopp s (Zpos m)) = S754_finite s m 0.
Proof.
  intros D. assert (D' : digits2_pos m = 53%positive) by lia.
  pose proof (size_53_bounds m D') as B.
  destruct (of_Z_pos_form m ltac:(lia)) as (m' & e' & H & He & Hm & Dm).
  pose proof (size_53_bounds m' Dm) as B'.
  assert (e' = 0).
  { destruct (Z.eq_dec e' 0) as [|N]; [assumption|exfalso].
    assert (2 ^ 1 <= 2 ^ (- e')) by (apply Z.pow_le_mono_r; lia).
    change (2 ^ 1) with 2 in *.
    assert (E53 : 2 ^ 53 = 2 * 2 ^ 52) by reflexivity. nia. }
  subst e'. change (2 ^ (- 0)) with 1 in Hm. rewrite Z.mul_1_r in Hm.
  injection Hm as ->.
  destruct s; cbn [cond_Zopp]; [exact (H true) | exact (H false)].
Qed.

(** The floor of a number of the format that is at least 0 and below
    [2 ^ 53] is an integer in that range. *)
Lemma floor_integer p :
  binary64 p ->
  JS.ge p (JS.of_Z 0) = true -> JS.gt (JS.of_Z (2 ^ 53)) p = true ->
  exists a, 0 <= a < 2 ^ 53 /\ integer (JS.floor p) a.
Proof.
  intros V Hge Hgt. destruct p as [s|s| |s m e].
  - exists 0. split; [split; [lia | reflexivity]|].
    destruct s; [right; now split | left; reflexivity].
  - destruct s; discriminate.
  - discriminate.
  - destruct s; [discriminate Hge|].
    apply canonical_cases in V as (Ve & Vd & Vn).
    pose proof (digits_bounds m) as [L G].
    assert (M : Zpos m < 2 ^ 53).
    { assert (2 ^ Zpos (digits2_pos m) <= 2 ^ 53)
        by (apply Z.pow_le_mono_r; lia). lia. }
    assert (He : e <= 0).
    { unfold JS.gt, SFltb in Hgt.
      change (JS.of_Z (2 ^ 53))
        with (S754_finite false 4503599627370496 1) in Hgt.
      cbn [SFcompare] in Hgt.
      destruct (e ?= 1) eqn:C; try discriminate Hgt.
      - apply Z.compare_eq in C. subst e.
        rewrite (Vn ltac:(lia)) in L.
        destruct (Pos.compare_cont Eq m 4503599627370496) eqn:C2;
          try discriminate Hgt.
        assert (C3 : (m < 4503599627370496)%positive) by exact C2.
        change (2 ^ (53 - 1)) with 4503599627370496 in L.
        apply Pos2Z.pos_lt_pos in C3.
        exfalso. exact (proj1 (Z.lt_nge _ _) C3 L).
      - pose proof (proj1 (Z.compare_lt_iff e 1) C) as C'. clear - C'. lia. }
    cbn [JS.floor]. destruct (0 <=? e) eqn:E0.
    + apply Z.leb_le in E0. assert (e = 0) by lia. subst e.
      assert (Vd' : -1074 < 0) by lia. apply Vn in Vd'.
      exists (Zpos m). split; [lia|]. left.
      symmetry. exact (of_Z_53 false m Vd').
    + apply Z.leb_gt in E0. cbn [cond_Zopp].
      exists (Z.shiftr (Zpos m) (- e)). split; [|now left].
      rewrite Z.shiftr_div_pow2 by lia.
      assert (P : 0 < 2 ^ (- e)) by (apply Z.pow_pos_nonneg; lia).
      split; [apply Z.div_pos; lia|].
      apply Z.le_lt_trans with (Zpos m); [|exact M].
      apply Z.div_le_upper_bound; [exact P|]. nia.
Qed.

Lemma ms_integer t :
  safe_seconds t -> exists a, 0 <= a < 2 ^ 53 /\ integer (ms t) a.
Proof.
  intros (V & Hge & Hgt). apply floor_integer; try assumption.
  apply mul_valid; [exact V | apply of_Z_valid].
Qed.

Lemma safe_seconds_0 : safe_seconds (JS.of_Z 0).
Proof. repeat split. Qed.

(** An integer is printed as its numeral. *)
Lemma integer_toString x a :
  Z.abs a < 2 ^ 53 -> integer x a -> JS.toString x = JS.string_of_Z a.
Proof.
  intros Ha [->|[-> ->]]; [now apply toString_of_Z | reflexivity].
Qed.

(** One less than an integer is an integer. *)
Lemma integer_pred x b :
  Z.abs b < 2 ^ 53 -> integer x b ->
  integer (JS.sub x (JS.of_Z 1)) (b - 1).
Proof.
  intros Hb [->|[-> ->]]; left; [now apply sub_of_Z | reflexivity].
Qed.

End Milliseconds.

(* ===================================================================== *)
(** ** The numerals of the document *)
(* ===================================================================== *)

Section Numerals.

(** Every timestamp the pattern loops push is a number of the format. *)
Lemma ChapterCracker_ends_binary64 text :
  exists l, ChapterCracker.silenceEnds text = Some l /\ Forall binary64 l.
Proof.
  destruct (ChapterCracker_ends_total text) as [l Hl]. exists l.
  split; [exact Hl|]. revert Hl. apply execLoop_Forall; [|constructor].
  intros s m1 rest _. apply parseFloat_valid.
Qed.

Lemma Part000_ends_binary64 text :
  exists l, Part000.silenceEnds text = Some l /\ Forall binary64 l.
Proof.
  destruct (Part000_ends_total text) as [l Hl]. exists l.
  split; [exact Hl|]. revert Hl. apply execLoop_Forall; [|constructor].
  intros s m1 rest _. apply parseFloat_valid.
Qed.

(** The START of every record inferred from safe silence ends is an
    integer of milliseconds. *)
Lemma inferred_start_integer ends i c :
  Forall safe_seconds ends ->
  nth_error (ChapterCracker.chapters ends) i = Some c ->
  exists a, 0 <= a < 2 ^ 53 /\ integer (ms (start c)) a.
Proof.
  intros Hs Hc. apply ms_integer.
  assert (Hin : In (start c) (map start (ChapterCracker.chapters ends)))
    by (apply in_map, (nth_error_In _ _ Hc)).
  rewrite inferred_starts in Hin. destruct Hin as [<- | Hin].
  - apply safe_seconds_0.
  - rewrite Forall_forall in Hs. now apply Hs.
Qed.

End Numerals.

(** C4, amended. For the chapters inferred from any silence ends and any
    duration, the text both variants build is the header line
    [;FFMETADATA1], then one record per chapter in chapter order, made of
    the lines [[CHAPTER]], [TIMEBASE=1/1000], [START=] and [END=] with the
    millisecond numbers as JS prints them, [title=Chapter n] with [n] the
    ordinal, and one empty line; nothing follows the last record.  The
    timestamps and the duration the program reads are numbers of the binary64
    format; when every silence end and the duration are such numbers with
    [0 <= t * 1000 < 2 ^ 53], every START is an integer [a] with
    [0 <= a < 2 ^ 53] and every END an integer [b] with
    [-1 <= b < 2 ^ 53], and both are printed as their decimal numerals. *)
Theorem C4_document_format : forall (ends : list JS.number) (D : JS.number),
  exists es : list entry,
    let doc :=
      ";FFMETADATA1" ++ JS.LF ++
      String.concat ""
        (map (fun e =>
                "[CHAPTER]" ++ JS.LF ++
                "TIMEBASE=1/1000" ++ JS.LF ++
                "START=" ++ JS.toString (START e) ++ JS.LF ++
                "END=" ++ JS.toString (END e) ++ JS.LF ++
                "title=" ++ entry_title e ++ JS.LF ++ JS.LF) es) in
    ChapterCracker.metadata (ChapterCracker.chapters ends) D = Some doc /\
    Part000.metadata (Part000.chapters ends) D = Some doc /\
    map entry_title es
    = map (fun n => "Chapter " ++ JS.string_of_nat n)
          (seq 1 (List.length ends + 1)) /\
    map START es
    = map (fun t => JS.floor (JS.mul t (JS.of_Z 1000))) (JS.of_Z 0 :: ends) /\
    (forall text,
       (exists extracted,
          ChapterCracker.silenceEnds text = Some extracted /\
          Forall binary64 extracted) /\
       (exists extracted,
          Part000.silenceEnds text = Some extracted /\
          Forall binary64 extracted) /\
       binary64 (ChapterCracker.totalDuration text) /\
       binary64 (Part000.totalDuration text)) /\
    (Forall safe_seconds ends -> safe_seconds D ->
     Forall (fun e =>
               exists a b,
                 0 <= a < 2 ^ 53 /\ -1 <= b < 2 ^ 53 /\
                 integer (START e) a /\ integer (END e) b /\
                 JS.toString (START e) = JS.string_of_Z a /\
                 JS.toString (END e) = JS.string_of_Z b) es).
Proof.
  intros ends D. exists (entries (ChapterCracker.chapters ends) D).
  cbv zeta. split; [apply metadata_ChapterCracker|].
  split; [rewrite chapters_same; apply metadata_Part000|].
  split; [rewrite entries_titles; apply inferred_titles|].
  split; [|split].
  - rewrite entries_starts, <- (inferred_starts ends), map_map. reflexivity.
  - intros text. split; [apply ChapterCracker_ends_binary64|].
    split; [apply Part000_ends_binary64|].
    split; apply parseFloat_valid.
  - intros Hs HD. apply Forall_forall. intros e He.
    apply In_nth_error in He as [i He].
    apply entries_nth_inv in He as (c & Hc & ->). cbn [START END].
    destruct (inferred_start_integer ends i c Hs Hc) as (a & Ba & Ia).
    assert (Hb : exists b, -1 <= b < 2 ^ 53 /\
                           integer (endMs (ChapterCracker.chapters ends) D i) b).
    { unfold endMs.
      destruct (nth_error (ChapterCracker.chapters ends) (i + 1))
        as [cn|] eqn:Hn.
      - destruct (inferred_start_integer ends _ cn Hs Hn) as (b & Bb & Ib).
        exists (b - 1). split; [lia|]. apply integer_pred; [lia | exact Ib].
      - destruct (ms_integer D HD) as (b & Bb & Ib).
        exists b. split; [lia | exact Ib]. }
    destruct Hb as (b & Bb & Ib). exists a, b.
    split; [exact Ba|]. split; [exact Bb|].
    split; [exact Ia|]. split; [exact Ib|].
    split; apply integer_toString; try assumption; lia.
Qed.

(** An instance of C4: the silence ends 10.5 and 45.002 with a duration of
    100 seconds. *)
Lemma C4_document_format_witness :
  Forall safe_seconds [JS.parseFloat "10.500"; JS.parseFloat "45.002"] /\
  safe_seconds (JS.parseFloat "100.0") /\
  exists es : list entry,
    ChapterCracker.metadata
      (ChapterCracker.chapters [JS.parseFloat "10.500"; JS.parseFloat "45.002"])
      (JS.parseFloat "100.0") = Some (document es) /\
    Forall (fun e =>
              exists a b,
                0 <= a < 2 ^ 53 /\ -1 <= b < 2 ^ 53 /\
                integer (START e) a /\ integer (END e) b /\
                JS.toString (START e) = JS.string_of_Z a /\
                JS.toString (END e) = JS.string_of_Z b) es /\
    document es
    = ";FFMETADATA1
[CHAPTER]
TIMEBASE=1/1000
START=0
END=10499
title=Chapter 1

[CHAPTER]
TIMEBASE=1/1000
START=10500
END=45001
title=Chapter 2

[CHAPTER]
TIMEBASE=1/1000
START=45002
END=100000
title=Chapter 3

".
Proof.
  assert (S1 : safe_seconds (JS.parseFloat "10.500"))
    by (repeat split; vm_compute; reflexivity).
  assert (S2 : safe_seconds (JS.parseFloat "45.002"))
    by (repeat split; vm_compute; reflexivity).
  assert (SD : safe_seconds (JS.parseFloat "100.0"))
    by (repeat split; vm_compute; reflexivity).
  assert (Hs : Forall safe_seconds
                 [JS.parseFloat "10.500"; JS.parseFloat "45.002"])
    by (constructor; [exact S1 | constructor; [exact S2 | constructor]]).
  split; [exact Hs|]. split; [exact SD|].
  pose proof (C4_document_format
                [JS.parseFloat "10.500"; JS.parseFloat "45.002"]
                (JS.parseFloat "100.0")) as T.
  destruct T as (es & T). cbv zeta in T.
  destruct T as (H1 & _ & _ & _ & _ & HF).
  exists es. split; [exact H1|]. split; [exact (HF Hs SD)|].
  match goal with |- _ = ?text =>
    assert (E : Some (document es) = Some text)
  end.
  { transitivity
      (ChapterCracker.metadata
         (ChapterCracker.chapters
            [JS.parseFloat "10.500"; JS.parseFloat "45.002"])
         (JS.parseFloat "100.0")); [symmetry; exact H1|].
    vm_compute. reflexivity. }
  exact (f_equal (fun o => match o with Some d => d | None => "" end) E).
Defined.

(* ===================================================================== *)
(** ** The command line *)
(* ===================================================================== *)

Import Runtime Script.

Section CommandLine.

Local Notation "'parse'" := ChapterCrackerScript.parseArgs.

Lemma parseArgs_same : Part000Script.parseArgs = parse.
Proof. reflexivity. Qed.

(** What one iteration does. *)
Lemma parseArgs_done fuel args i c :
  nth_error args i = None -> parse (S fuel) args i c = ret c.
Proof. intros H. cbn [ChapterCrackerScript.parseArgs]. now rewrite H. Qed.

Lemma parseArgs_noise fuel args i c :
  nth_error args i = Some "--noise" ->
  parse (S fuel) args i c
  = parse fuel args (i + 1 + 1)
      {| inputFile := inputFile c; noiseThreshold := index args (i + 1);
         silenceDuration := silenceDuration c |}.
Proof. intros H. cbn [ChapterCrackerScript.parseArgs]. now rewrite H. Qed.

Lemma parseArgs_duration fuel args i c :
  nth_error args i = Some "--duration" ->
  parse (S fuel) args i c
  = parse fuel args (i + 1 + 1)
      {| inputFile := inputFile c; noiseThreshold := noiseThreshold c;
         silenceDuration := JS.parseFloat (ToString (index args (i + 1))) |}.
Proof. intros H. cbn [ChapterCrackerScript.parseArgs]. now rewrite H. Qed.

Lemma parseArgs_unknown fuel args i c arg :
  nth_error args i = Some arg -> startsWith arg "--" = true ->
  arg <> "--noise" -> arg <> "--duration" ->
  parse (S fuel) args i c
  = ([ConsoleError ["Unknown option:"; arg]], inr (Exit 1)).
Proof.
  intros H Hp Hn Hd. cbn [ChapterCrackerScript.parseArgs]. rewrite H, Hp.
  apply String.eqb_neq in Hn, Hd. now rewrite Hn, Hd.
Qed.

Lemma parseArgs_word fuel args i c arg :
  nth_error args i = Some arg -> startsWith arg "--" = false ->
  parse (S fuel) args i c
  = parse fuel args (i + 1)
      (if String.eqb (inputFile c) "" then
         {| inputFile := arg; noiseThreshold := noiseThreshold c;
            silenceDuration := silenceDuration c |}
       else c).
Proof. intros H Hp. cbn [ChapterCrackerScript.parseArgs]. now rewrite H, Hp. Qed.

(** The cases of an iteration. *)
Lemma parseArgs_cases args i :
  nth_error args i = None \/
  nth_error args i = Some "--noise" \/
  nth_error args i = Some "--duration" \/
  (exists arg, nth_error args i = Some arg /\ startsWith arg "--" = true /\
               arg <> "--noise" /\ arg <> "--duration") \/
  (exists arg, nth_error args i = Some arg /\ startsWith arg "--" = false).
Proof.
  destruct (nth_error args i) as [arg|]; [|now left]. right.
  destruct (String.eqb_spec arg "--noise") as [->|Hn]; [now left|].
  destruct (String.eqb_spec arg "--duration") as [->|Hd]; [now right; left|].
  right; right.
  destruct (startsWith arg "--") eqn:E; [left | right]; now exists arg.
Qed.

(** The loop ends within [S (length args)] iterations, in a configuration
    or at an unknown option. *)
Lemma parseArgs_result : forall fuel args i c,
  (List.length args - i < fuel)%nat ->
  (exists c', parse fuel args i c = ([], inl c')) \/
  (exists a, parse fuel args i c
             = ([ConsoleError ["Unknown option:"; a]], inr (Exit 1)) /\
             In a args /\ startsWith a "--" = true /\
             a <> "--noise" /\ a <> "--duration").
Proof.
  induction fuel as [|fuel IH]; intros args i c Hf; [lia|].
  destruct (parseArgs_cases args i)
    as [H|[H|[H|[(arg & H & Hp & Hn & Hd)|(arg & H & Hp)]]]].
  - left. exists c. now apply parseArgs_done.
  - rewrite (parseArgs_noise _ _ _ _ H). apply IH.
    assert (nth_error args i <> None) by congruence.
    apply nth_error_Some in H0. lia.
  - rewrite (parseArgs_duration _ _ _ _ H). apply IH.
    assert (nth_error args i <> None) by congruence.
    apply nth_error_Some in H0. lia.
  - right. exists arg. split; [now apply parseArgs_unknown|].
    split; [now apply nth_error_In in H|auto].
  - rewrite (parseArgs_word _ _ _ _ _ H Hp). apply IH.
    assert (nth_error args i <> None) by congruence.
    apply nth_error_Some in H0. lia.
Qed.

(** An invariant of the configuration is one of the result. *)
Lemma parseArgs_invariant (P : nat -> Config -> Prop) args :
  (forall i c, P i c -> nth_error args i = Some "--noise" ->
     P (i + 1 + 1)%nat
       {| inputFile := inputFile c; noiseThreshold := index args (i + 1);
          silenceDuration := silenceDuration c |}) ->
  (forall i c, P i c -> nth_error args i = Some "--duration" ->
     P (i + 1 + 1)%nat
       {| inputFile := inputFile c; noiseThreshold := noiseThreshold c;
          silenceDuration := JS.parseFloat (ToString (index args (i + 1))) |}) ->
  (forall i c arg, P i c -> nth_error args i = Some arg ->
     startsWith arg "--" = false ->
     P (i + 1)%nat
       (if String.eqb (inputFile c) "" then
          {| inputFile := arg; noiseThreshold := noiseThreshold c;
             silenceDuration := silenceDuration c |}
        else c)) ->
  forall fuel i c t c',
    P i c -> parse fuel args i c = (t, inl c') ->
    exists j, P j c' /\ nth_error args j = None.
Proof.
  intros Hn Hd Hw. induction fuel as [|fuel IH]; intros i c t c' HP Hr;
    [discriminate|].
  destruct (parseArgs_cases args i)
    as [H|[H|[H|[(arg & H & Hp & Hn' & Hd')|(arg & H & Hp)]]]].
  - rewrite (parseArgs_done _ _ _ _ H) in Hr. unfold ret in Hr.
    injection Hr as _ <-. exists i. now split.
  - rewrite (parseArgs_noise _ _ _ _ H) in Hr.
    exact (IH _ _ _ _ (Hn _ _ HP H) Hr).
  - rewrite (parseArgs_duration _ _ _ _ H) in Hr.
    exact (IH _ _ _ _ (Hd _ _ HP H) Hr).
  - rewrite (parseArgs_unknown _ _ _ _ _ H Hp Hn' Hd') in Hr. discriminate.
  - rewrite (parseArgs_word _ _ _ _ _ H Hp) in Hr.
    exact (IH _ _ _ _ (Hw _ _ _ HP H Hp) Hr).
Qed.


Lemma commandLine_same :
  Part000Script.commandLine = ChapterCrackerScript.commandLine.
Proof. reflexivity. Qed.

Lemma both_loops_intro (P : (list string -> IO Config) -> Prop) :
  P ChapterCrackerScript.commandLine -> both_loops P.
Proof. intros H. split; [exact H | rewrite commandLine_same; exact H]. Qed.

Lemma last_nth_error {A} (d a : A) : forall l i,
  nth_error l i = Some a -> nth_error l (i + 1) = None -> last l d = a.
Proof.
  induction l as [|x l IH]; intros i Hi Hn; [now destruct i|].
  destruct i as [|i]; simpl in Hi, Hn.
  - injection Hi as ->. destruct l; [reflexivity | discriminate].
  - destruct l as [|y l]; [now destruct i|].
    change (last (x :: y :: l) d) with (last (y :: l) d). now apply (IH i).
Qed.

Lemma index_cases args i :
  (exists v, index args i = Str v /\ In v args) \/
  (index args i = Undefined /\ nth_error args i = None).
Proof.
  unfold index. destruct (nth_error args i) as [v|] eqn:E.
  - left. exists v. split; [reflexivity | now apply nth_error_In in E].
  - now right.
Qed.

End CommandLine.

(** X1. The loops of the two files give the same result on every list of
    arguments, and the loop ends: either in a configuration, with nothing
    printed, or at an argument that begins with [--] and is neither
    [--noise] nor [--duration], which is printed after [Unknown option:]
    before [exit(1)]. *)
Theorem X1_commandLine_ends : forall args : list string,
  Part000Script.commandLine args = ChapterCrackerScript.commandLine args /\
  ((exists c, ChapterCrackerScript.commandLine args = ([], inl c)) \/
   (exists a, ChapterCrackerScript.commandLine args
              = ([ConsoleError ["Unknown option:"; a]], inr (Exit 1)) /\
              In a args /\ startsWith a "--" = true /\
              a <> "--noise" /\ a <> "--duration")).
Proof.
  intros args. split; [reflexivity|].
  apply parseArgs_result. lia.
Qed.

(** X2. The input file is an argument that does not begin with [--], or is
    left empty; when the first argument is such a word and is not empty, it
    is the input file whatever follows it. *)
Theorem X2_inputFile_first_word : both_loops (fun commandLine =>
  forall (args : list string) t c,
    commandLine args = (t, inl c) ->
    (inputFile c = "" \/
     In (inputFile c) args /\ startsWith (inputFile c) "--" = false) /\
    (forall f rest, args = f :: rest -> f <> "" ->
       startsWith f "--" = false -> inputFile c = f)).
Proof.
  apply both_loops_intro. intros args t c H. split.
  - apply (parseArgs_invariant
             (fun _ c => inputFile c = "" \/
                In (inputFile c) args /\
                startsWith (inputFile c) "--" = false)) in H;
      [destruct H as (j & Hj & _); exact Hj | auto | auto | | now left].
    intros i c0 arg HP Hi Hp. cbv beta.
    destruct (String.eqb_spec (inputFile c0) ""); [|exact HP].
    right. cbn [inputFile]. split; [now apply nth_error_In in Hi | exact Hp].
  - intros f rest -> Hf Hp.
    unfold ChapterCrackerScript.commandLine in H.
    rewrite (parseArgs_word _ (f :: rest) 0 _ f eq_refl Hp) in H.
    change (String.eqb (inputFile ChapterCrackerScript.defaults) "")
      with true in H. cbv iota in H.
    apply (parseArgs_invariant (fun _ c => inputFile c = f)) in H;
      [destruct H as (j & Hj & _); exact Hj | auto | auto | | reflexivity].
    intros i c0 arg HP Hi Hp'. cbv beta in *.
    rewrite HP. apply String.eqb_neq in Hf. now rewrite Hf.
Qed.

Lemma X2_inputFile_first_word_witness :
  exists c,
    ChapterCrackerScript.commandLine
      ["myAudio.mp3"; "--noise"; "-35dB"; "other.mp3"] = ([], inl c) /\
    inputFile c = "myAudio.mp3".
Proof.
  eexists. split; [reflexivity|].
  destruct X2_inputFile_first_word as [H _].
  destruct (H ["myAudio.mp3"; "--noise"; "-35dB"; "other.mp3"] _ _ eq_refl)
    as [_ H2].
  apply (H2 _ _ eq_refl); [discriminate | reflexivity].
Defined.


(** X3. The noise threshold is the default or an argument taken as it is
    written, and it is [undefined] only when [--noise] is the last argument;
    the silence duration is the default 2 or what [parseFloat] reads in an
    argument, and it is [NaN] when [--duration] is the last argument and
    takes the missing value. *)
Theorem X3_option_values : both_loops (fun commandLine =>
  forall (args : list string) t c,
    commandLine args = (t, inl c) ->
    ((exists v, noiseThreshold c = Str v /\ (v = "-30dB" \/ In v args)) \/
     noiseThreshold c = Undefined /\ last args "" = "--noise") /\
    (silenceDuration c = JS.of_Z 2 \/
     (exists v, In v args /\ silenceDuration c = JS.parseFloat v) \/
     last args "" = "--duration" /\ silenceDuration c = JS.NaN)).
Proof.
  apply both_loops_intro. intros args t c H. split.
  - apply (parseArgs_invariant
             (fun _ c =>
                (exists v, noiseThreshold c = Str v /\
                           (v = "-30dB" \/ In v args)) \/
                noiseThreshold c = Undefined /\ last args "" = "--noise"))
      in H; [destruct H as (j & Hj & _); exact Hj | | auto | |].
    + intros i c0 _ Hi. cbn [noiseThreshold].
      destruct (index_cases args (i + 1)) as [(v & -> & Hv)|[-> Hn]].
      * left. exists v. auto.
      * right. split; [reflexivity|]. exact (last_nth_error _ _ _ _ Hi Hn).
    + intros i c0 arg HP _ _. now destruct (String.eqb (inputFile c0) "").
    + left. exists "-30dB". auto.
  - apply (parseArgs_invariant
             (fun _ c =>
                silenceDuration c = JS.of_Z 2 \/
                (exists v, In v args /\ silenceDuration c = JS.parseFloat v) \/
                last args "" = "--duration" /\ silenceDuration c = JS.NaN))
      in H; [destruct H as (j & Hj & _); exact Hj | auto | | |].
    + intros i c0 _ Hi. cbn [silenceDuration].
      destruct (index_cases args (i + 1)) as [(v & -> & Hv)|[-> Hn]].
      * right. left. exists v. auto.
      * right. right. split; [|reflexivity].
        exact (last_nth_error _ _ _ _ Hi Hn).
    + intros i c0 arg HP _ _. now destruct (String.eqb (inputFile c0) "").
    + now left.
Qed.

Lemma X3_option_values_witness :
  (exists v,
     noiseThreshold
       {| inputFile := "myAudio.mp4"; noiseThreshold := Undefined;
          silenceDuration := JS.of_Z 3 |} = Str v /\
     (v = "-30dB" \/
      In v ["myAudio.mp4"; "--duration"; "3"; "--noise"])) \/
  noiseThreshold
    {| inputFile := "myAudio.mp4"; noiseThreshold := Undefined;
       silenceDuration := JS.of_Z 3 |} = Undefined /\
  last ["myAudio.mp4"; "--duration"; "3"; "--noise"] "" = "--noise".
Proof.
  apply (proj2 X3_option_values
           ["myAudio.mp4"; "--duration"; "3"; "--noise"] []
           {| inputFile := "myAudio.mp4"; noiseThreshold := Undefined;
              silenceDuration := JS.of_Z 3 |}).
  vm_compute. reflexivity.
Defined.

(** X4. A command line on which [--noise] does not occur leaves the
    threshold at [-30dB], and one on which [--duration] does not occur
    leaves the duration at 2. *)
Theorem X4_defaults_kept : both_loops (fun commandLine =>
  forall (args : list string) t c,
    commandLine args = (t, inl c) ->
    (~ In "--noise" args -> noiseThreshold c = Str "-30dB") /\
    (~ In "--duration" args -> silenceDuration c = JS.of_Z 2)).
Proof.
  apply both_loops_intro. intros args t c H. split; intros Hn.
  - apply (parseArgs_invariant (fun _ c => noiseThreshold c = Str "-30dB"))
      in H; [destruct H as (j & Hj & _); exact Hj | | auto | | reflexivity].
    + intros i c0 _ Hi. apply nth_error_In in Hi. contradiction.
    + intros i c0 arg HP _ _. now destruct (String.eqb (inputFile c0) "").
  - apply (parseArgs_invariant (fun _ c => silenceDuration c = JS.of_Z 2))
      in H; [destruct H as (j & Hj & _); exact Hj | auto | | | reflexivity].
    + intros i c0 _ Hi. apply nth_error_In in Hi. contradiction.
    + intros i c0 arg HP _ _. now destruct (String.eqb (inputFile c0) "").
Qed.

Lemma X4_defaults_kept_witness :
  exists c,
    ChapterCrackerScript.commandLine ["--duration"; "3"; "myAudio.mp3"]
    = ([], inl c) /\
    noiseThreshold c = Str "-30dB".
Proof.
  eexists. split; [reflexivity|].
  destruct X4_defaults_kept as [H _].
  destruct (H ["--duration"; "3"; "myAudio.mp3"] _ _ eq_refl) as [H1 _].
  apply H1. simpl. intros [E|[E|[E|[]]]]; discriminate E.
Defined.

(* ===================================================================== *)
(** ** The name of the output file *)
(* ===================================================================== *)

Section OutputFile.

Lemma is_dot_true c : is_dot c = true <-> c = "."%char.
Proof. unfold is_dot. apply Ascii.eqb_eq. Qed.

Lemma ignoreCase_m c :
  ignoreCase "m" c = true <-> c = "m"%char \/ c = "M"%char.
Proof.
  destruct c as [[|] [|] [|] [|] [|] [|] [|] [|]];
    (split; [intros H; try discriminate H; auto
            | intros [H|H]; try discriminate H; reflexivity]).
Qed.

Lemma ignoreCase_p c :
  ignoreCase "p" c = true <-> c = "p"%char \/ c = "P"%char.
Proof.
  destruct c as [[|] [|] [|] [|] [|] [|] [|] [|]];
    (split; [intros H; try discriminate H; auto
            | intros [H|H]; try discriminate H; reflexivity]).
Qed.

Lemma ignoreCase_3 c : ignoreCase "3" c = true <-> c = "3"%char.
Proof.
  destruct c as [[|] [|] [|] [|] [|] [|] [|] [|]];
    (split; [intros H; try discriminate H; auto
            | intros H; try discriminate H; reflexivity]).
Qed.

(** What [/\.mp3$/i] matches: a dot and the three letters, to the end. *)
Lemma mp3Regex_matches m :
  matchItems ChapterCrackerScript.mp3Regex atEnd m = Some tt <->
  exists e, m = "." ++ e /\ mp3_extension e.
Proof.
  unfold ChapterCrackerScript.mp3Regex. split.
  - destruct m as [|c0 [|c1 [|c2 [|c3 [|c4 m]]]]]; cbn [matchItems atEnd];
      try discriminate;
      try (destruct (is_dot c0); discriminate);
      try (destruct (is_dot c0); [destruct (ignoreCase "m" c1)|];
           discriminate);
      try (destruct (is_dot c0);
           [destruct (ignoreCase "m" c1); [destruct (ignoreCase "p" c2)|]|];
           discriminate).
    + destruct (is_dot c0) eqn:E0; [|discriminate].
      destruct (ignoreCase "m" c1) eqn:E1; [|discriminate].
      destruct (ignoreCase "p" c2) eqn:E2; [|discriminate].
      destruct (ignoreCase "3" c3) eqn:E3; [|discriminate]. intros _.
      apply is_dot_true in E0. apply ignoreCase_m in E1.
      apply ignoreCase_p in E2. apply ignoreCase_3 in E3. subst c0 c3.
      exists (String c1 (String c2 "3")). split; [reflexivity|].
      exists c1, c2. auto.
    + destruct (is_dot c0); [|discriminate].
      destruct (ignoreCase "m" c1); [|discriminate].
      destruct (ignoreCase "p" c2); [|discriminate].
      destruct (ignoreCase "3" c3); discriminate.
  - intros (e & -> & a & b & -> & Ha & Hb). cbn [append matchItems atEnd].
    apply ignoreCase_m in Ha. apply ignoreCase_p in Hb.
    change (is_dot ".") with true. rewrite Ha, Hb. reflexivity.
Qed.

(** What [/\.[^.]+$/] matches: a dot and one or more characters other than
    a dot, to the end. *)
Lemma extensionRegex_matches m :
  matchItems Part000Script.extensionRegex atEnd m = Some tt <->
  exists e, m = "." ++ e /\ e <> "" /\ only not_dot e.
Proof.
  unfold Part000Script.extensionRegex. split.
  - destruct m as [|c0 [|c1 m]]; cbn [matchItems]; try discriminate;
      [destruct (is_dot c0); discriminate|].
    destruct (is_dot c0) eqn:E0; [|discriminate].
    destruct (negb (is_dot c1)) eqn:E1; [|discriminate].
    rewrite greedy_commit by reflexivity.
    fold not_dot. intros H. apply is_dot_true in E0. subst c0.
    exists (String c1 m). split; [reflexivity|]. split; [discriminate|].
    unfold only. rewrite after_cons. unfold not_dot at 1. rewrite E1.
    destruct (after not_dot m); [reflexivity | discriminate].
  - intros (e & -> & He & Ho). destruct e as [|c1 e]; [contradiction|].
    apply only_cons in Ho as [Hc Ho]. cbn [append matchItems].
    change (is_dot ".") with true. cbv iota.
    unfold not_dot in Hc. rewrite Hc.
    rewrite greedy_commit by reflexivity. fold not_dot.
    unfold only in Ho. now rewrite Ho.
Qed.

Lemma matchItems_unit r m :
  matchItems r atEnd m <> None -> matchItems r atEnd m = Some tt.
Proof. destruct (matchItems r atEnd m) as [[]|]; congruence. Qed.

(** [replace] returns a text without a match as it is. *)
Lemma replace_none r b : forall s,
  (forall pre m, s = pre ++ m -> matchItems r atEnd m = None) ->
  replace r b s = s.
Proof.
  induction s as [|c t IH]; intros H.
  - cbn [replace]. now rewrite (H "" "" eq_refl).
  - cbn [replace]. rewrite (H "" (String c t) eq_refl). f_equal.
    apply IH. intros pre m ->. apply (H (String c pre) m). reflexivity.
Qed.

(** [replace] at the leftmost match. *)
Lemma replace_leftmost r b m : forall pre,
  matchItems r atEnd m = Some tt ->
  (forall pre1 pre2, pre = pre1 ++ pre2 -> pre2 <> "" ->
     matchItems r atEnd (pre2 ++ m) = None) ->
  replace r b (pre ++ m) = pre ++ b.
Proof.
  induction pre as [|c pre IH]; intros Hm Hl.
  - cbn [append]. destruct m; cbn [replace]; now rewrite Hm.
  - pose proof (Hl "" (String c pre) eq_refl ltac:(discriminate)) as E.
    cbn [append] in *. cbn [replace]. rewrite E. f_equal.
    apply IH; [exact Hm|]. intros pre1 pre2 -> H2.
    apply (Hl (String c pre1) pre2); [reflexivity | exact H2].
Qed.


(** [replace] finds a match, or there is none. *)
Lemma replace_cases r b : forall s,
  (exists pre m, s = pre ++ m /\ matchItems r atEnd m = Some tt /\
                 replace r b s = pre ++ b) \/
  ((forall pre m, s = pre ++ m -> matchItems r atEnd m = None) /\
   replace r b s = s).
Proof.
  induction s as [|c t IH].
  - cbn [replace]. destruct (matchItems r atEnd "") as [[]|] eqn:E.
    + left. exists "", "". auto.
    + right. split; [|reflexivity]. intros pre m H.
      destruct pre; [|discriminate]. cbn [append] in H. now subst m.
  - cbn [replace]. destruct (matchItems r atEnd (String c t)) as [[]|] eqn:E.
    + left. exists "", (String c t). auto.
    + destruct IH as [(pre & m & -> & Hm & Hr)|[Hn Hr]].
      * left. exists (String c pre), m. rewrite Hr. auto.
      * right. rewrite Hr. split; [|reflexivity]. intros pre m H.
        destruct pre as [|c' pre]; cbn [append] in H.
        -- now subst m.
        -- injection H as _ ->. now apply (Hn pre m).
Qed.

Lemma append_inv_head p : forall x y, p ++ x = p ++ y -> x = y.
Proof.
  induction p as [|c p IH]; intros x y H; [exact H|].
  cbn [append] in H. injection H as H. now apply IH.
Qed.

Lemma append_longer s x : x <> "" -> s ++ x <> s.
Proof.
  intros Hx H. apply (f_equal String.length) in H.
  rewrite length_append in H. destruct x; [contradiction|]. simpl in H. lia.
Qed.

Lemma mp3_extension_length e : mp3_extension e -> String.length e = 3%nat.
Proof. intros (a & b & -> & _). reflexivity. Qed.

Lemma mp3_not_m4b : ~ mp3_extension "m4b".
Proof. intros (a & b & H & _). discriminate H. Qed.

Lemma only_app_inv p a b : only p (a ++ b) -> only p b.
Proof.
  induction a as [|c a IH]; intros H; [exact H|].
  cbn [append] in H. apply only_cons in H as [_ H]. now apply IH.
Qed.

Lemma not_only_dot e : ~ only not_dot ("." ++ e).
Proof. intros H. apply only_cons in H as [H _]. discriminate H. Qed.

(** The name [src/chapter-cracker.ts] gives to the output. *)
Lemma mp3_replaced stem e :
  mp3_extension e ->
  replace ChapterCrackerScript.mp3Regex ".m4b" (stem ++ "." ++ e)
  = stem ++ ".m4b".
Proof.
  intros He. apply replace_leftmost.
  - apply mp3Regex_matches. now exists e.
  - intros pre1 pre2 _ H2.
    destruct (matchItems ChapterCrackerScript.mp3Regex atEnd
                (pre2 ++ "." ++ e)) as [[]|] eqn:E; [|reflexivity].
    apply mp3Regex_matches in E as (e' & E & He').
    apply (f_equal String.length) in E. rewrite !length_append in E.
    apply mp3_extension_length in He, He'. rewrite He, He' in E.
    destruct pre2; [contradiction | simpl in E; lia].
Qed.

Lemma mp3_kept s :
  (forall stem e, s = stem ++ "." ++ e -> ~ mp3_extension e) ->
  replace ChapterCrackerScript.mp3Regex ".m4b" s = s.
Proof.
  intros H. apply replace_none. intros pre m ->.
  destruct (matchItems ChapterCrackerScript.mp3Regex atEnd m) as [[]|] eqn:E;
    [|reflexivity].
  apply mp3Regex_matches in E as (e & -> & He).
  now apply (H pre e) in He.
Qed.

(** The name [src/unnamed/part_000] gives to the output. *)
Lemma extension_replaced stem e :
  e <> "" -> only not_dot e ->
  replace Part000Script.extensionRegex "" (stem ++ "." ++ e) = stem.
Proof.
  intros He Ho. rewrite <- (append_nil_r stem) at 2.
  apply replace_leftmost.
  - apply extensionRegex_matches. now exists e.
  - intros pre1 pre2 _ H2.
    destruct (matchItems Part000Script.extensionRegex atEnd
                (pre2 ++ "." ++ e)) as [[]|] eqn:E; [|reflexivity].
    apply extensionRegex_matches in E as (e' & E & _ & Ho').
    destruct pre2 as [|c p]; [contradiction|].
    cbn [append] in E. injection E as _ E. subst e'.
    apply only_app_inv in Ho'. now apply not_only_dot in Ho'.
Qed.

Lemma extension_kept s :
  (forall stem e, s = stem ++ "." ++ e -> e <> "" -> ~ only not_dot e) ->
  replace Part000Script.extensionRegex "" s = s.
Proof.
  intros H. apply replace_none. intros pre m ->.
  destruct (matchItems Part000Script.extensionRegex atEnd m) as [[]|] eqn:E;
    [|reflexivity].
  apply extensionRegex_matches in E as (e & -> & He & Ho).
  now apply (H pre e) in Ho.
Qed.

End OutputFile.

(** X5. [src/chapter-cracker.ts] names the output after the input with a
    final [.mp3], in any letter case, replaced by [.m4b]; an input without
    that extension gives an output of the same name, and only such an input
    does: the conversion is then asked to write onto the file it reads. *)
Theorem X5_ChapterCracker_outputFile : forall c : Config,
  (forall stem e, inputFile c = stem ++ "." ++ e -> mp3_extension e ->
     ChapterCrackerScript.outputFile c = stem ++ ".m4b") /\
  (ChapterCrackerScript.outputFile c = inputFile c <->
   forall stem e, inputFile c = stem ++ "." ++ e -> ~ mp3_extension e).
Proof.
  intros c. unfold ChapterCrackerScript.outputFile.
  assert (R : forall stem e, inputFile c = stem ++ "." ++ e ->
                mp3_extension e ->
                replace ChapterCrackerScript.mp3Regex ".m4b" (inputFile c)
                = stem ++ ".m4b").
  { intros stem e -> He. now apply mp3_replaced. }
  split; [exact R|]. split.
  - intros H stem e E He. rewrite (R stem e E He), E in H.
    apply append_inv_head in H. injection H as H. subst e.
    now apply mp3_not_m4b.
  - apply mp3_kept.
Qed.

Lemma X5_ChapterCracker_outputFile_witness :
  ChapterCrackerScript.outputFile
    {| inputFile := "myAudio.MP3"; noiseThreshold := Str "-30dB";
       silenceDuration := JS.of_Z 2 |} = "myAudio.m4b".
Proof.
  apply (proj1 (X5_ChapterCracker_outputFile _) "myAudio" "MP3");
    [reflexivity|].
  exists "M"%char, "P"%char. auto.
Defined.

(** X6. [src/unnamed/part_000] names the output after the input with its
    last extension (a dot followed by one or more characters other than a
    dot, up to the end) replaced by [.m4b], and appends [.m4b] to an input
    without one; the output has the name of the input exactly when the
    input ends in [.m4b]. *)
Theorem X6_Part000_outputFile : forall c : Config,
  (forall stem e, inputFile c = stem ++ "." ++ e -> e <> "" ->
     only not_dot e -> Part000Script.outputFile c = stem ++ ".m4b") /\
  ((forall stem e, inputFile c = stem ++ "." ++ e -> e <> "" ->
      ~ only not_dot e) ->
   Part000Script.outputFile c = inputFile c ++ ".m4b") /\
  (Part000Script.outputFile c = inputFile c <->
   exists stem, inputFile c = stem ++ ".m4b").
Proof.
  intros c. unfold Part000Script.outputFile.
  assert (R : forall stem e, inputFile c = stem ++ "." ++ e -> e <> "" ->
                only not_dot e ->
                replace Part000Script.extensionRegex "" (inputFile c)
                ++ ".m4b" = stem ++ ".m4b").
  { intros stem e -> He Ho. now rewrite extension_replaced. }
  split; [exact R|]. split; [|split].
  - intros H. now rewrite extension_kept.
  - intros H.
    destruct (replace_cases Part000Script.extensionRegex "" (inputFile c))
      as [(pre & m & E & Hm & Hr)|[_ Hr]]; rewrite Hr in H.
    + exists pre. rewrite append_nil_r in H. congruence.
    + now apply append_longer in H.
  - intros [stem E]. rewrite (R stem "m4b" E); [now rewrite E|discriminate|].
    reflexivity.
Qed.

Lemma X6_Part000_outputFile_witness :
  Part000Script.outputFile
    {| inputFile := "talks/day.1/myAudio.mp4"; noiseThreshold := Str "-30dB";
       silenceDuration := JS.of_Z 2 |} = "talks/day.1/myAudio.m4b".
Proof.
  apply (proj1 (X6_Part000_outputFile _) "talks/day.1/myAudio" "mp4");
    [reflexivity | discriminate | reflexivity].
Defined.

(** X7. On an input that ends in [.mp3], in any letter case, both files
    give the output the same name. *)
Theorem X7_outputFile_agree : forall (c : Config) stem e,
  inputFile c = stem ++ "." ++ e -> mp3_extension e ->
  Part000Script.outputFile c = ChapterCrackerScript.outputFile c.
Proof.
  intros c stem e E He.
  unfold Part000Script.outputFile, ChapterCrackerScript.outputFile.
  rewrite E, mp3_replaced by exact He.
  rewrite extension_replaced; [reflexivity| |].
  - destruct He as (a & b & -> & _). discriminate.
  - destruct He as (a & b & -> & [-> | ->] & [-> | ->]); reflexivity.
Qed.

Lemma X7_outputFile_agree_witness :
  Part000Script.outputFile
    {| inputFile := "my.Audio.Mp3"; noiseThreshold := Str "-30dB";
       silenceDuration := JS.of_Z 2 |}
  = ChapterCrackerScript.outputFile
      {| inputFile := "my.Audio.Mp3"; noiseThreshold := Str "-30dB";
         silenceDuration := JS.of_Z 2 |}.
Proof.
  apply (X7_outputFile_agree _ "my.Audio" "Mp3"); [reflexivity|].
  exists "M"%char, "p"%char. auto.
Defined.

(* ===================================================================== *)
(** ** The runs of the scripts *)
(* ===================================================================== *)

Section Runs.

Variables (c : Config) (h : Host).

(** The run of [main] in [src/chapter-cracker.ts]. *)
Lemma main_ChapterCrackerScript :
  ChapterCrackerScript.main c h
  = ([Spawn (ChapterCrackerScript.silenceCmd c)], inr Throw).
Proof. reflexivity. Qed.

(** The run of [main] in [src/unnamed/part_000]. *)
Lemma main_Part000Script :
  exists doc,
    let s := answer h (Part000Script.silenceCmd c) in
    let p := answer h (Part000Script.ffprobeCmd c) in
    Part000.main (world_Part000 c h)
    = (if negb (exitCode s =? 0) then
         Exited 1 ["ffmpeg silencedetect failed. Output:"; stderr s]
       else if negb (exitCode p =? 0) then
         Exited 1 ["ffprobe failed to retrieve duration."; stderr p]
       else if JS.isNaN (Part000.totalDuration (stdout p)) then
         Exited 1 ["Could not parse the total duration from ffprobe output."]
       else Written "chapters.txt" doc) /\
    Part000Script.main c h
    = if negb (exitCode s =? 0) then
        ([Spawn (Part000Script.silenceCmd c);
          ConsoleError ["ffmpeg silencedetect failed. Output:"];
          ConsoleError [stderr s]], inr (Exit 1))
      else if negb (exitCode p =? 0) then
        ([Spawn (Part000Script.silenceCmd c);
          Spawn (Part000Script.ffprobeCmd c);
          ConsoleError ["ffprobe failed to retrieve duration."];
          ConsoleError [stderr p]], inr (Exit 1))
      else if JS.isNaN (Part000.totalDuration (stdout p)) then
        ([Spawn (Part000Script.silenceCmd c);
          Spawn (Part000Script.ffprobeCmd c);
          ConsoleError
            ["Could not parse the total duration from ffprobe output."]],
         inr (Exit 1))
      else
        let before :=
          [Spawn (Part000Script.silenceCmd c);
           Spawn (Part000Script.ffprobeCmd c);
           WriteFile "chapters.txt" doc;
           Spawn (Part000Script.convertCmd c)] in
        if exitCode (answer h (Part000Script.convertCmd c)) =? 0
        then (before, inl tt)
        else ((before ++
               [ConsoleError
                  ["Error during conversion. Please check the output above."]]
              )%list, inr (Exit 1)).
Proof.
  destruct (main_Part000 (world_Part000 c h)) as (ends & He & Hm).
  cbn [world_Part000 silenceProc ffprobeProc] in He, Hm.
  eexists. cbv zeta. split; [exact Hm|].
  destruct (Part000_starts_total
              (stderr (answer h (Part000Script.silenceCmd c)))) as [ss Hs].
  unfold Part000Script.main. cbv zeta.
  destruct (negb (exitCode (answer h (Part000Script.silenceCmd c)) =? 0));
    [reflexivity|].
  rewrite Hs, He. cbn [looping bind emit ret app].
  destruct (negb (exitCode (answer h (Part000Script.ffprobeCmd c)) =? 0));
    [reflexivity|].
  destruct (JS.isNaN _); [reflexivity|].
  cbn [looping bind emit ret app]. rewrite metadata_Part000.
  unfold Part000Script.metadataFile. cbn [throwing bind emit ret app].
  destruct (exitCode (answer h (Part000Script.convertCmd c)) =? 0);
    reflexivity.
Qed.

End Runs.

Section Startup.

Variables (usage nofile label : string).
Variable commandLine : list string -> IO Config.
Variable main : Config -> Host -> IO unit.
Hypothesis commandLine_ends : forall args,
  (exists c, commandLine args = ([], inl c)) \/
  (exists a, commandLine args
             = ([ConsoleError ["Unknown option:"; a]], inr (Exit 1))).

(** The ways a script goes. *)
Lemma startup_cases argv h :
  let r := startup usage nofile label commandLine main argv h in
  (exists err, r = ([ConsoleError err], Exit 1) /\
     (skipn 2 argv = [] \/
      (exists t e, commandLine (skipn 2 argv) = (t, inr e)) \/
      exists c, commandLine (skipn 2 argv) = ([], inl c) /\
                (inputFile c = "" \/ existsSync h (inputFile c) = false))) \/
  (exists c, commandLine (skipn 2 argv) = ([], inl c) /\
     skipn 2 argv <> [] /\ inputFile c <> "" /\
     existsSync h (inputFile c) = true /\
     r = finish (catch label (main c h))).
Proof.
  cbv zeta. unfold startup. cbv zeta.
  destruct (skipn 2 argv) as [|a args] eqn:Ea.
  - left. eexists. split; [reflexivity | now left].
  - change (List.length (a :: args) =? 0)%nat with false. cbv iota.
    destruct (commandLine_ends (a :: args)) as [[c0 Hc]|[u Hu]].
    + cbn [bind ret app]. rewrite Hc. cbn [bind ret app].
      destruct (String.eqb_spec (inputFile c0) "") as [E|E].
      * left. eexists. split; [reflexivity|]. right. right. eauto.
      * destruct (existsSync h (inputFile c0)) eqn:Ex.
        -- right. exists c0. repeat (split; try assumption);
             [discriminate|].
           cbn [negb bind ret app].
           destruct (catch label (main c0 h)) as [t [[]|e]]; reflexivity.
        -- left. eexists. split; [reflexivity|]. right. right. eauto.
    + left. cbn [bind ret app]. rewrite Hu. eexists.
      split; [reflexivity|]. right. left. eauto.
Qed.

End Startup.

Section Scripts.

Lemma script_ChapterCracker :
  ChapterCrackerScript.script
  = startup ChapterCrackerScript.usage "Please specify an input MP3 file."
      "Error:" ChapterCrackerScript.commandLine ChapterCrackerScript.main.
Proof. reflexivity. Qed.

Lemma script_Part000 :
  Part000Script.script
  = startup Part000Script.usage "Please specify an input audio/video file."
      "Unhandled Error:" Part000Script.commandLine Part000Script.main.
Proof. reflexivity. Qed.

Lemma commandLine_ends args :
  (exists c, ChapterCrackerScript.commandLine args = ([], inl c)) \/
  (exists a, ChapterCrackerScript.commandLine args
             = ([ConsoleError ["Unknown option:"; a]], inr (Exit 1))).
Proof.
  destruct (parseArgs_result (S (List.length args)) args 0
              ChapterCrackerScript.defaults ltac:(lia))
    as [H|(a & H & _)]; [now left | right; now exists a].
Qed.

Lemma ChapterCracker_cases argv h :
  (exists err, ChapterCrackerScript.script argv h
               = ([ConsoleError err], Exit 1) /\
     (skipn 2 argv = [] \/
      (exists t e, ChapterCrackerScript.commandLine (skipn 2 argv)
                   = (t, inr e)) \/
      exists c, ChapterCrackerScript.commandLine (skipn 2 argv)
                = ([], inl c) /\
                (inputFile c = "" \/ existsSync h (inputFile c) = false))) \/
  (exists c, ChapterCrackerScript.commandLine (skipn 2 argv) = ([], inl c) /\
     skipn 2 argv <> [] /\ inputFile c <> "" /\
     existsSync h (inputFile c) = true /\
     ChapterCrackerScript.script argv h
     = finish (catch "Error:" (ChapterCrackerScript.main c h))).
Proof. rewrite script_ChapterCracker. apply startup_cases, commandLine_ends. Qed.

Lemma Part000_cases argv h :
  (exists err, Part000Script.script argv h = ([ConsoleError err], Exit 1) /\
     (skipn 2 argv = [] \/
      (exists t e, Part000Script.commandLine (skipn 2 argv) = (t, inr e)) \/
      exists c, Part000Script.commandLine (skipn 2 argv) = ([], inl c) /\
                (inputFile c = "" \/ existsSync h (inputFile c) = false))) \/
  (exists c, Part000Script.commandLine (skipn 2 argv) = ([], inl c) /\
     skipn 2 argv <> [] /\ inputFile c <> "" /\
     existsSync h (inputFile c) = true /\
     Part000Script.script argv h
     = finish (catch "Unhandled Error:" (Part000Script.main c h))).
Proof. rewrite script_Part000. apply startup_cases, commandLine_ends. Qed.

End Scripts.

(** X8. Whatever the tools answer, a run of [src/chapter-cracker.ts] does
    nothing to the outside but spawn its silence detection: [main] throws
    where it first reads the piped output, the handler prints [Error:] and
    the run ends in [exit(1)].  The probe and the conversion are never
    spawned and [chapters.txt] is never written. *)
Theorem X8_ChapterCracker_run : forall (argv : list string) (h : Host),
  (forall c,
     ChapterCrackerScript.commandLine (skipn 2 argv) = ([], inl c) ->
     skipn 2 argv <> [] -> inputFile c <> "" ->
     existsSync h (inputFile c) = true ->
     ChapterCrackerScript.script argv h
     = ([Spawn (ChapterCrackerScript.silenceCmd c); Caught "Error:"],
        Exit 1)) /\
  (forall e, In e (fst (ChapterCrackerScript.script argv h)) ->
     acts e = true ->
     exists c, e = Spawn (ChapterCrackerScript.silenceCmd c)).
Proof.
  intros argv h. split.
  - intros c Hc Ha Hi Hx.
    destruct (ChapterCracker_cases argv h)
      as [(err & _ & [Hf|[(t & e & Hf)|(c' & Hf & [Hf'|Hf'])]])
         |(c' & Hc' & _ & _ & _ & ->)]; try congruence.
    assert (c' = c) by congruence. subst c'. reflexivity.
  - intros e He Ha.
    destruct (ChapterCracker_cases argv h)
      as [(err & E & _)|(c & _ & _ & _ & _ & E)]; rewrite E in He.
    + destruct He as [<-|[]]. discriminate Ha.
    + exists c. destruct He as [<-|[<-|[]]]; [reflexivity | discriminate Ha].
Qed.

Lemma X8_ChapterCracker_run_witness :
  ChapterCrackerScript.script ["bun"; "audiobook.ts"; "myAudio.mp3"]
    {| existsSync := fun _ => true;
       answer := fun _ =>
         {| exitCode := 0; stdout := "100.0";
            stderr := "silence_end: 10.500" |};
       exited := fun _ => Num (JS.of_Z 0) |}
  = ([Spawn ["ffmpeg"; "-i"; "myAudio.mp3"; "-af";
             "silencedetect=noise=-30dB:d=2"; "-f"; "null"; "-"];
      Caught "Error:"], Exit 1).
Proof.
  apply (proj1 (X8_ChapterCracker_run
                  ["bun"; "audiobook.ts"; "myAudio.mp3"]
                  {| existsSync := fun _ => true;
                     answer := fun _ =>
                       {| exitCode := 0; stdout := "100.0";
                          stderr := "silence_end: 10.500" |};
                     exited := fun _ => Num (JS.of_Z 0) |})
               {| inputFile := "myAudio.mp3"; noiseThreshold := Str "-30dB";
                  silenceDuration := JS.of_Z 2 |});
    [reflexivity | discriminate | discriminate | reflexivity].
Defined.

(** X10. When [exited] resolves to a number for every tool, no run of
    [src/chapter-cracker.ts] ends normally: every command line ends in
    [exit(1)], a successful conversion included. *)
Theorem X10_ChapterCracker_never_succeeds :
  forall (argv : list string) (h : Host),
    (forall cmd, exists n, exited h cmd = Num n) ->
    snd (ChapterCrackerScript.script argv h) = Exit 1.
Proof.
  intros argv h Hn.
  destruct (ChapterCracker_cases argv h)
    as [(err & -> & _)|(c & _ & _ & _ & _ & ->)]; reflexivity.
Qed.

Lemma X10_ChapterCracker_never_succeeds_witness :
  snd (ChapterCrackerScript.script
         ["bun"; "audiobook.ts"; "myAudio.mp3"]
         {| existsSync := fun _ => true;
            answer := fun _ =>
              {| exitCode := 0; stdout := "100.0"; stderr := "" |};
            exited := fun _ => Num (JS.of_Z 0) |})
  = Exit 1.
Proof.
  apply X10_ChapterCracker_never_succeeds.
  intros cmd. now exists (JS.of_Z 0).
Defined.

(** X11. A run of [src/unnamed/part_000] ends normally exactly when there
    is an argument, the command line is accepted, it names an input file
    that exists, the three tools exit with status 0 and the duration read
    is not [NaN]. *)
Theorem X11_Part000_succeeds_iff : forall (argv : list string) (h : Host),
  snd (Part000Script.script argv h) = Return <->
  exists c,
    Part000Script.commandLine (skipn 2 argv) = ([], inl c) /\
    skipn 2 argv <> [] /\ inputFile c <> "" /\
    existsSync h (inputFile c) = true /\
    exitCode (answer h (Part000Script.silenceCmd c)) = 0 /\
    exitCode (answer h (Part000Script.ffprobeCmd c)) = 0 /\
    JS.isNaN (Part000.totalDuration
                (stdout (answer h (Part000Script.ffprobeCmd c)))) = false /\
    exitCode (answer h (Part000Script.convertCmd c)) = 0.
Proof.
  intros argv h.
  destruct (Part000_cases argv h)
    as [(err & -> & Hf)|(c & Hc & Ha & Hi & Hx & ->)].
  - split; [discriminate|]. intros (c & Hc & Ha & Hi & Hx & _).
    destruct Hf as [Hf|[(t & e & Hf)|(c' & Hf & [Hf'|Hf'])]];
      congruence.
  - destruct (main_Part000Script c h) as (doc & _ & Hr). cbv zeta in Hr.
    rewrite Hr. clear Hr.
    destruct (exitCode (answer h (Part000Script.silenceCmd c)) =? 0) eqn:E1;
      cbn [negb].
    2:{ split; [discriminate|]. intros (c' & Hc' & _ & _ & _ & H & _).
        assert (c' = c) by congruence. subst c'.
        apply Z.eqb_neq in E1. contradiction. }
    destruct (exitCode (answer h (Part000Script.ffprobeCmd c)) =? 0) eqn:E2;
      cbn [negb].
    2:{ split; [discriminate|]. intros (c' & Hc' & _ & _ & _ & _ & H & _).
        assert (c' = c) by congruence. subst c'.
        apply Z.eqb_neq in E2. contradiction. }
    destruct (JS.isNaN _) eqn:E3.
    { split; [discriminate|].
      intros (c' & Hc' & _ & _ & _ & _ & _ & H & _).
      assert (c' = c) by congruence. subst c'. congruence. }
    destruct (exitCode (answer h (Part000Script.convertCmd c)) =? 0) eqn:E4.
    2:{ split; [discriminate|].
        intros (c' & Hc' & _ & _ & _ & _ & _ & _ & H).
        assert (c' = c) by congruence. subst c'.
        apply Z.eqb_neq in E4. contradiction. }
    split; [|reflexivity]. intros _. exists c.
    apply Z.eqb_eq in E1, E2, E4. repeat (split; try assumption).
Qed.

(** X12. The [main] of [src/unnamed/part_000] does what the logic layer
    decides on the answers of the two tools: when the layer writes a
    document, the run spawns detection and probe, writes that document and
    spawns the conversion; when the layer exits, the run ends with the same
    status and the same error texts, and writes nothing. *)
Theorem X12_Part000_refines_main : forall (c : Config) (h : Host),
  match Part000.main (world_Part000 c h) with
  | Written file doc =>
      exists verdict,
        fst (Part000Script.main c h)
        = ([Spawn (Part000Script.silenceCmd c);
            Spawn (Part000Script.ffprobeCmd c);
            WriteFile file doc;
            Spawn (Part000Script.convertCmd c)] ++ verdict)%list
  | Exited code errs =>
      snd (Part000Script.main c h) = inr (Exit code) /\
      errors (fst (Part000Script.main c h)) = errs /\
      forall file doc,
        ~ In (WriteFile file doc) (fst (Part000Script.main c h))
  | Thrown | Diverged => False
  end.
Proof.
  intros c h. destruct (main_Part000Script c h) as (doc & Hm & Hr).
  cbv zeta in Hm, Hr. rewrite Hm, Hr. clear Hm Hr.
  destruct (negb (exitCode (answer h (Part000Script.silenceCmd c)) =? 0)).
  { cbn [fst snd errors flat_map app]. repeat split.
    intros f d [H|[H|[H|[]]]]; discriminate H. }
  destruct (negb (exitCode (answer h (Part000Script.ffprobeCmd c)) =? 0)).
  { cbn [fst snd errors flat_map app]. repeat split.
    intros f d [H|[H|[H|[H|[]]]]]; discriminate H. }
  destruct (JS.isNaN _).
  { cbn [fst snd errors flat_map app]. repeat split.
    intros f d [H|[H|[H|[]]]]; discriminate H. }
  destruct (exitCode (answer h (Part000Script.convertCmd c)) =? 0).
  - exists []. reflexivity.
  - eexists. reflexivity.
Qed.

(** X13. [src/unnamed/part_000] probes the duration only after a silence
    detection that exited with status 0, the detection being the first
    thing spawned; and it converts only after both tools exited with
    status 0 and the duration was read: the run is then the spawn of the
    detection, the spawn of the probe, the write of [chapters.txt] and the
    spawn of the conversion, in that order, followed at most by the error
    text of the conversion. *)
Theorem X13_Part000_guards : forall (c : Config) (h : Host),
  let t := fst (Part000Script.main c h) in
  (In (Spawn (Part000Script.ffprobeCmd c)) t ->
   exitCode (answer h (Part000Script.silenceCmd c)) = 0 /\
   exists rest,
     t = Spawn (Part000Script.silenceCmd c)
         :: Spawn (Part000Script.ffprobeCmd c) :: rest) /\
  (In (Spawn (Part000Script.convertCmd c)) t ->
   exitCode (answer h (Part000Script.silenceCmd c)) = 0 /\
   exitCode (answer h (Part000Script.ffprobeCmd c)) = 0 /\
   JS.isNaN (Part000.totalDuration
               (stdout (answer h (Part000Script.ffprobeCmd c)))) = false /\
   exists doc verdict,
     t = ([Spawn (Part000Script.silenceCmd c);
           Spawn (Part000Script.ffprobeCmd c);
           WriteFile "chapters.txt" doc;
           Spawn (Part000Script.convertCmd c)] ++ verdict)%list /\
     (verdict = [] \/
      verdict
      = [ConsoleError
           ["Error during conversion. Please check the output above."]])).
Proof.
  intros c h. destruct (main_Part000Script c h) as (doc & _ & Hr).
  cbv zeta in *. rewrite Hr. clear Hr.
  destruct (exitCode (answer h (Part000Script.silenceCmd c)) =? 0) eqn:E1;
    cbn [negb].
  2:{ cbn [fst]. split; intros [H|[H|[H|[]]]]; discriminate H. }
  apply Z.eqb_eq in E1.
  destruct (exitCode (answer h (Part000Script.ffprobeCmd c)) =? 0) eqn:E2;
    cbn [negb].
  2:{ cbn [fst]. split; [intros _; split; [assumption | eexists; reflexivity]|].
      intros [H|[H|[H|[H|[]]]]]; discriminate H. }
  apply Z.eqb_eq in E2.
  destruct (JS.isNaN _) eqn:E3.
  { cbn [fst]. split; [intros _; split; [assumption | eexists; reflexivity]|].
    intros [H|[H|[H|[]]]]; discriminate H. }
  destruct (exitCode (answer h (Part000Script.convertCmd c)) =? 0);
    cbn [fst app].
  - split; [intros _; split; [assumption | eexists; reflexivity]|].
    intros _. repeat (split; [assumption || reflexivity|]).
    exists doc, []. auto.
  - split; [intros _; split; [assumption | eexists; reflexivity]|].
    intros _. repeat (split; [assumption || reflexivity|]).
    exists doc. eexists. split; [reflexivity | now right].
Qed.

Lemma X11_Part000_succeeds_iff_witness :
  snd (Part000Script.script
         ["bun"; "audiobook.ts"; "myAudio.mp4"; "--noise"; "-35dB"]
         {| existsSync := fun f => String.eqb f "myAudio.mp4";
            answer := fun _ =>
              {| exitCode := 0; stdout := "100.0";
                 stderr := "silence_end: 10.500" |};
            exited := fun _ => Undefined |})
  = Return.
Proof.
  apply X11_Part000_succeeds_iff. eexists.
  split; [reflexivity|]. split; [discriminate|]. split; [discriminate|].
  repeat split.
Defined.

Lemma X12_Part000_refines_main_witness :
  snd (Part000Script.main
         {| inputFile := "myAudio.mp4"; noiseThreshold := Str "-30dB";
            silenceDuration := JS.of_Z 2 |}
         {| existsSync := fun _ => true;
            answer := fun _ =>
              {| exitCode := 0; stdout := "N/A"; stderr := "" |};
            exited := fun _ => Undefined |})
  = inr (Exit 1).
Proof.
  exact (proj1 (X12_Part000_refines_main
                 {| inputFile := "myAudio.mp4"; noiseThreshold := Str "-30dB";
                    silenceDuration := JS.of_Z 2 |}
                 {| existsSync := fun _ => true;
                    answer := fun _ =>
                      {| exitCode := 0; stdout := "N/A"; stderr := "" |};
                    exited := fun _ => Undefined |})).
Defined.

Lemma X13_Part000_guards_witness :
  exists doc verdict,
    fst (Part000Script.main
           {| inputFile := "myAudio.mp4"; noiseThreshold := Str "-30dB";
              silenceDuration := JS.of_Z 2 |}
           {| existsSync := fun _ => true;
              answer := fun _ =>
                {| exitCode := 0; stdout := "100.0"; stderr := "" |};
              exited := fun _ => Undefined |})
    = ([Spawn ["ffmpeg"; "-i"; "myAudio.mp4"; "-af";
               "silencedetect=n=-30dB:d=2"; "-f"; "null"; "-"];
        Spawn ["ffprobe"; "-v"; "error"; "-show_entries"; "format=duration";
               "-of"; "default=noprint_wrappers=1:nokey=1"; "myAudio.mp4"];
        WriteFile "chapters.txt" doc;
        Spawn ["ffmpeg"; "-y"; "-i"; "myAudio.mp4"; "-i"; "chapters.txt";
               "-map_metadata"; "1"; "-vn"; "-c:a"; "aac"; "-b:a"; "128k";
               "myAudio.m4b"]] ++ verdict)%list.
Proof.
  destruct (proj2 (X13_Part000_guards
                     {| inputFile := "myAudio.mp4";
                        noiseThreshold := Str "-30dB";
                        silenceDuration := JS.of_Z 2 |}
                     {| existsSync := fun _ => true;
                        answer := fun _ =>
                          {| exitCode := 0; stdout := "100.0"; stderr := "" |};
                        exited := fun _ => Undefined |}))
    as (_ & _ & _ & doc & verdict & E & _).
  - right. right. right. left. reflexivity.
  - exists doc, verdict. exact E.
Defined.

Lemma first_event_ChapterCracker c h :
  hd_error (fst (finish (catch "Error:" (ChapterCrackerScript.main c h))))
  = Some (Spawn (ChapterCrackerScript.silenceCmd c)).
Proof. reflexivity. Qed.

Lemma first_event_Part000 c h :
  hd_error
    (fst (finish (catch "Unhandled Error:" (Part000Script.main c h))))
  = Some (Spawn (Part000Script.silenceCmd c)).
Proof.
  destruct (main_Part000Script c h) as (doc & _ & Hr). cbv zeta in Hr.
  rewrite Hr.
  destruct (negb _); [reflexivity|]. destruct (negb _); [reflexivity|].
  destruct (JS.isNaN _); [reflexivity|].
  destruct (_ =? 0); reflexivity.
Qed.

(** X14. Neither script spawns a tool or writes a file unless there is an
    argument, the command line is accepted and it names an input file that
    exists; when that is so, the first thing either script does is to spawn
    its silence detection with the configuration of the command line. *)
Theorem X14_startup_guard : forall (argv : list string) (h : Host),
  (forall e, acts e = true ->
     In e (fst (ChapterCrackerScript.script argv h)) \/
     In e (fst (Part000Script.script argv h)) ->
     exists c,
       ChapterCrackerScript.commandLine (skipn 2 argv) = ([], inl c) /\
       Part000Script.commandLine (skipn 2 argv) = ([], inl c) /\
       skipn 2 argv <> [] /\ inputFile c <> "" /\
       existsSync h (inputFile c) = true) /\
  (forall c,
     ChapterCrackerScript.commandLine (skipn 2 argv) = ([], inl c) ->
     skipn 2 argv <> [] -> inputFile c <> "" ->
     existsSync h (inputFile c) = true ->
     hd_error (fst (ChapterCrackerScript.script argv h))
     = Some (Spawn (ChapterCrackerScript.silenceCmd c)) /\
     hd_error (fst (Part000Script.script argv h))
     = Some (Spawn (Part000Script.silenceCmd c))).
Proof.
  intros argv h. split.
  - intros e He [H|H].
    + destruct (ChapterCracker_cases argv h)
        as [(err & E & _)|(c & Hc & Ha & Hi & Hx & _)].
      * rewrite E in H. destruct H as [<-|[]]. discriminate He.
      * now exists c.
    + destruct (Part000_cases argv h)
        as [(err & E & _)|(c & Hc & Ha & Hi & Hx & _)].
      * rewrite E in H. destruct H as [<-|[]]. discriminate He.
      * now exists c.
  - intros c Hc Ha Hi Hx. split.
    + destruct (ChapterCracker_cases argv h)
        as [(err & _ & [Hf|[(t & e & Hf)|(c' & Hf & [Hf'|Hf'])]])
           |(c' & Hc' & _ & _ & _ & ->)]; try congruence.
      assert (c' = c) by congruence. subst c'.
      apply first_event_ChapterCracker.
    + destruct (Part000_cases argv h)
        as [(err & _ & [Hf|[(t & e & Hf)|(c' & Hf & [Hf'|Hf'])]])
           |(c' & Hc' & _ & _ & _ & ->)];
        change Part000Script.commandLine
          with ChapterCrackerScript.commandLine in *;
        try congruence.
      assert (c' = c) by congruence.
      subst c'. apply first_event_Part000.
Qed.

Lemma X14_startup_guard_witness :
  hd_error
    (fst (Part000Script.script
            ["bun"; "audiobook.ts"; "myAudio.mp4"]
            {| existsSync := fun f => String.eqb f "myAudio.mp4";
               answer := fun _ =>
                 {| exitCode := 0; stdout := ""; stderr := "" |};
               exited := fun _ => Undefined |}))
  = Some (Spawn ["ffmpeg"; "-i"; "myAudio.mp4"; "-af";
                 "silencedetect=n=-30dB:d=2"; "-f"; "null"; "-"]).
Proof.
  apply (proj2 (X14_startup_guard
                  ["bun"; "audiobook.ts"; "myAudio.mp4"]
                  {| existsSync := fun f => String.eqb f "myAudio.mp4";
                     answer := fun _ =>
                       {| exitCode := 0; stdout := ""; stderr := "" |};
                     exited := fun _ => Undefined |})
               {| inputFile := "myAudio.mp4"; noiseThreshold := Str "-30dB";
                  silenceDuration := JS.of_Z 2 |});
    [reflexivity | discriminate | discriminate | reflexivity].
Defined.

(** X15. Every run of either script ends normally or in [exit(1)]: no
    other status, no exception past the handler, no loop without end. *)
Theorem X15_endings : forall (argv : list string) (h : Host),
  (snd (ChapterCrackerScript.script argv h) = Return \/
   snd (ChapterCrackerScript.script argv h) = Exit 1) /\
  (snd (Part000Script.script argv h) = Return \/
   snd (Part000Script.script argv h) = Exit 1).
Proof.
  intros argv h. split.
  - destruct (ChapterCracker_cases argv h)
      as [(err & -> & _)|(c & _ & _ & _ & _ & ->)]; [now right|].
    now right.
  - destruct (Part000_cases argv h)
      as [(err & -> & _)|(c & _ & _ & _ & _ & ->)]; [now right|].
    destruct (main_Part000Script c h) as (doc & _ & Hr). cbv zeta in Hr.
    rewrite Hr.
    destruct (negb _); [now right|]. destruct (negb _); [now right|].
    destruct (JS.isNaN _); [now right|].
    destruct (_ =? 0); [now left | now right].
Qed.

(* ===================================================================== *)
(** ** Integer numerals read back *)
(* ===================================================================== *)

Section Numerals.

Lemma digits_value_acc d : forall acc : positive,
  JS.digits_value (Zpos acc) (NilEmpty.string_of_uint d)
  = Zpos (Pos.of_uint_acc d acc).
Proof.
  induction d as [|d IH|d IH|d IH|d IH|d IH|d IH|d IH|d IH|d IH|d IH];
    intros acc; [reflexivity|..];
    cbn [NilEmpty.string_of_uint JS.digits_value Pos.of_uint_acc];
    rewrite <- IH; f_equal;
    match goal with
    | |- context [Z.of_nat ?k] =>
        let v := eval vm_compute in (Z.of_nat k) in
        change (Z.of_nat k) with v
    end; lia.
Qed.

Lemma digits_value_uint d :
  JS.digits_value 0 (NilEmpty.string_of_uint d) = Z.of_N (Pos.of_uint d).
Proof.
  induction d as [|d IH|d IH|d IH|d IH|d IH|d IH|d IH|d IH|d IH|d IH];
    [reflexivity | exact IH |..];
    cbn [NilEmpty.string_of_uint JS.digits_value Pos.of_uint];
    apply (digits_value_acc d).
Qed.

Lemma only_digits_uint d : only JS.is_digit (NilEmpty.string_of_uint d).
Proof.
  unfold only.
  induction d as [|d IH|d IH|d IH|d IH|d IH|d IH|d IH|d IH|d IH|d IH];
    [reflexivity|..];
    cbn [NilEmpty.string_of_uint]; rewrite after_cons; exact IH.
Qed.

(** [parseFloat] reads the numeral of an integer below [2 ^ 53] as that
    integer. *)
Lemma parseFloat_string_of_Z n :
  0 <= n < 2 ^ 53 -> JS.parseFloat (JS.string_of_Z n) = JS.of_Z n.
Proof.
  intros Hn. destruct n as [|p|p]; [reflexivity| |lia].
  rewrite string_of_Z_pos.
  pose proof (Unsigned.of_to p) as V. unfold Pos.to_uint in V.
  pose proof (digits_value_uint (Decimal.rev (Pos.to_little_uint p))) as D.
  rewrite V in D.
  pose proof (only_digits_uint (Decimal.rev (Pos.to_little_uint p))) as O.
  destruct (NilEmpty.string_of_uint (Decimal.rev (Pos.to_little_uint p)))
    as [|c d1] eqn:E; [discriminate D|].
  apply only_cons in O as [Hc Hd].
  rewrite (parseFloat_integer_end c d1 Hc Hd).
  unfold decimal_value. rewrite append_nil_r, D.
  change (- Z.of_nat (String.length "")) with 0.
  rewrite of_decimal_integer; [f_equal; cbn [Z.of_N]; lia | cbn; lia | lia |].
  cbn [Z.of_N]. change (10 ^ 0) with 1.
  assert (2 ^ 53 < 2 ^ 66) by reflexivity. lia.
Qed.

End Numerals.

(** X16. A silence duration read from the decimal numeral of a
    non-negative integer below [2 ^ 53] is handed to the silence detection
    as that numeral, in both files. *)
Theorem X16_duration_round_trip : forall (c : Config) (n : Z),
  0 <= n < 2 ^ 53 ->
  silenceDuration c = JS.parseFloat (ToString (Str (JS.string_of_Z n))) ->
  nth 4 (ChapterCrackerScript.silenceCmd c) ""
  = "silencedetect=noise=" ++ ToString (noiseThreshold c) ++ ":d="
    ++ JS.string_of_Z n /\
  nth 4 (Part000Script.silenceCmd c) ""
  = "silencedetect=n=" ++ ToString (noiseThreshold c) ++ ":d="
    ++ JS.string_of_Z n.
Proof.
  intros c n Hn Hd.
  cbn [nth ChapterCrackerScript.silenceCmd Part000Script.silenceCmd].
  cbn [ToString] in Hd.
  rewrite Hd, parseFloat_string_of_Z, toString_of_Z by lia. now split.
Qed.

Lemma X16_duration_round_trip_witness :
  nth 4 (Part000Script.silenceCmd
           {| inputFile := "myAudio.mp4"; noiseThreshold := Str "-35dB";
              silenceDuration := JS.parseFloat "3" |}) ""
  = "silencedetect=n=-35dB:d=3".
Proof.
  apply (proj2 (X16_duration_round_trip
                  {| inputFile := "myAudio.mp4"; noiseThreshold := Str "-35dB";
                     silenceDuration := JS.parseFloat "3" |} 3
                  ltac:(lia) eq_refl)).
Defined.

(* ===================================================================== *)
(** ** The duration the probe prints *)
(* ===================================================================== *)

Section ProbeOutput.

Lemma trimEnd_spaces w : only JS.is_space w -> JS.trimEnd w = "".
Proof.
  induction w as [|c w IH]; intros H; [reflexivity|].
  apply only_cons in H as [Hc Hw]. cbn [JS.trimEnd].
  now rewrite (IH Hw), Hc.
Qed.

Lemma trimEnd_app body w :
  only (fun c => negb (JS.is_space c)) body -> only JS.is_space w ->
  JS.trimEnd (body ++ w) = body.
Proof.
  intros Hb Hw. induction body as [|c r IH]; [now apply trimEnd_spaces|].
  apply only_cons in Hb as [Hc Hr]. cbn [append JS.trimEnd].
  rewrite (IH Hr). apply negb_true_iff in Hc. rewrite Hc.
  now destruct r.
Qed.

Lemma trim_body w1 c body w2 :
  only JS.is_space w1 -> only JS.is_space w2 ->
  only (fun c => negb (JS.is_space c)) (String c body) ->
  JS.trim (w1 ++ String c body ++ w2) = String c body.
Proof.
  intros H1 H2 Hb. unfold JS.trim.
  rewrite trimStart_after, (after_app_only_weak _ _ _ H1).
  pose proof Hb as Hb'. apply only_cons in Hb' as [Hc _].
  apply negb_true_iff in Hc.
  cbn [append]. rewrite after_cons, Hc.
  now apply (trimEnd_app (String c body)).
Qed.

Lemma digits_no_space d :
  only JS.is_digit d -> only (fun c => negb (JS.is_space c)) d.
Proof.
  apply only_weaken. intros c Hc. now rewrite (digit_not_space c Hc).
Qed.

End ProbeOutput.

(** X17. Both files read a duration that the probe prints as a decimal
    numeral, with or without a fraction and with any white space around it
    (a final newline, say), as the number nearest to that decimal; it is
    at least 0 and not [NaN]. *)
Theorem X17_totalDuration_reads_decimal :
  forall (w1 w2 : string) (c : ascii) (d1 d2 : string),
    only JS.is_space w1 -> only JS.is_space w2 ->
    JS.is_digit c = true -> only JS.is_digit d1 -> only JS.is_digit d2 ->
    let D := decimal_value (String c d1) d2 in
    let N := decimal_value (String c d1) "" in
    ChapterCracker.totalDuration (w1 ++ (String c d1 ++ "." ++ d2) ++ w2) = D /\
    Part000.totalDuration (w1 ++ (String c d1 ++ "." ++ d2) ++ w2) = D /\
    ChapterCracker.totalDuration (w1 ++ String c d1 ++ w2) = N /\
    Part000.totalDuration (w1 ++ String c d1 ++ w2) = N /\
    JS.isNaN D = false /\ JS.ge D (JS.of_Z 0) = true /\
    JS.isNaN N = false /\ JS.ge N (JS.of_Z 0) = true.
Proof.
  intros w1 w2 c d1 d2 H1 H2 Hc Hd1 Hd2 D N.
  assert (Hs1 : only (fun c => negb (JS.is_space c)) (String c d1)).
  { apply digits_no_space. unfold only. now rewrite after_cons, Hc. }
  assert (Hf : only (fun c => negb (JS.is_space c))
                 (String c (d1 ++ "." ++ d2))).
  { change (String c (d1 ++ "." ++ d2)) with (String c d1 ++ "." ++ d2).
    apply only_app; [exact Hs1|].
    apply (only_app _ "." d2); [reflexivity | now apply digits_no_space]. }
  assert (E1 : JS.parseFloat
                 (JS.trim (w1 ++ (String c d1 ++ "." ++ d2) ++ w2)) = D).
  { change (String c d1 ++ "." ++ d2) with (String c (d1 ++ "." ++ d2)).
    rewrite (trim_body _ _ _ _ H1 H2 Hf).
    change (String c (d1 ++ "." ++ d2)) with (String c d1 ++ "." ++ d2).
    now apply (parseFloat_fraction_end c d1 d2). }
  assert (E2 : JS.parseFloat (JS.trim (w1 ++ String c d1 ++ w2)) = N).
  { rewrite (trim_body _ _ _ _ H1 H2 Hs1).
    now apply parseFloat_integer_end. }
  unfold ChapterCracker.totalDuration, Part000.totalDuration.
  repeat split; try assumption;
    try (apply (signed_not_NaN false); apply of_decimal_signed);
    apply signed_ge_0; apply of_decimal_signed.
Qed.

Lemma X17_totalDuration_reads_decimal_witness :
  Part000.totalDuration ("100.0" ++ JS.LF) = decimal_value "100" "0".
Proof.
  exact (proj1 (proj2 (X17_totalDuration_reads_decimal
                         "" JS.LF "1" "00" "0" eq_refl eq_refl eq_refl
                         eq_refl eq_refl))).
Defined.
